(** * Oraxel X402: the payment-gated job lifecycle

    A shallow embedding of the backend's job store ([JobService]), payment
    services ([X402Service], [FacilitatorService]) and request handlers
    ([JobController]), followed by the properties of the lifecycle that the
    specification states about them.  The environment ([validateEnv]), the
    client of the 402 protocol, the oracle ([OracleService]) and the earlier
    controller that runs the oracle inline are embedded as well, with
    properties read off their code.

    Conventions.
    - [new Date()] and [nanoid()] are inputs of the functions that call them:
      a timestamp is an integer number of milliseconds, an identifier is the
      string that was drawn.
    - A request body is a parsed JSON value; JSON numbers are rationals
      (every finite double is one, and JSON has no NaN).
    - A JavaScript [Map] keeps insertion order, so it is an association list
      whose [set] replaces in place or appends.
    - An [async] handler is embedded at two grains.  At the finer one
      ([Segments], [tick]) it is cut at every [await], to the job store as
      to the cache and the queue; any tick of another request, of a worker
      or of the cache may come between two segments, and a call to the cache
      or the queue may fail, in which case the handler answers 500.  At the
      coarser one ([JobController], [step]) it is cut only at the await of
      [FacilitatorService.verifyPayment] and of
      [X402Service.simulatePaymentConfirmation] (a timer or a network round
      trip), and every call goes through: these are the schedules in which
      the segments of a handler follow each other and nothing fails
      ([coarse_runs_are_runs]).  Dispatch, the order of the states of a
      job, what reaches the queue and what a refused request leaves behind
      are stated at the finer grain; the answers of the handlers and the
      properties of the cache are stated on the coarser steps.
    - [CacheService] and [QueueService] are imported by the controller but
      are not part of the sources at hand; they are modelled from the
      contract that the specification gives them. *)

From Stdlib Require Import String Ascii List ZArith QArith Bool Lia Arith.
Import ListNotations.

Local Close Scope Q_scope.
Local Open Scope list_scope.
Local Open Scope string_scope.

(* ------------------------------------------------------------------ *)
(** ** JSON values and the JavaScript operators the handlers apply to them *)

#[local] Unset Elimination Schemes.
Inductive JValue : Type :=
| JUndefined
| JNull
| JBool (b : bool)
| JNumber (q : Q)
| JString (s : string)
| JObject (fields : list (string * JValue))
| JArray (items : list JValue).
#[local] Set Elimination Schemes.

Inductive JsType : Type :=
| TyUndefined | TyObject | TyBoolean | TyNumber | TyString.

(** [typeof v] *)
Definition typeof (v : JValue) : JsType :=
  match v with
  | JUndefined => TyUndefined
  | JNull => TyObject
  | JBool _ => TyBoolean
  | JNumber _ => TyNumber
  | JString _ => TyString
  | JObject _ => TyObject
  | JArray _ => TyObject
  end.

(** [!!v] *)
Definition truthy (v : JValue) : bool :=
  match v with
  | JUndefined => false
  | JNull => false
  | JBool b => b
  | JNumber q => negb (Qeq_bool q 0%Q)
  | JString s => negb (String.eqb s "")
  | JObject _ => true
  | JArray _ => true
  end.

(** [o.k] on a record of own properties: the first binding of [k], or
    [undefined]. *)
Fixpoint prop (fields : list (string * JValue)) (k : string) : JValue :=
  match fields with
  | [] => JUndefined
  | (k', v) :: rest => if String.eqb k' k then v else prop rest k
  end.

(** [typeof v === 'string'] *)
Definition is_string (v : JValue) : bool :=
  match typeof v with TyString => true | _ => false end.

(** [a >= b] on two numbers. *)
Definition num_ge (a b : Q) : bool := Qle_bool b a.

(* ------------------------------------------------------------------ *)
(** ** types/index.ts *)

Inductive JobType : Type := random | price | webhook.

Inductive JobStatus : Type :=
| pending_payment
| payment_confirmed
| query_in_progress
| completed
| failed.

Definition JobStatus_eqb (a b : JobStatus) : bool :=
  match a, b with
  | pending_payment, pending_payment => true
  | payment_confirmed, payment_confirmed => true
  | query_in_progress, query_in_progress => true
  | completed, completed => true
  | failed, failed => true
  | _, _ => false
  end.

(** The status as the string the program holds. *)
Definition status_name (s : JobStatus) : string :=
  match s with
  | pending_payment => "pending_payment"
  | payment_confirmed => "payment_confirmed"
  | query_in_progress => "query_in_progress"
  | completed => "completed"
  | failed => "failed"
  end.

Definition JobType_eqb (a b : JobType) : bool :=
  match a, b with
  | random, random => true
  | price, price => true
  | webhook, webhook => true
  | _, _ => false
  end.

Definition Date := Z.
Bind Scope Z_scope with Date.

Record OracleJob : Type := mkJob {
  id : string;
  type : JobType;
  parameters : list (string * JValue);
  status : JobStatus;
  result : option JValue;
  createdAt : Date;
  updatedAt : Date
}.

Record PaymentRequest : Type := mkPaymentRequest {
  paymentUrl : string;
  pr_amount : Q;
  pr_currency : string
}.

Record FacilitatorInfo : Type := mkFacilitatorInfo {
  fi_url : string;
  fi_name : string
}.

Record PaymentInstructions : Type := mkPaymentInstructions {
  pi_amount : string;
  pi_currency : string;
  methods : list string;
  facilitator : option FacilitatorInfo
}.

(** [Partial<OracleJob>]: each field present or not. *)
Record PartialJob : Type := mkPartial {
  p_id : option string;
  p_type : option JobType;
  p_parameters : option (list (string * JValue));
  p_status : option JobStatus;
  p_result : option JValue;
  p_createdAt : option Date;
  p_updatedAt : option Date
}.

Definition no_update : PartialJob :=
  mkPartial None None None None None None None.

(** The object literal [{ status: s }]. *)
Definition only_status (s : JobStatus) : PartialJob :=
  mkPartial None None None (Some s) None None None.

(** The object literal [{ status: s, result: r }]. *)
Definition status_and_result (s : JobStatus) (r : JValue) : PartialJob :=
  mkPartial None None None (Some s) (Some r) None None.

Definition or_else {A : Type} (o : option A) (d : A) : A :=
  match o with Some a => a | None => d end.

(** [{ ...job, ...partialUpdate, updatedAt: now }] *)
Definition spread (job : OracleJob) (u : PartialJob) (now : Date) : OracleJob :=
  {| id := or_else (p_id u) (id job);
     type := or_else (p_type u) (type job);
     parameters := or_else (p_parameters u) (parameters job);
     status := or_else (p_status u) (status job);
     result := match p_result u with Some r => Some r | None => result job end;
     createdAt := or_else (p_createdAt u) (createdAt job);
     updatedAt := now |}.

(* ------------------------------------------------------------------ *)
(** ** A JavaScript [Map<string, V>] *)

Module JsMap.
Section Ops.
Context {V : Type}.

Definition t := list (string * V).

Definition empty : t := [].

Fixpoint get (m : t) (k : string) : option V :=
  match m with
  | [] => None
  | (k', v) :: rest => if String.eqb k' k then Some v else get rest k
  end.

(** [set] keeps the position of a key that is present and appends a new
    one. *)
Fixpoint set (m : t) (k : string) (v : V) : t :=
  match m with
  | [] => [(k, v)]
  | (k', v') :: rest =>
      if String.eqb k' k then (k, v) :: rest else (k', v') :: set rest k v
  end.

(** [delete] leaves no binding of the key. *)
Fixpoint delete (m : t) (k : string) : t :=
  match m with
  | [] => []
  | (k', v') :: rest =>
      if String.eqb k' k then delete rest k else (k', v') :: delete rest k
  end.

Definition values (m : t) : list V := map snd m.

Definition keys (m : t) : list string := map fst m.
End Ops.
Arguments t : clear implicits.
End JsMap.

(* ------------------------------------------------------------------ *)
(** ** services/JobService.ts *)

Module JobService.

(** The private field [jobs]. *)
Definition Store := JsMap.t OracleJob.

Definition createJob (jobs : Store) (ty : JobType)
    (params : list (string * JValue)) (nanoid : string) (now : Date)
  : Store * OracleJob :=
  let job := {| id := nanoid;
                type := ty;
                parameters := params;
                status := pending_payment;
                result := None;
                createdAt := now;
                updatedAt := now |} in
  (JsMap.set jobs (id job) job, job).

Definition getJob (jobs : Store) (i : string) : option OracleJob :=
  JsMap.get jobs i.

Definition updateJob (jobs : Store) (i : string) (partialUpdate : PartialJob)
    (now : Date) : Store * option OracleJob :=
  match JsMap.get jobs i with
  | None => (jobs, None)
  | Some job =>
      let updated := spread job partialUpdate now in
      (JsMap.set jobs i updated, Some updated)
  end.

Definition getAllJobs (jobs : Store) : list OracleJob :=
  JsMap.values jobs.

End JobService.

(* ------------------------------------------------------------------ *)
(** ** utils/errors.ts *)

Inductive ErrorName : Type := ValidationError | NotFoundError | BadRequestError.

Record AppError : Type := mkAppError {
  name : ErrorName;
  message : string;
  statusCode : Z
}.

Definition newValidationError (msg : string) : AppError :=
  mkAppError ValidationError msg 400.

Definition newNotFoundError (resource : string) : AppError :=
  mkAppError NotFoundError (resource ++ " not found") 404.

Definition newBadRequestError (msg : string) : AppError :=
  mkAppError BadRequestError msg 400.

(* ------------------------------------------------------------------ *)
(** ** utils/env.ts and the process environment *)

Inductive Mode : Type := demo | live.

Record Env : Type := mkEnv {
  ORAXEL_MODE : option string;
  FACILITATOR_URL : option string;
  FACILITATOR_NAME : option string
}.

(** A string from [process.env] is truthy when set and not empty. *)
Definition str_truthy (o : option string) : bool :=
  match o with
  | Some s => negb (String.eqb s "")
  | None => false
  end.

(** [v || d] on such a string. *)
Definition or_default (o : option string) (d : string) : string :=
  if str_truthy o then or_else o d else d.

(** [validateEnv().ORAXEL_MODE]: [process.env.ORAXEL_MODE || 'demo'], and
    anything but ['demo'] and ['live'] falls back to ['demo']. *)
Definition env_mode (e : Env) : Mode :=
  match ORAXEL_MODE e with
  | Some s => if String.eqb s "live" then live else demo
  | None => demo
  end.

(* ------------------------------------------------------------------ *)
(** ** utils/validation.ts *)

Definition parse_type (v : JValue) : option JobType :=
  match v with
  | JString s =>
      if String.eqb s "random" then Some random
      else if String.eqb s "price" then Some price
      else if String.eqb s "webhook" then Some webhook
      else None
  | _ => None
  end.

(** [createJobSchema.parse]: an object whose [type] is one of the three
    names and whose [parameters] is an object, kept as it is. *)
Definition validateCreateJob (data : JValue)
  : AppError + (JobType * list (string * JValue)) :=
  match data with
  | JObject body =>
      match parse_type (prop body "type"), prop body "parameters" with
      | Some ty, JObject params => inr (ty, params)
      | _, _ => inl (newValidationError "Invalid request data")
      end
  | _ => inl (newValidationError "Invalid request data")
  end.

(** [jobIdSchema.parse]: a string of length at least 1. *)
Definition validateJobId (i : string) : AppError + string :=
  if String.eqb i "" then inl (newValidationError "Invalid job ID")
  else inr i.

(* ------------------------------------------------------------------ *)
(** ** services/X402Service.ts *)

Module X402Service.

Definition amount : Q := (3 # 1000)%Q.

Definition createPaymentRequest (e : Env) (job : OracleJob) : PaymentRequest :=
  if String.eqb (or_default (ORAXEL_MODE e) "demo") "demo"
  then mkPaymentRequest
         ("https://x402-demo.payment.example.com/pay/" ++ id job) amount "SOL"
  else mkPaymentRequest
         ("https://x402.payment.example.com/pay/" ++ id job) amount "SOL".

(** Resolves to [true] in both modes, after a timer in demo mode. *)
Definition simulatePaymentConfirmation (e : Env) (jobId : string) : bool :=
  true.

End X402Service.

(* ------------------------------------------------------------------ *)
(** ** services/FacilitatorService.ts *)

Module FacilitatorService.

Record PaymentVerificationResult : Type := mkVerification {
  verified : bool;
  transactionId : option string;
  error : option string
}.

(** What the call [fetch(`${facilitatorUrl}/verify`, ...)] comes back with. *)
Inductive FacilitatorReply : Type :=
| NotOk (httpStatus : string) (errorMessage : option string)
| Ok (resultVerified : JValue) (resultTransactionId : option string)
| Throws (errorMessage : option string).

Definition js_strict_true (v : JValue) : bool :=
  match v with JBool true => true | _ => false end.

Definition verifyPayment (e : Env) (paymentHeader jobId : string)
    (reply : FacilitatorReply) : PaymentVerificationResult :=
  match env_mode e, str_truthy (FACILITATOR_URL e) with
  | demo, _ | _, false =>
      mkVerification true (Some ("demo-tx-" ++ jobId)) None
  | live, true =>
      match reply with
      | NotOk st msg =>
          mkVerification false None
            (Some (or_default msg ("Facilitator returned " ++ st)))
      | Ok v tx => mkVerification (js_strict_true v) tx None
      | Throws msg =>
          mkVerification false None
            (Some (or_else msg "Facilitator API error"))
      end
  end.

(** [getPaymentInstructions()], called with its default arguments. *)
Definition getPaymentInstructions (e : Env) : PaymentInstructions :=
  mkPaymentInstructions "0.003" "SOL" ["solana"]
    (if str_truthy (FACILITATOR_URL e)
     then Some (mkFacilitatorInfo (or_else (FACILITATOR_URL e) "")
                  (or_default (FACILITATOR_NAME e) "x402 Facilitator"))
     else None).

End FacilitatorService.

(* ------------------------------------------------------------------ *)
(** ** The state the handlers share *)

(** A history that the program does not keep, recorded to state properties
    over time: every write of the job [Map] with the status written, and
    every job handed to the queue.  The newest event comes first. *)
Inductive Event : Type :=
| Stored (jobId : string) (s : JobStatus)
| Submitted (job : OracleJob).

Record World : Type := mkWorld {
  jobs : JobService.Store;
  cache : JsMap.t OracleJob;
  queue : list OracleJob;
  log : list Event
}.

Definition init : World := mkWorld JsMap.empty JsMap.empty [] [].

(** Handlers thread the world through their calls. *)
Definition M (A : Type) : Type := World -> A * World.

Definition ret {A : Type} (a : A) : M A := fun w => (a, w).

Definition bind {A B : Type} (c : M A) (k : A -> M B) : M B :=
  fun w => let (a, w') := c w in k a w'.

Declare Scope handler_scope.
Delimit Scope handler_scope with handler.
Notation "x <- c ;; k" := (bind c (fun x => k))
  (at level 61, c at next level, right associativity) : handler_scope.
Notation "c ;;; k" := (bind c (fun _ => k))
  (at level 61, right associativity) : handler_scope.

(** The calls of [this.jobService]. *)
Module Jobs.

Definition createJob (ty : JobType) (params : list (string * JValue))
    (nanoid : string) (now : Date) : M OracleJob :=
  fun w =>
    let (js, job) := JobService.createJob (jobs w) ty params nanoid now in
    (job, mkWorld js (cache w) (queue w)
            (Stored (id job) (status job) :: log w)).

Definition getJob (i : string) : M (option OracleJob) :=
  fun w => (JobService.getJob (jobs w) i, w).

Definition updateJob (i : string) (u : PartialJob) (now : Date)
  : M (option OracleJob) :=
  fun w =>
    match JobService.updateJob (jobs w) i u now with
    | (js, Some updated) =>
        (Some updated,
         mkWorld js (cache w) (queue w) (Stored i (status updated) :: log w))
    | (js, None) => (None, mkWorld js (cache w) (queue w) (log w))
    end.

Definition getAllJobs : M (list OracleJob) :=
  fun w => (JobService.getAllJobs (jobs w), w).

End Jobs.

(** The key [`job:${id}`] under which the controller caches a job. *)
Definition cacheKey (i : string) : string := "job:" ++ i.

(** Modelled from the spec: [services/CacheService.ts] is not among the
    sources.  Section 4.4 gives its contract, [get(id)] returning a snapshot
    or a miss, [set(id, snapshot, ttl)] and [invalidate(id)]; the controller
    calls them [get], [set] and [del].  The expiry of an entry after its
    time-to-live is the separate step [expire], which may drop any entry. *)
Module CacheService.

Definition get (key : string) : M (option OracleJob) :=
  fun w => (JsMap.get (cache w) key, w).

Definition set (key : string) (value : OracleJob) (ttl : Z) : M unit :=
  fun w => (tt, mkWorld (jobs w) (JsMap.set (cache w) key value)
                  (queue w) (log w)).

Definition del (key : string) : M unit :=
  fun w => (tt, mkWorld (jobs w) (JsMap.delete (cache w) key)
                  (queue w) (log w)).

Definition expire (key : string) : M unit := del key.

End CacheService.

(** Modelled from the spec: [services/QueueService.ts] is not among the
    sources.  [addJob] hands the job to out-of-line execution (section 4.3,
    [submit]) and returns at once; the job waits in the queue. *)
Module QueueService.

Definition addJob (job : OracleJob) : M unit :=
  fun w => (tt, mkWorld (jobs w) (cache w) (queue w ++ [job])%list
                  (Submitted job :: log w)).

End QueueService.

(* ------------------------------------------------------------------ *)
(** ** controllers/JobController.ts *)

(** What a handler answers: [res.status(n).json(...)], or [next(error)]. *)
Inductive Response : Type :=
| Created (jobId : string) (st : JobStatus) (paymentRequest : PaymentRequest)
| OkJob (job : option OracleJob)
| PaymentRequired (err : option string) (payment : PaymentInstructions)
    (jobId : string) (msg : option string)
| OkList (listed : option (list OracleJob)) (limit offset : Z)
    (total : option Z) (hasMore : bool)
| Failed (e : AppError).

(** A handler waiting for a payment service to answer, with the variables
    its continuation reads. *)
Inductive Suspended : Type :=
| AwaitVerify (i : string) (job : OracleJob) (paymentHeader : string)
| AwaitConfirm (i : string) (job : OracleJob).

(** The query string of a list request, after [parseInt(_, 10)] ([None] is
    [NaN]). *)
Record ListQuery : Type := mkListQuery {
  q_limit : option Z;
  q_offset : option Z;
  q_status : option string;
  q_type : option string
}.

Module JobController.
Section WithEnv.
Variable e : Env.

Local Open Scope handler_scope.

(** The type-specific checks of [createJob]. *)
Definition checkParameters (ty : JobType) (params : list (string * JValue))
  : option AppError :=
  match ty with
  | random =>
      match prop params "min", prop params "max" with
      | JNumber min, JNumber max =>
          if num_ge min max
          then Some (newBadRequestError
                 "Random job requires valid min and max numbers where min < max")
          else None
      | _, _ =>
          Some (newBadRequestError
                 "Random job requires valid min and max numbers where min < max")
      end
  | price =>
      let pair := prop params "pair" in
      if negb (truthy pair) || negb (is_string pair)
      then Some (newBadRequestError
                   "Price job requires a pair parameter (string)")
      else None
  | webhook =>
      let url := prop params "url" in
      if negb (truthy url) || negb (is_string url)
      then Some (newBadRequestError
                   "Webhook job requires a url parameter (string)")
      else None
  end.

Definition createJob (body : JValue) (nanoid : string) (now : Date)
  : M Response :=
  match validateCreateJob body with
  | inl err => ret (Failed err)
  | inr (ty, params) =>
      match checkParameters ty params with
      | Some err => ret (Failed err)
      | None =>
          job <- Jobs.createJob ty params nanoid now ;;
          let paymentRequest := X402Service.createPaymentRequest e job in
          ret (Created (id job) (status job) paymentRequest)
      end
  end.

(** The part that both payment paths share once the payment stands:
    two updates, the submission of the job read at the start, the
    invalidation of the cache entry, and the answer.  This is the path on
    which the calls to the queue and the cache go through and no other
    handler runs in between; [Segments.advance] has the same calls one
    await at a time, each of them able to fail. *)
Definition confirmAndQueue (i : string) (job : OracleJob)
    (now1 now2 : Date) : M Response :=
  Jobs.updateJob i (only_status payment_confirmed) now1 ;;;
  Jobs.updateJob i (only_status query_in_progress) now2 ;;;
  QueueService.addJob job ;;;
  CacheService.del (cacheKey i) ;;;
  updatedJob <- Jobs.getJob i ;;
  ret (OkJob updatedJob).

(** [confirmPayment] up to [await simulatePaymentConfirmation(id)]. *)
Definition confirmPayment_begin (reqId : string) : M (Response + Suspended) :=
  match validateJobId reqId with
  | inl err => ret (inl (Failed err))
  | inr i =>
      job <- Jobs.getJob i ;;
      match job with
      | None => ret (inl (Failed (newNotFoundError "Job")))
      | Some job =>
          if negb (JobStatus_eqb (status job) pending_payment)
          then ret (inl (Failed (newBadRequestError
                 ("Job is not in pending_payment status. Current status: "
                  ++ status_name (status job)))))
          else ret (inr (AwaitConfirm i job))
      end
  end.

(** [confirmPayment] from there on; the result of the simulation is not
    read. *)
Definition confirmPayment_resume (i : string) (job : OracleJob)
    (now1 now2 : Date) : M Response :=
  let _ := X402Service.simulatePaymentConfirmation e i in
  confirmAndQueue i job now1 now2.

(** [getJob] up to [await verifyPayment(...)], or to its answer when it
    does not verify a payment. *)
Definition getJob_begin (reqId : string) (paymentHeader : option string)
  : M (Response + Suspended) :=
  match validateJobId reqId with
  | inl err => ret (inl (Failed err))
  | inr i =>
      job <- Jobs.getJob i ;;
      match job with
      | None => ret (inl (Failed (newNotFoundError "Job")))
      | Some job =>
          if JobStatus_eqb (status job) pending_payment
             && negb (str_truthy paymentHeader)
          then
            let paymentInstructions :=
              FacilitatorService.getPaymentInstructions e in
            ret (inl (PaymentRequired None paymentInstructions i
                        (Some "Payment required to access this resource")))
          else if str_truthy paymentHeader
                  && JobStatus_eqb (status job) pending_payment
          then ret (inr (AwaitVerify i job (or_else paymentHeader "")))
          else
            cached <- CacheService.get (cacheKey i) ;;
            match cached with
            | Some c => ret (inl (OkJob (Some c)))
            | None =>
                currentJob <- Jobs.getJob i ;;
                match currentJob with
                | None => ret (inl (Failed (newNotFoundError "Job")))
                | Some currentJob =>
                    CacheService.set (cacheKey i) currentJob 60 ;;;
                    ret (inl (OkJob (Some currentJob)))
                end
            end
      end
  end.

(** [getJob] from the answer of the facilitator on. *)
Definition getJob_resume (i : string) (job : OracleJob)
    (paymentHeader : string) (reply : FacilitatorService.FacilitatorReply)
    (now1 now2 : Date) : M Response :=
  let verification :=
    FacilitatorService.verifyPayment e paymentHeader i reply in
  if negb (FacilitatorService.verified verification)
  then
    let paymentInstructions :=
      FacilitatorService.getPaymentInstructions e in
    ret (PaymentRequired
           (Some (or_default (FacilitatorService.error verification)
                    "Payment verification failed"))
           paymentInstructions i None)
  else confirmAndQueue i job now1 now2.

(** The continuation of a suspended handler. *)
Definition resume (s : Suspended)
    (reply : FacilitatorService.FacilitatorReply) (now1 now2 : Date)
  : M Response :=
  match s with
  | AwaitVerify i job h => getJob_resume i job h reply now1 now2
  | AwaitConfirm i job => confirmPayment_resume i job now1 now2
  end.

(** A handler that runs from its first line to its answer with no other
    request in between.  [confirmPayment] takes a reply only to hand it to
    [resume], which does not read it on that path. *)
Definition run_to_answer (h : M (Response + Suspended))
    (reply : FacilitatorService.FacilitatorReply) (now1 now2 : Date)
  : M Response :=
  r <- h ;;
  match r with
  | inl resp => ret resp
  | inr s => resume s reply now1 now2
  end.

Definition confirmPayment (reqId : string) (now1 now2 : Date) : M Response :=
  run_to_answer (confirmPayment_begin reqId)
    (FacilitatorService.Throws None) now1 now2.

Definition getJob (reqId : string) (paymentHeader : option string)
    (reply : FacilitatorService.FacilitatorReply) (now1 now2 : Date)
  : M Response :=
  run_to_answer (getJob_begin reqId paymentHeader) reply now1 now2.

(** [parseInt(...) || d] *)
Definition int_or (n : option Z) (d : Z) : Z :=
  match n with
  | Some v => if Z.eqb v 0 then d else v
  | None => d
  end.

(** [result.jobs] and [result.total], where [result] is what
    [JobService.getAllJobs] returns: an array, which has neither
    property, so both reads give [undefined] ([None]). *)
Definition result_jobs (result : list OracleJob)
  : option (list OracleJob) := None.

Definition result_total (result : list OracleJob) : option Z := None.

(** [n < t], which is false when [t] is [undefined]. *)
Definition js_lt (n : Z) (t : option Z) : bool :=
  match t with
  | Some v => Z.ltb n v
  | None => false
  end.

(** [filters], with [status] and [type] set when the query has them. *)
Definition filters_of (q : ListQuery) : option string * option string :=
  ((if str_truthy (q_status q) then q_status q else None),
   (if str_truthy (q_type q) then q_type q else None)).

(** A call with more arguments than the method has parameters: JavaScript
    drops the surplus. *)
Definition call_with_surplus {A B : Type} (method : M A) (args : B) : M A :=
  method.

(** [getAllJobs] takes no parameter; [limit], [offset] and [filters] are
    passed to it all the same. *)
Definition listJobs (q : ListQuery) : M Response :=
  let limit := int_or (q_limit q) 50 in
  let offset := int_or (q_offset q) 0 in
  let filters := filters_of q in
  result <- call_with_surplus Jobs.getAllJobs (limit, offset, filters) ;;
  ret (OkList (result_jobs result) limit offset (result_total result)
         (js_lt (offset + limit) (result_total result))).

End WithEnv.
End JobController.

(** The errors that [checkParameters] raises, by name. *)
Definition random_error : AppError :=
  newBadRequestError
    "Random job requires valid min and max numbers where min < max".

Definition webhook_error : AppError :=
  newBadRequestError "Webhook job requires a url parameter (string)".

(* ------------------------------------------------------------------ *)
(** ** Out-of-line execution *)

Inductive Outcome : Type :=
| Succeeded (r : JValue)
| Crashed (reason : string).

Fixpoint remove_nth {A : Type} (k : nat) (l : list A) : list A :=
  match l, k with
  | [], _ => []
  | _ :: rest, O => rest
  | a :: rest, S k' => a :: remove_nth k' rest
  end.

(** Modelled from the spec: the worker of [services/QueueService.ts] is not
    among the sources.  Section 4.3: each submission is a single attempt, in
    no fixed order; on success the job is written [completed] with its
    result, on failure [failed] with the reason, and the cache entry of the
    job is invalidated with the write.  The write itself is the
    [updateJob(id, { status, result })] of the controller that still ran
    the oracle inline. *)
Module Worker.

Local Open Scope handler_scope.

(** [{ status: 'completed', result }] or
    [{ status: 'failed', result: { error } }] *)
Definition outcome_update (o : Outcome) : PartialJob :=
  match o with
  | Succeeded r => status_and_result completed r
  | Crashed reason =>
      status_and_result failed (JObject [("error", JString reason)])
  end.

(** The worker takes entry [k] of the queue and writes its outcome. *)
Definition finish (k : nat) (o : Outcome) (now : Date) : M unit :=
  fun w =>
    match nth_error (queue w) k with
    | None => (tt, w)
    | Some job =>
        (Jobs.updateJob (id job) (outcome_update o) now ;;;
         CacheService.del (cacheKey (id job)))
          (mkWorld (jobs w) (cache w) (remove_nth k (queue w)) (log w))
    end.

End Worker.

(* ------------------------------------------------------------------ *)
(** ** Requests in flight *)

(** One step of the server at the coarser grain: the first part of a handler
    for request number [r], the continuation of a suspended request run to
    its answer without a break, a worker finishing a queued job, or a cache
    entry expiring.  The finer grain, where a handler yields at every
    [await], is [tick] below. *)
Inductive Step : Type :=
| ReqCreate (r : nat) (body : JValue) (nanoid : string) (now : Date)
| ReqFetch (r : nat) (reqId : string) (paymentHeader : option string)
| ReqConfirm (r : nat) (reqId : string)
| ReqList (r : nat) (q : ListQuery)
| Resume (r : nat) (reply : FacilitatorService.FacilitatorReply)
    (now1 now2 : Date)
| WorkerFinish (k : nat) (o : Outcome) (now : Date)
| CacheExpire (key : string).

Record System : Type := mkSystem {
  world : World;
  waiting : list (nat * Suspended);
  answers : list (nat * Response)
}.

Definition start : System := mkSystem init [] [].

Fixpoint take_waiting (r : nat) (l : list (nat * Suspended))
  : option (Suspended * list (nat * Suspended)) :=
  match l with
  | [] => None
  | (r', s) :: rest =>
      if Nat.eqb r' r then Some (s, rest)
      else match take_waiting r rest with
           | Some (s', rest') => Some (s', (r', s) :: rest')
           | None => None
           end
  end.

Definition settle (r : nat) (sys : System)
    (out : (Response + Suspended) * World) : System :=
  match out with
  | (inl resp, w) => mkSystem w (waiting sys) ((r, resp) :: answers sys)
  | (inr s, w) => mkSystem w ((r, s) :: waiting sys) (answers sys)
  end.

Definition answer (r : nat) (sys : System) (out : Response * World) : System :=
  mkSystem (snd out) (waiting sys) ((r, fst out) :: answers sys).

Definition step (e : Env) (sys : System) (st : Step) : System :=
  match st with
  | ReqCreate r body nanoid now =>
      answer r sys (JobController.createJob e body nanoid now (world sys))
  | ReqFetch r reqId h =>
      settle r sys (JobController.getJob_begin e reqId h (world sys))
  | ReqConfirm r reqId =>
      settle r sys (JobController.confirmPayment_begin reqId (world sys))
  | ReqList r q =>
      answer r sys (JobController.listJobs q (world sys))
  | Resume r reply now1 now2 =>
      match take_waiting r (waiting sys) with
      | None => sys
      | Some (s, rest) =>
          answer r (mkSystem (world sys) rest (answers sys))
            (JobController.resume e s reply now1 now2 (world sys))
      end
  | WorkerFinish k o now =>
      mkSystem (snd (Worker.finish k o now (world sys)))
        (waiting sys) (answers sys)
  | CacheExpire key =>
      mkSystem (snd (CacheService.expire key (world sys)))
        (waiting sys) (answers sys)
  end.

Definition run (e : Env) (steps : list Step) (sys : System) : System :=
  fold_left (step e) steps sys.

(** Requests handled one after the other: every handler reaches its answer
    before the next step starts. *)
Inductive Op : Type :=
| Create (body : JValue) (nanoid : string) (now : Date)
| Fetch (reqId : string) (paymentHeader : option string)
    (reply : FacilitatorService.FacilitatorReply) (now1 now2 : Date)
| Confirm (reqId : string) (now1 now2 : Date)
| ListJobs (q : ListQuery)
| Finish (k : nat) (o : Outcome) (now : Date)
| Expire (key : string).

Definition exec (e : Env) (w : World) (o : Op) : World :=
  match o with
  | Create body nanoid now => snd (JobController.createJob e body nanoid now w)
  | Fetch reqId h reply now1 now2 =>
      snd (JobController.getJob e reqId h reply now1 now2 w)
  | Confirm reqId now1 now2 =>
      snd (JobController.confirmPayment e reqId now1 now2 w)
  | ListJobs q => snd (JobController.listJobs q w)
  | Finish k o now => snd (Worker.finish k o now w)
  | Expire key => snd (CacheService.expire key w)
  end.

Definition exec_all (e : Env) (ops : list Op) (w : World) : World :=
  fold_left (exec e) ops w.

(** The same requests as steps of the scheduler, numbered in order. *)
Fixpoint serial (n : nat) (ops : list Op) : list Step :=
  match ops with
  | [] => []
  | o :: rest =>
      (match o with
       | Create body nanoid now => [ReqCreate n body nanoid now]
       | Fetch reqId h reply now1 now2 =>
           [ReqFetch n reqId h; Resume n reply now1 now2]
       | Confirm reqId now1 now2 =>
           [ReqConfirm n reqId;
            Resume n (FacilitatorService.Throws None) now1 now2]
       | ListJobs q => [ReqList n q]
       | Finish k o now => [WorkerFinish k o now]
       | Expire key => [CacheExpire key]
       end ++ serial (S n) rest)%list
  end.

(** [nanoid()] never draws an identifier that is in use: along the run,
    each [Create] comes with an identifier that is not stored. *)
Fixpoint fresh_draws (e : Env) (ops : list Op) (w : World) : bool :=
  match ops with
  | [] => true
  | o :: rest =>
      match o with
      | Create _ nanoid _ =>
          match JsMap.get (jobs w) nanoid with
          | None => true
          | Some _ => false
          end
      | _ => true
      end && fresh_draws e rest (exec e w o)
  end.

(* ------------------------------------------------------------------ *)
(** ** What the history shows about one job *)

(** The statuses written for job [i], newest first. *)
Fixpoint trail (i : string) (l : list Event) : list JobStatus :=
  match l with
  | [] => []
  | Stored k s :: rest =>
      if String.eqb k i then s :: trail i rest else trail i rest
  | Submitted _ :: rest => trail i rest
  end.

(** The states job [i] has visited, in order. *)
Definition visited (i : string) (w : World) : list JobStatus :=
  rev (trail i (log w)).

(** How many times job [i] was handed to the queue. *)
Fixpoint dispatches (i : string) (l : list Event) : nat :=
  match l with
  | [] => 0
  | Submitted job :: rest =>
      if String.eqb (id job) i then S (dispatches i rest)
      else dispatches i rest
  | Stored _ _ :: rest => dispatches i rest
  end.

(** How many times job [i] was written [query_in_progress]. *)
Definition entered (i : string) (l : list Event) : nat :=
  length (filter (fun s => JobStatus_eqb s query_in_progress) (trail i l)).

(** How many entries of the queue are for job [i]. *)
Definition queued (i : string) (q : list OracleJob) : nat :=
  length (filter (fun job => String.eqb (id job) i) q).

(** A prefix of [pending_payment, payment_confirmed, query_in_progress],
    followed by [completed] or [failed] when complete. *)
Definition chain_prefix (l : list JobStatus) : bool :=
  match l with
  | [] => true
  | [pending_payment] => true
  | [pending_payment; payment_confirmed] => true
  | [pending_payment; payment_confirmed; query_in_progress] => true
  | [pending_payment; payment_confirmed; query_in_progress; completed] => true
  | [pending_payment; payment_confirmed; query_in_progress; failed] => true
  | _ => false
  end.

(** Every job in the history of submissions carries the status
    [pending_payment], and was handed over right after job [id] of the store
    was written [query_in_progress]. *)
Fixpoint handed_over_stale (l : list Event) : bool :=
  match l with
  | [] => true
  | Submitted job :: rest =>
      JobStatus_eqb (status job) pending_payment
      && match rest with
         | Stored k s :: _ =>
             String.eqb k (id job) && JobStatus_eqb s query_in_progress
         | _ => false
         end
      && handed_over_stale rest
  | Stored _ _ :: rest => handed_over_stale rest
  end.

(* ------------------------------------------------------------------ *)
(** ** The specification's operations, in its own words

    These definitions follow sections 4.1 and 4.5 of the specification, not
    the program; the program is compared with them below. *)

Module Spec.

Inductive TransitionResult : Type :=
| Applied (job : OracleJob)
| Conflict
| NotFound.

(** [transition(id, expectedState, mutation)]: the mutation is applied
    only if the stored job is in [expectedState].  The program's jobs
    carry no version, so the version test has no counterpart here. *)
Definition transition (jobs : JobService.Store) (i : string)
    (expectedState : JobStatus) (mutation : PartialJob) (now : Date)
  : JobService.Store * TransitionResult :=
  match JsMap.get jobs i with
  | None => (jobs, NotFound)
  | Some job =>
      if JobStatus_eqb (status job) expectedState
      then (JsMap.set jobs i (spread job mutation now),
            Applied (spread job mutation now))
      else (jobs, Conflict)
  end.

Definition matches (kind : option JobType) (state : option JobStatus)
    (job : OracleJob) : bool :=
  match kind with Some k => JobType_eqb (type job) k | None => true end
  && match state with
     | Some s => JobStatus_eqb (status job) s
     | None => true
     end.

(** [list(limit, offset, filter)]: the matching jobs in creation order,
    cut to the page, and the count of all matching jobs. *)
Definition list (jobs : JobService.Store) (limit offset : nat)
    (kind : option JobType) (state : option JobStatus)
  : list OracleJob * nat :=
  let matching := filter (matches kind state) (JsMap.values jobs) in
  (firstn limit (skipn offset matching), length matching).

Definition hasMore (limit offset total : nat) : bool :=
  Nat.ltb (offset + limit) total.

Definition is_alpha (c : ascii) : bool :=
  let n := nat_of_ascii c in
  (Nat.leb 65 n && Nat.leb n 90) || (Nat.leb 97 n && Nat.leb n 122).

Definition is_scheme_char (c : ascii) : bool :=
  let n := nat_of_ascii c in
  is_alpha c || (Nat.leb 48 n && Nat.leb n 57)
  || Nat.eqb n 43 || Nat.eqb n 45 || Nat.eqb n 46.

Fixpoint scheme_rest (s : string) : bool :=
  match s with
  | EmptyString => false
  | String c rest =>
      if Nat.eqb (nat_of_ascii c) 58 then true
      else is_scheme_char c && scheme_rest rest
  end.

(** What every syntax of absolute URLs asks of a "syntactically valid
    target URL": it starts with a scheme, a letter followed by letters,
    digits, [+], [-] or [.], and then a colon. *)
Definition has_scheme (s : string) : bool :=
  match s with
  | EmptyString => false
  | String c rest => is_alpha c && scheme_rest rest
  end.

End Spec.

(* ------------------------------------------------------------------ *)
(** ** The job store used on its own *)

Inductive SvcCall : Type :=
| CallCreate (ty : JobType) (params : list (string * JValue))
    (nanoid : string) (now : Date)
| CallUpdate (i : string) (u : PartialJob) (now : Date)
| CallGet (i : string)
| CallGetAll.

Definition call (jobs : JobService.Store) (c : SvcCall) : JobService.Store :=
  match c with
  | CallCreate ty params nanoid now =>
      fst (JobService.createJob jobs ty params nanoid now)
  | CallUpdate i u now => fst (JobService.updateJob jobs i u now)
  | CallGet _ => jobs
  | CallGetAll => jobs
  end.

Definition calls (cs : list SvcCall) (jobs : JobService.Store)
  : JobService.Store :=
  fold_left call cs jobs.

(** The identifiers that [createJob] has returned. *)
Fixpoint returned_ids (cs : list SvcCall) : list string :=
  match cs with
  | [] => []
  | CallCreate _ _ nanoid _ :: rest => nanoid :: returned_ids rest
  | _ :: rest => returned_ids rest
  end.

(* ------------------------------------------------------------------ *)
(** ** Concrete requests and runs *)

Module Examples.

Definition env_demo : Env := mkEnv None None None.

Definition env_live : Env :=
  mkEnv (Some "live") (Some "https://facilitator.example.com") None.

Definition create_body (kind : string) (params : list (string * JValue))
  : JValue :=
  JObject [("type", JString kind); ("parameters", JObject params)].

Definition random_1_402 : list (string * JValue) :=
  [("min", JNumber 1); ("max", JNumber 402)].

Definition random_5_5 : list (string * JValue) :=
  [("min", JNumber 5); ("max", JNumber 5)].

Definition webhook_no_scheme : list (string * JValue) :=
  [("url", JString "not a url")].

Definition price_sol : list (string * JValue) :=
  [("pair", JString "SOL/USDC")].

Definition no_reply : FacilitatorService.FacilitatorReply :=
  FacilitatorService.Throws None.

Definition rejected : FacilitatorService.FacilitatorReply :=
  FacilitatorService.NotOk "402" (Some "insufficient amount").

(** A job as [createJob] stores it. *)
Definition job1 : OracleJob :=
  mkJob "j1" random random_1_402 pending_payment None 10 10.

Definition job1_in (s : JobStatus) (at_ : Date) : OracleJob :=
  mkJob "j1" random random_1_402 s None 10 at_.

(** Two fetches with a payment header for the same unpaid job, each
    reading the job before the other has written it. *)
Definition race : list Step :=
  [ReqCreate 0 (create_body "random" random_1_402) "j1" 10;
   ReqFetch 1 "j1" (Some "proof-a");
   ReqFetch 2 "j1" (Some "proof-b");
   Resume 1 no_reply 20 21;
   Resume 2 no_reply 30 31].

(** One fetch with a payment header, on its own. *)
Definition paid_once : list Op :=
  [Create (create_body "random" random_1_402) "j1" 10;
   Fetch "j1" (Some "proof-a") no_reply 20 21].

(** The job is paid, fetched (and so cached), then completed. *)
Definition paid_read_done : list Op :=
  [Create (create_body "random" random_1_402) "j1" 10;
   Confirm "j1" 20 21;
   Fetch "j1" None no_reply 0 0;
   Finish 0 (Succeeded (JObject [("value", JNumber 7)])) 40;
   Fetch "j1" None no_reply 0 0].

Definition three_jobs : list Op :=
  [Create (create_body "random" random_1_402) "j1" 10;
   Create (create_body "price" price_sol) "j2" 11;
   Create (create_body "random" random_1_402) "j3" 12].

Definition first_page : ListQuery := mkListQuery (Some 1%Z) None None None.

(** The job is paid and then fetched, so that its snapshot in
    [query_in_progress] is in the cache. *)
Definition cached_in_progress : System :=
  run env_demo
    (serial 0 [Create (create_body "random" random_1_402) "j1" 10;
               Confirm "j1" 20 21;
               Fetch "j1" None no_reply 0 0])
    start.

Definition seven : JValue := JObject [("value", JNumber 7)].

End Examples.

(* ------------------------------------------------------------------ *)
(** ** Invariants *)

(** The stored job after the two updates of [confirmAndQueue]. *)
Definition paid_job (stored : OracleJob) (now1 now2 : Date) : OracleJob :=
  spread (spread stored (only_status payment_confirmed) now1)
    (only_status query_in_progress) now2.

(** Between two requests that do not overlap, job [i] is in one of four
    situations: unknown; unpaid; paid, queued once and in progress; or
    finished and no longer queued.  In each, the history of the job is the
    chain up to its state and it was dispatched at most once. *)
Definition settled (i : string) (w : World) : Prop :=
  match JobService.getJob (jobs w) i with
  | None =>
      trail i (log w) = [] /\ queued i (queue w) = 0%nat
      /\ dispatches i (log w) = 0%nat
  | Some job =>
      id job = i
      /\ match status job with
         | pending_payment =>
             trail i (log w) = [pending_payment]
             /\ queued i (queue w) = 0%nat /\ dispatches i (log w) = 0%nat
         | payment_confirmed => False
         | query_in_progress =>
             trail i (log w) =
             [query_in_progress; payment_confirmed; pending_payment]
             /\ queued i (queue w) = 1%nat /\ dispatches i (log w) = 1%nat
         | completed =>
             trail i (log w) =
             [completed; query_in_progress; payment_confirmed;
              pending_payment]
             /\ queued i (queue w) = 0%nat /\ dispatches i (log w) = 1%nat
         | failed =>
             trail i (log w) =
             [failed; query_in_progress; payment_confirmed; pending_payment]
             /\ queued i (queue w) = 0%nat /\ dispatches i (log w) = 1%nat
         end
  end.

Definition Settled (w : World) : Prop := forall i, settled i w.

(** What a request handled on its own, a worker or an expiry does to the
    store, the queue and the history. *)
Inductive Move (w w' : World) : Prop :=
| MoveCache :
    jobs w' = jobs w -> queue w' = queue w -> log w' = log w -> Move w w'
| MoveCreate (job : OracleJob) :
    JobService.getJob (jobs w) (id job) = None ->
    status job = pending_payment ->
    jobs w' = JsMap.set (jobs w) (id job) job ->
    queue w' = queue w ->
    log w' = Stored (id job) pending_payment :: log w ->
    Move w w'
| MovePay (i : string) (job paid : OracleJob) :
    JobService.getJob (jobs w) i = Some job ->
    status job = pending_payment ->
    id paid = id job ->
    status paid = query_in_progress ->
    jobs w' = JsMap.set (jobs w) i paid ->
    queue w' = (queue w ++ [job])%list ->
    log w' = Submitted job :: Stored i query_in_progress
               :: Stored i payment_confirmed :: log w ->
    Move w w'
| MoveFinish (k : nat) (job stored done : OracleJob) :
    nth_error (queue w) k = Some job ->
    JobService.getJob (jobs w) (id job) = Some stored ->
    id done = id stored ->
    status done = completed \/ status done = failed ->
    jobs w' = JsMap.set (jobs w) (id job) done ->
    queue w' = remove_nth k (queue w) ->
    log w' = Stored (id job) (status done) :: log w ->
    Move w w'.

Definition pending_at (jobs : JobService.Store) (s : Suspended) : Prop :=
  match s with
  | AwaitVerify i job _ | AwaitConfirm i job =>
      status job = pending_payment /\ id job = i
      /\ JobService.getJob jobs i <> None
  end.

(** What holds of the server under every interleaving of the coarser steps:
    a stored job carries its key as identifier; a suspended handler holds
    the unpaid job it read, which is still stored; the queue holds such jobs
    only; and so does the history of submissions, each right after the write
    of [query_in_progress]. *)
Definition Coherent (sys : System) : Prop :=
  (forall i job, JobService.getJob (jobs (world sys)) i = Some job ->
                 id job = i)
  /\ (forall r s, In (r, s) (waiting sys) -> pending_at (jobs (world sys)) s)
  /\ Forall (fun job => status job = pending_payment) (queue (world sys))
  /\ handed_over_stale (log (world sys)) = true.

(* ------------------------------------------------------------------ *)
(** ** The status line of an answer *)

(** [res.status(n)] as each handler sets it; an error passed to [next]
    is answered by the error handler with its own [statusCode]. *)
Definition http_status (r : Response) : Z :=
  match r with
  | Created _ _ _ => 201
  | OkJob _ => 200
  | PaymentRequired _ _ _ _ => 402
  | OkList _ _ _ _ _ => 200
  | Failed err => statusCode err
  end.

(* ------------------------------------------------------------------ *)
(** ** utils/env.ts, [validateEnv] *)

Module EnvTs.

(** The variables of [process.env] that [validateEnv] reads. *)
Record ProcessEnv : Type := mkProcessEnv {
  PORT : option string;
  NODE_ENV : option string;
  CORS_ORIGIN : option string;
  ORAXEL_MODE : option string;
  X402_API_KEY : option string;
  X402_MERCHANT_ID : option string;
  FACILITATOR_URL : option string;
  FACILITATOR_API_KEY : option string;
  FACILITATOR_NAME : option string
}.

Record EnvConfig : Type := mkEnvConfig {
  cfg_PORT : Z;
  cfg_NODE_ENV : string;
  cfg_CORS_ORIGIN : string;
  cfg_ORAXEL_MODE : string;
  cfg_X402_API_KEY : option string;
  cfg_X402_MERCHANT_ID : option string;
  cfg_FACILITATOR_URL : option string;
  cfg_FACILITATOR_API_KEY : option string;
  cfg_FACILITATOR_NAME : option string
}.

Section WithParseInt.

(** [parseInt(_, 10)], with [None] for [NaN]. *)
Variable parseInt : string -> option Z.

(** [process.env.PORT ? parseInt(process.env.PORT, 10) : 3001] *)
Definition required_PORT (p : ProcessEnv) : option Z :=
  if str_truthy (PORT p) then parseInt (or_else (PORT p) "") else Some 3001%Z.

(** [isNaN(PORT) || PORT < 1 || PORT > 65535] *)
Definition invalid_port (n : option Z) : bool :=
  match n with
  | None => true
  | Some v => Z.ltb v 1 || Z.ltb 65535 v
  end.

Definition invalid_mode (m : string) : bool :=
  negb (String.eqb m "demo") && negb (String.eqb m "live").

(** The configuration, and the warnings logged on the way. *)
Definition validateEnv (p : ProcessEnv) : EnvConfig * list string :=
  let port := required_PORT p in
  let mode := or_default (ORAXEL_MODE p) "demo" in
  let warn1 := if invalid_port port
               then ["Invalid PORT, using default 3001"] else [] in
  let port := if invalid_port port then 3001%Z else or_else port 3001%Z in
  let warn2 := if invalid_mode mode
               then ["Invalid ORAXEL_MODE, defaulting to demo"] else [] in
  let mode := if invalid_mode mode then "demo" else mode in
  let warn3 :=
    if String.eqb mode "live"
       && (negb (str_truthy (X402_API_KEY p))
           || negb (str_truthy (X402_MERCHANT_ID p)))
    then ["Live mode enabled but X402 credentials not set"] else [] in
  (mkEnvConfig port
     (or_default (NODE_ENV p) "development")
     (or_default (CORS_ORIGIN p) "http://localhost:3000")
     mode
     (X402_API_KEY p) (X402_MERCHANT_ID p) (FACILITATOR_URL p)
     (FACILITATOR_API_KEY p) (FACILITATOR_NAME p),
   (warn1 ++ warn2 ++ warn3)%list).

End WithParseInt.

(** What the services read of the process environment. *)
Definition services_env (p : ProcessEnv) : Env :=
  mkEnv (ORAXEL_MODE p) (FACILITATOR_URL p) (FACILITATOR_NAME p).

End EnvTs.

(* ------------------------------------------------------------------ *)
(** ** utils/x402Client.ts *)

Module X402Client.

(** [response.status === 402] *)
Definition is402Response (status : Z) : bool := Z.eqb status 402.

(** The payment proof of the demo, or the message of the error thrown.
    [stamp] is [Date.now()] as it prints. *)
Definition processPaymentWithFacilitator (nodeEnv : option string)
    (paymentInfo : PaymentInstructions) (jobId stamp : string)
  : string + string :=
  if match nodeEnv with
     | Some v => String.eqb v "development"
     | None => false
     end
     || match facilitator paymentInfo with
        | None => true
        | Some _ => false
        end
  then inr ("demo-payment-proof-" ++ jobId ++ "-" ++ stamp)
  else inl "Facilitator payment processing not yet implemented".

End X402Client.

(* ------------------------------------------------------------------ *)
(** ** services/OracleService.ts *)

Module OracleService.

(** [const { k = d } = job.parameters]: the default stands in for
    [undefined] only. *)
Definition with_default (v d : JValue) : JValue :=
  match v with
  | JUndefined => d
  | _ => v
  end.

(** [v || d] *)
Definition or_value (v d : JValue) : JValue := if truthy v then v else d.

Section WithMode.
Variable mode : Mode.

(** [computed] is the number the demo draws (the random value, or the
    price with its noise), [timestamp] is [new Date().toISOString()]. *)
Variable computed : JValue.
Variable timestamp : string.

Definition executeRandomJob (job : OracleJob) : Outcome :=
  match mode with
  | demo =>
      let min := with_default (prop (parameters job) "min") (JNumber 1) in
      let max := with_default (prop (parameters job) "max") (JNumber 402) in
      Succeeded (JObject [("value", computed); ("min", min); ("max", max);
                          ("timestamp", JString timestamp)])
  | live => Crashed "Live mode not yet implemented for random oracle"
  end.

Definition executePriceJob (job : OracleJob) : Outcome :=
  match mode with
  | demo =>
      let pair :=
        with_default (prop (parameters job) "pair") (JString "SOL/USDC") in
      Succeeded (JObject [("pair", pair); ("price", computed);
                          ("timestamp", JString timestamp);
                          ("source", JString "demo_oracle")])
  | live => Crashed "Live mode not yet implemented for price oracle"
  end.

Definition executeWebhookJob (job : OracleJob) : Outcome :=
  match mode with
  | demo =>
      let url := prop (parameters job) "url" in
      Succeeded
        (JObject [("url", or_value url (JString "https://example.com/webhook"));
                  ("status", JString "queued");
                  ("message", JString "Webhook queued for execution");
                  ("timestamp", JString timestamp);
                  ("jobId", JString (id job))])
  | live => Crashed "Live mode not yet implemented for webhook oracle"
  end.

Definition executeJob (job : OracleJob) : Outcome :=
  match type job with
  | random => executeRandomJob job
  | price => executePriceJob job
  | webhook => executeWebhookJob job
  end.

End WithMode.
End OracleService.

(* ------------------------------------------------------------------ *)
(** ** The controller that runs the oracle inline

    The earlier [JobController], whose [confirmPayment] awaits
    [OracleService.executeJob] and writes the outcome before it answers, and
    whose [getJob] only reads. *)

Module InlineController.
Section WithEnv.
Variable e : Env.

Local Open Scope handler_scope.

Definition confirmPayment (reqId : string) (now1 now2 now3 : Date)
    (computed : JValue) (timestamp : string) : M Response :=
  match validateJobId reqId with
  | inl err => ret (Failed err)
  | inr i =>
      job <- Jobs.getJob i ;;
      match job with
      | None => ret (Failed (newNotFoundError "Job"))
      | Some job =>
          if negb (JobStatus_eqb (status job) pending_payment)
          then ret (Failed (newBadRequestError
                 ("Job is not in pending_payment status. Current status: "
                  ++ status_name (status job))))
          else
            let _ := X402Service.simulatePaymentConfirmation e i in
            Jobs.updateJob i (only_status payment_confirmed) now1 ;;;
            Jobs.updateJob i (only_status query_in_progress) now2 ;;;
            match OracleService.executeJob (env_mode e) computed timestamp
                    job with
            | Succeeded r =>
                Jobs.updateJob i (status_and_result completed r) now3 ;;;
                updatedJob <- Jobs.getJob i ;;
                ret (OkJob updatedJob)
            | Crashed reason =>
                Jobs.updateJob i
                  (status_and_result failed
                     (JObject [("error", JString reason)])) now3 ;;;
                updatedJob <- Jobs.getJob i ;;
                ret (OkJob updatedJob)
            end
      end
  end.

Definition getJob (reqId : string) : M Response :=
  match validateJobId reqId with
  | inl err => ret (Failed err)
  | inr i =>
      job <- Jobs.getJob i ;;
      match job with
      | None => ret (Failed (newNotFoundError "Job"))
      | Some job => ret (OkJob (Some job))
      end
  end.

End WithEnv.
End InlineController.

(** The errors of the handlers, by name. *)
Definition invalid_request : AppError :=
  newValidationError "Invalid request data".

Definition invalid_job_id : AppError := newValidationError "Invalid job ID".

Definition job_not_found : AppError := newNotFoundError "Job".

Definition price_error : AppError :=
  newBadRequestError "Price job requires a pair parameter (string)".

(** The name of a job type, as the messages of the oracle spell it. *)
Definition type_name (ty : JobType) : string :=
  match ty with
  | random => "random"
  | price => "price"
  | webhook => "webhook"
  end.

(** The identifiers that the creation requests among the steps draw. *)
Fixpoint drawn (steps : list Step) : list string :=
  match steps with
  | [] => []
  | ReqCreate _ _ nanoid _ :: rest => nanoid :: drawn rest
  | _ :: rest => drawn rest
  end.

(** What no update of the controller or the worker carries: the
    identifier, the type, the parameters and the time of creation. *)
Definition same_identity (a b : OracleJob) : Prop :=
  id a = id b /\ type a = type b /\ parameters a = parameters b
  /\ createdAt a = createdAt b.


(** The job after the three updates of the inline [confirmPayment]. *)
Definition finished_job (stored : OracleJob) (o : Outcome)
    (now1 now2 now3 : Date) : OracleJob :=
  spread (paid_job stored now1 now2) (Worker.outcome_update o) now3.

(* ------------------------------------------------------------------ *)
(** ** The handlers, one await at a time

    The controller awaits every call it makes, to the job store as to the
    cache and the queue, and handlers that run in the same tick take turns
    at each await.  Here a handler is cut at every [await]: a segment runs
    from one await to the call of the next, and any step of another request,
    of a worker or of the cache may come between two segments.  A call to
    the cache or to the queue may also fail; the [catch] of the handler then
    passes the error to the error handler, which answers 500 to what is not
    an [AppError].  The steps above are the schedules in which the segments
    of a handler follow each other and no such call fails. *)

(** What a request is answered in the end. *)
Inductive Answer : Type :=
| Replied (r : Response)
| ServerError.

Definition answer_status (a : Answer) : Z :=
  match a with
  | Replied r => http_status r
  | ServerError => 500
  end.

(** A handler between two segments, with the variables its next segment
    reads. *)
Inductive Proc : Type :=
| CreateStored (job : OracleJob)
| ListFetched (result : list OracleJob) (limit offset : Z)
| FetchRead (i : string) (paymentHeader : option string)
    (job : option OracleJob)
| FetchVerify (i : string) (job : OracleJob) (paymentHeader : string)
| ConfirmRead (i : string) (job : option OracleJob)
| ConfirmSimulate (i : string) (job : OracleJob)
| PaidUpdate2 (i : string) (job : OracleJob)
| PaidSubmit (i : string) (job : OracleJob)
| PaidInvalidate (i : string)
| PaidReread (i : string)
| PaidAnswer (updatedJob : option OracleJob)
| ReadCached (i : string) (cached : option OracleJob)
| ReadCurrent (i : string) (currentJob : option OracleJob)
| ReadAnswer (currentJob : OracleJob).

(** What a segment takes from outside: the answer of the facilitator, the
    clock, and whether the call it makes to the cache or the queue fails. *)
Record Input : Type := mkInput {
  in_reply : FacilitatorService.FacilitatorReply;
  in_now : Date;
  in_fault : bool
}.

Inductive Request : Type :=
| RCreate (body : JValue) (nanoid : string) (now : Date)
| RFetch (reqId : string) (paymentHeader : option string)
| RConfirm (reqId : string)
| RList (q : ListQuery).

Module Segments.
Section WithEnv.
Variable e : Env.

Local Open Scope handler_scope.

Definition replied (r : Response) : M (Answer + Proc) :=
  ret (inl (Replied r)).

Definition continue (p : Proc) : M (Answer + Proc) := ret (inr p).

(** A call to the cache or the queue: it goes through, or it fails and the
    [catch] of the handler hands the error to the error handler, which
    answers 500.  The two services are not among the sources; a call that
    fails is taken to have had no effect. *)
Definition calling {A : Type} (fault : bool) (c : M A)
    (k : A -> M (Answer + Proc)) : M (Answer + Proc) :=
  if fault then ret (inl ServerError) else bind c k.

(** The first segment of each handler, up to its first await. *)
Definition start (req : Request) : M (Answer + Proc) :=
  match req with
  | RCreate body nanoid now =>
      match validateCreateJob body with
      | inl err => replied (Failed err)
      | inr (ty, params) =>
          match JobController.checkParameters ty params with
          | Some err => replied (Failed err)
          | None =>
              job <- Jobs.createJob ty params nanoid now ;;
              continue (CreateStored job)
          end
      end
  | RFetch reqId paymentHeader =>
      match validateJobId reqId with
      | inl err => replied (Failed err)
      | inr i =>
          job <- Jobs.getJob i ;;
          continue (FetchRead i paymentHeader job)
      end
  | RConfirm reqId =>
      match validateJobId reqId with
      | inl err => replied (Failed err)
      | inr i =>
          job <- Jobs.getJob i ;;
          continue (ConfirmRead i job)
      end
  | RList q =>
      let limit := JobController.int_or (q_limit q) 50 in
      let offset := JobController.int_or (q_offset q) 0 in
      let filters := JobController.filters_of q in
      result <- JobController.call_with_surplus Jobs.getAllJobs
                  (limit, offset, filters) ;;
      continue (ListFetched result limit offset)
  end.

(** The segment that follows an await. *)
Definition advance (p : Proc) (inp : Input) : M (Answer + Proc) :=
  match p with
  | CreateStored job =>
      let paymentRequest := X402Service.createPaymentRequest e job in
      replied (Created (id job) (status job) paymentRequest)
  | ListFetched result limit offset =>
      replied (OkList (JobController.result_jobs result) limit offset
                 (JobController.result_total result)
                 (JobController.js_lt (offset + limit)
                    (JobController.result_total result)))
  | FetchRead i paymentHeader None =>
      replied (Failed (newNotFoundError "Job"))
  | FetchRead i paymentHeader (Some job) =>
      if JobStatus_eqb (status job) pending_payment
         && negb (str_truthy paymentHeader)
      then replied (PaymentRequired None
                      (FacilitatorService.getPaymentInstructions e) i
                      (Some "Payment required to access this resource"))
      else if str_truthy paymentHeader
              && JobStatus_eqb (status job) pending_payment
      then continue (FetchVerify i job (or_else paymentHeader ""))
      else
        calling (in_fault inp) (CacheService.get (cacheKey i))
          (fun cached => continue (ReadCached i cached))
  | FetchVerify i job paymentHeader =>
      let verification :=
        FacilitatorService.verifyPayment e paymentHeader i (in_reply inp) in
      if negb (FacilitatorService.verified verification)
      then replied (PaymentRequired
                      (Some (or_default (FacilitatorService.error verification)
                               "Payment verification failed"))
                      (FacilitatorService.getPaymentInstructions e) i None)
      else
        Jobs.updateJob i (only_status payment_confirmed) (in_now inp) ;;;
        continue (PaidUpdate2 i job)
  | ConfirmRead i None => replied (Failed (newNotFoundError "Job"))
  | ConfirmRead i (Some job) =>
      if negb (JobStatus_eqb (status job) pending_payment)
      then replied (Failed (newBadRequestError
             ("Job is not in pending_payment status. Current status: "
              ++ status_name (status job))))
      else
        let _ := X402Service.simulatePaymentConfirmation e i in
        continue (ConfirmSimulate i job)
  | ConfirmSimulate i job =>
      Jobs.updateJob i (only_status payment_confirmed) (in_now inp) ;;;
      continue (PaidUpdate2 i job)
  | PaidUpdate2 i job =>
      Jobs.updateJob i (only_status query_in_progress) (in_now inp) ;;;
      continue (PaidSubmit i job)
  | PaidSubmit i job =>
      calling (in_fault inp) (QueueService.addJob job)
        (fun _ => continue (PaidInvalidate i))
  | PaidInvalidate i =>
      calling (in_fault inp) (CacheService.del (cacheKey i))
        (fun _ => continue (PaidReread i))
  | PaidReread i =>
      updatedJob <- Jobs.getJob i ;;
      continue (PaidAnswer updatedJob)
  | PaidAnswer updatedJob => replied (OkJob updatedJob)
  | ReadCached i (Some c) => replied (OkJob (Some c))
  | ReadCached i None =>
      currentJob <- Jobs.getJob i ;;
      continue (ReadCurrent i currentJob)
  | ReadCurrent i None => replied (Failed (newNotFoundError "Job"))
  | ReadCurrent i (Some currentJob) =>
      calling (in_fault inp) (CacheService.set (cacheKey i) currentJob 60)
        (fun _ => continue (ReadAnswer currentJob))
  | ReadAnswer currentJob => replied (OkJob (Some currentJob))
  end.

(** A handler run on its own: its first segment, then one segment for each
    input until it answers. *)
Fixpoint finish (p : Proc) (inputs : list Input) (w : World)
  : option (Answer * World) :=
  match inputs with
  | [] => None
  | inp :: rest =>
      match advance p inp w with
      | (inl a, w') => Some (a, w')
      | (inr p', w') => finish p' rest w'
      end
  end.

Definition alone (req : Request) (inputs : list Input) (w : World)
  : option (Answer * World) :=
  match start req w with
  | (inl a, w') => Some (a, w')
  | (inr p, w') => finish p inputs w'
  end.

End WithEnv.
End Segments.

(** The segments a handler still has to run, at most. *)
Definition segments_left (p : Proc) : nat :=
  match p with
  | CreateStored _ => 1
  | ListFetched _ _ _ => 1
  | FetchRead _ _ _ => 7
  | FetchVerify _ _ _ => 6
  | ConfirmRead _ _ => 7
  | ConfirmSimulate _ _ => 6
  | PaidUpdate2 _ _ => 5
  | PaidSubmit _ _ => 4
  | PaidInvalidate _ => 3
  | PaidReread _ => 2
  | PaidAnswer _ => 1
  | ReadCached _ _ => 3
  | ReadCurrent _ _ => 2
  | ReadAnswer _ => 1
  end.

(** The handlers that have not written yet. *)
Definition unwritten (p : Proc) : bool :=
  match p with
  | FetchRead _ _ _ | FetchVerify _ _ _ | ConfirmRead _ _
  | ConfirmSimulate _ _ | ReadCached _ _ | ReadCurrent _ _
  | ListFetched _ _ _ => true
  | _ => false
  end.

(** One step of the server at this grain. *)
Inductive Tick : Type :=
| Arrive (r : nat) (req : Request)
| Proceed (r : nat) (inp : Input)
| WorkerDone (k : nat) (o : Outcome) (now : Date)
| EntryExpires (key : string).

Record Server : Type := mkServer {
  sworld : World;
  procs : list (nat * Proc);
  replies : list (nat * Answer)
}.

Definition boot : Server := mkServer init [] [].

Fixpoint take_proc (r : nat) (l : list (nat * Proc))
  : option (Proc * list (nat * Proc)) :=
  match l with
  | [] => None
  | (r', p) :: rest =>
      if Nat.eqb r' r then Some (p, rest)
      else match take_proc r rest with
           | Some (p', rest') => Some (p', (r', p) :: rest')
           | None => None
           end
  end.

Definition landed (r : nat) (others : list (nat * Proc))
    (answered : list (nat * Answer)) (out : (Answer + Proc) * World)
  : Server :=
  match out with
  | (inl a, w) => mkServer w others ((r, a) :: answered)
  | (inr p, w) => mkServer w ((r, p) :: others) answered
  end.

Definition tick (e : Env) (s : Server) (t : Tick) : Server :=
  match t with
  | Arrive r req =>
      landed r (procs s) (replies s) (Segments.start req (sworld s))
  | Proceed r inp =>
      match take_proc r (procs s) with
      | None => s
      | Some (p, rest) =>
          landed r rest (replies s) (Segments.advance e p inp (sworld s))
      end
  | WorkerDone k o now =>
      mkServer (snd (Worker.finish k o now (sworld s))) (procs s) (replies s)
  | EntryExpires key =>
      mkServer (snd (CacheService.expire key (sworld s))) (procs s)
        (replies s)
  end.

Definition ticks (e : Env) (ts : list Tick) (s : Server) : Server :=
  fold_left (tick e) ts s.

(** Where a payment handler stands with respect to the job it is paying
    for: it holds the job as it read it, unpaid, and has not written yet; it
    has written [payment_confirmed]; it has written [query_in_progress] and
    is about to hand the job over. *)
Inductive Stage : Type := Armed | WroteConfirmed | WroteInProgress.

Definition Stage_eqb (a b : Stage) : bool :=
  match a, b with
  | Armed, Armed => true
  | WroteConfirmed, WroteConfirmed => true
  | WroteInProgress, WroteInProgress => true
  | _, _ => false
  end.

Definition stage (p : Proc) : option (string * Stage) :=
  match p with
  | FetchRead i h (Some job) =>
      if JobStatus_eqb (status job) pending_payment && str_truthy h
      then Some (i, Armed) else None
  | FetchVerify i _ _ => Some (i, Armed)
  | ConfirmRead i (Some job) =>
      if JobStatus_eqb (status job) pending_payment
      then Some (i, Armed) else None
  | ConfirmSimulate i _ => Some (i, Armed)
  | PaidUpdate2 i _ => Some (i, WroteConfirmed)
  | PaidSubmit i _ => Some (i, WroteInProgress)
  | _ => None
  end.

Definition at_stage (i : string) (s : Stage) (p : Proc) : bool :=
  match stage p with
  | Some (k, s') => String.eqb k i && Stage_eqb s' s
  | None => false
  end.

(** How many handlers in flight are at stage [s] for job [i]. *)
Definition holding (i : string) (s : Stage) (l : list (nat * Proc)) : nat :=
  length (filter (fun rp => at_stage i s (snd rp)) l).

(** No two payment handlers hold the same job unpaid at the same time. *)
Definition calm_now (l : list (nat * Proc)) : bool :=
  forallb (fun rp =>
             match stage (snd rp) with
             | Some (i, Armed) => Nat.leb (holding i Armed l) 1
             | _ => true
             end) l.

(** ... at any time of a run. *)
Fixpoint calm (e : Env) (ts : list Tick) (s : Server) : bool :=
  calm_now (procs s)
  && match ts with
     | [] => true
     | t :: rest => calm e rest (tick e s t)
     end.

(** [nanoid()] never draws an identifier that is in use. *)
Fixpoint fresh_ids (e : Env) (ts : list Tick) (s : Server) : bool :=
  match ts with
  | [] => true
  | t :: rest =>
      match t with
      | Arrive _ (RCreate _ nanoid _) =>
          match JsMap.get (jobs (sworld s)) nanoid with
          | None => true
          | Some _ => false
          end
      | _ => true
      end && fresh_ids e rest (tick e s t)
  end.

(** The job a handler carries was read under the key the handler works
    on. *)
Definition carries_key (p : Proc) : Prop :=
  match p with
  | FetchRead i _ (Some job) | ConfirmRead i (Some job)
  | FetchVerify i job _ | ConfirmSimulate i job
  | PaidUpdate2 i job | PaidSubmit i job => id job = i
  | _ => True
  end.

(** Whether job [i] is stored with the status [pending_payment]. *)
Definition is_pending (jobs : JobService.Store) (i : string) : bool :=
  match JobService.getJob jobs i with
  | Some job => JobStatus_eqb (status job) pending_payment
  | None => false
  end.

(** The check that a payment handler made before its await still holds
    when it writes: the tick that writes [payment_confirmed] finds the job
    in [pending_payment]. *)
Definition check_holds (e : Env) (s : Server) (t : Tick) : bool :=
  match t with
  | Proceed r inp =>
      match take_proc r (procs s) with
      | Some (FetchVerify i _ h, _) =>
          if FacilitatorService.verified
               (FacilitatorService.verifyPayment e h i (in_reply inp))
          then is_pending (jobs (sworld s)) i
          else true
      | Some (ConfirmSimulate i _, _) => is_pending (jobs (sworld s)) i
      | _ => true
      end
  | _ => true
  end.

(** ... at every tick of a run. *)
Fixpoint timely (e : Env) (ts : list Tick) (s : Server) : bool :=
  match ts with
  | [] => true
  | t :: rest => check_holds e s t && timely e rest (tick e s t)
  end.

(** Job [i] between two ticks of a timely run. *)
Definition poised (i : string) (s : Server) : Prop :=
  let w := sworld s in
  let confirmed := holding i WroteConfirmed (procs s) in
  let ready := holding i WroteInProgress (procs s) in
  match JobService.getJob (jobs w) i with
  | None =>
      trail i (log w) = [] /\ queued i (queue w) = 0%nat
      /\ dispatches i (log w) = 0%nat
      /\ confirmed = 0%nat /\ ready = 0%nat
  | Some job =>
      id job = i
      /\ match status job with
         | pending_payment =>
             trail i (log w) = [pending_payment]
             /\ queued i (queue w) = 0%nat /\ dispatches i (log w) = 0%nat
             /\ confirmed = 0%nat /\ ready = 0%nat
         | payment_confirmed =>
             trail i (log w) = [payment_confirmed; pending_payment]
             /\ queued i (queue w) = 0%nat /\ dispatches i (log w) = 0%nat
             /\ confirmed = 1%nat /\ ready = 0%nat
         | query_in_progress =>
             trail i (log w) =
             [query_in_progress; payment_confirmed; pending_payment]
             /\ queued i (queue w) = dispatches i (log w)
             /\ (ready + dispatches i (log w) <= 1)%nat
             /\ confirmed = 0%nat
         | completed =>
             trail i (log w) =
             [completed; query_in_progress; payment_confirmed;
              pending_payment]
             /\ queued i (queue w) = 0%nat /\ dispatches i (log w) = 1%nat
             /\ confirmed = 0%nat /\ ready = 0%nat
         | failed =>
             trail i (log w) =
             [failed; query_in_progress; payment_confirmed; pending_payment]
             /\ queued i (queue w) = 0%nat /\ dispatches i (log w) = 1%nat
             /\ confirmed = 0%nat /\ ready = 0%nat
         end
  end.

(** A handler holds job [i] unpaid only while the job is stored unpaid. *)
Definition tidy (i : string) (s : Server) : Prop :=
  is_pending (jobs (sworld s)) i = false ->
  holding i Armed (procs s) = 0%nat.

Definition Poised (s : Server) : Prop :=
  (forall i, poised i s)
  /\ forall r p, In (r, p) (procs s) -> carries_key p.

(** [Stored i s] is in the history. *)
Fixpoint has_stored (i : string) (s : JobStatus) (l : list Event) : bool :=
  match l with
  | [] => false
  | Stored k s' :: rest =>
      (String.eqb k i && JobStatus_eqb s' s) || has_stored i s rest
  | Submitted _ :: rest => has_stored i s rest
  end.

(** Job [i] was written [payment_confirmed] and, later, [query_in_progress]. *)
Fixpoint written (i : string) (l : list Event) : bool :=
  match l with
  | [] => false
  | Stored k s :: rest =>
      (String.eqb k i && JobStatus_eqb s query_in_progress
       && has_stored i payment_confirmed rest)
      || written i rest
  | Submitted _ :: rest => written i rest
  end.

(** Every job in the history of submissions carries the status
    [pending_payment], and was handed over after the job of its identifier
    was written [payment_confirmed] and then [query_in_progress]. *)
Fixpoint handed_over_after_writes (l : list Event) : bool :=
  match l with
  | [] => true
  | Submitted job :: rest =>
      JobStatus_eqb (status job) pending_payment
      && written (id job) rest
      && handed_over_after_writes rest
  | Stored _ _ :: rest => handed_over_after_writes rest
  end.

(** What a handler in flight has behind it. *)
Definition behind (w : World) (p : Proc) : Prop :=
  match p with
  | FetchRead i _ (Some job) | ConfirmRead i (Some job) =>
      id job = i /\ JobService.getJob (jobs w) i <> None
  | FetchVerify i job _ | ConfirmSimulate i job =>
      status job = pending_payment /\ id job = i
      /\ JobService.getJob (jobs w) i <> None
  | PaidUpdate2 i job =>
      status job = pending_payment /\ id job = i
      /\ JobService.getJob (jobs w) i <> None
      /\ has_stored i payment_confirmed (log w) = true
  | PaidSubmit i job =>
      status job = pending_payment /\ id job = i
      /\ written i (log w) = true
  | _ => True
  end.

(** What holds of the server at this grain under every interleaving. *)
Definition Sound (s : Server) : Prop :=
  (forall i job, JobService.getJob (jobs (sworld s)) i = Some job ->
                 id job = i)
  /\ (forall r p, In (r, p) (procs s) -> behind (sworld s) p)
  /\ Forall (fun job => status job = pending_payment) (queue (sworld s))
  /\ handed_over_after_writes (log (sworld s)) = true.

(** What one tick does to the store, the queue, the history and the
    handlers in flight. *)
Inductive Beat (s s' : Server) : Prop :=
| BeatQuiet :
    jobs (sworld s') = jobs (sworld s) ->
    queue (sworld s') = queue (sworld s) ->
    log (sworld s') = log (sworld s) ->
    (forall i,
       holding i WroteConfirmed (procs s') = holding i WroteConfirmed (procs s)
       /\ (holding i WroteInProgress (procs s')
           <= holding i WroteInProgress (procs s))%nat
       /\ ((holding i Armed (procs s') <= holding i Armed (procs s))%nat
           \/ exists job, JobService.getJob (jobs (sworld s)) i = Some job
                          /\ status job = pending_payment)) ->
    Beat s s'
| BeatCreate (job : OracleJob) :
    JobService.getJob (jobs (sworld s)) (id job) = None ->
    status job = pending_payment ->
    jobs (sworld s') = JsMap.set (jobs (sworld s)) (id job) job ->
    queue (sworld s') = queue (sworld s) ->
    log (sworld s') = Stored (id job) pending_payment :: log (sworld s) ->
    (forall i st, holding i st (procs s') = holding i st (procs s)) ->
    Beat s s'
| BeatConfirm (i : string) (v : OracleJob) :
    is_pending (jobs (sworld s)) i = true ->
    (1 <= holding i Armed (procs s))%nat ->
    status v = payment_confirmed -> id v = i ->
    jobs (sworld s') = JsMap.set (jobs (sworld s)) i v ->
    queue (sworld s') = queue (sworld s) ->
    log (sworld s') = Stored i payment_confirmed :: log (sworld s) ->
    (holding i Armed (procs s') + 1 = holding i Armed (procs s))%nat ->
    (holding i WroteConfirmed (procs s')
     = holding i WroteConfirmed (procs s) + 1)%nat ->
    holding i WroteInProgress (procs s')
    = holding i WroteInProgress (procs s) ->
    (forall k st, k <> i -> holding k st (procs s') = holding k st (procs s)) ->
    Beat s s'
| BeatProgress (i : string) (v : OracleJob) :
    (1 <= holding i WroteConfirmed (procs s))%nat ->
    status v = query_in_progress -> id v = i ->
    jobs (sworld s') = JsMap.set (jobs (sworld s)) i v ->
    queue (sworld s') = queue (sworld s) ->
    log (sworld s') = Stored i query_in_progress :: log (sworld s) ->
    holding i Armed (procs s') = holding i Armed (procs s) ->
    (holding i WroteConfirmed (procs s') + 1
     = holding i WroteConfirmed (procs s))%nat ->
    (holding i WroteInProgress (procs s')
     = holding i WroteInProgress (procs s) + 1)%nat ->
    (forall k st, k <> i -> holding k st (procs s') = holding k st (procs s)) ->
    Beat s s'
| BeatSubmit (i : string) (job : OracleJob) :
    (1 <= holding i WroteInProgress (procs s))%nat ->
    id job = i ->
    jobs (sworld s') = jobs (sworld s) ->
    queue (sworld s') = (queue (sworld s) ++ [job])%list ->
    log (sworld s') = Submitted job :: log (sworld s) ->
    holding i Armed (procs s') = holding i Armed (procs s) ->
    holding i WroteConfirmed (procs s') = holding i WroteConfirmed (procs s) ->
    (holding i WroteInProgress (procs s') + 1
     = holding i WroteInProgress (procs s))%nat ->
    (forall k st, k <> i -> holding k st (procs s') = holding k st (procs s)) ->
    Beat s s'
| BeatFinish (k : nat) (job stored done : OracleJob) :
    nth_error (queue (sworld s)) k = Some job ->
    JobService.getJob (jobs (sworld s)) (id job) = Some stored ->
    id done = id stored ->
    status done = completed \/ status done = failed ->
    jobs (sworld s') = JsMap.set (jobs (sworld s)) (id job) done ->
    queue (sworld s') = remove_nth k (queue (sworld s)) ->
    log (sworld s') = Stored (id job) (status done) :: log (sworld s) ->
    (forall i st, holding i st (procs s') = holding i st (procs s)) ->
    Beat s s'.

(** Whether a stage is stage [st] for job [i], as a number. *)
Definition counts (i : string) (st : Stage) (o : option (string * Stage))
  : nat :=
  match o with
  | Some (k, s') => if String.eqb k i && Stage_eqb s' st then 1 else 0
  | None => 0
  end.

Definition stage_after (out : Answer + Proc) : option (string * Stage) :=
  match out with
  | inl _ => None
  | inr p => stage p
  end.

(** The scheduler of the coarser steps, seen at this grain. *)
Definition as_proc (s : Suspended) : Proc :=
  match s with
  | AwaitVerify i job h => FetchVerify i job h
  | AwaitConfirm i job => ConfirmSimulate i job
  end.

Definition as_server (sys : System) : Server :=
  mkServer (world sys)
    (map (fun rs => (fst rs, as_proc (snd rs))) (waiting sys))
    (map (fun ra => (fst ra, Replied (snd ra))) (answers sys)).



(** No call to the cache or the queue fails. *)
Definition faultless (ts : list Tick) : bool :=
  forallb (fun t => match t with
                    | Proceed _ inp => negb (in_fault inp)
                    | _ => true
                    end) ts.

(** At every submission the status last written for the job is
    [query_in_progress]. *)
Fixpoint submitted_in_progress (l : list Event) : bool :=
  match l with
  | [] => true
  | Submitted job :: rest =>
      match trail (id job) rest with
      | query_in_progress :: _ => true
      | _ => false
      end
      && submitted_in_progress rest
  | Stored _ _ :: rest => submitted_in_progress rest
  end.

(** Runs at this grain. *)
Module Runs.

Definition proceed (r : nat) (now : Date) : Tick :=
  Proceed r (mkInput Examples.no_reply now false).

(** The call that the segment makes to the cache or the queue fails. *)
Definition failing (r : nat) (now : Date) : Tick :=
  Proceed r (mkInput Examples.no_reply now true).

Definition create_j1 : list Tick :=
  [Arrive 0 (RCreate (Examples.create_body "random" Examples.random_1_402)
               "j1" 10);
   proceed 0 10].

(** One paid fetch.  While it waits for the payment check a cache entry
    expires and a fetch without a header is answered 402; a confirmation
    that arrives after the first write is refused; the worker finishes the
    job before the handler has invalidated the cache and answered. *)
Definition paid_in_company : list Tick :=
  (create_j1 ++
   [Arrive 1 (RFetch "j1" (Some "proof-a"));
    proceed 1 20;
    EntryExpires "job:j1";
    Arrive 2 (RFetch "j1" None);
    proceed 2 20;
    proceed 1 20;
    Arrive 3 (RConfirm "j1");
    proceed 1 21;
    proceed 3 21;
    proceed 1 22;
    WorkerDone 0 (Succeeded Examples.seven) 40;
    proceed 1 41;
    proceed 1 41;
    proceed 1 41])%list.

(** Two fetches with a payment header for the same unpaid job, taking
    turns at every await. *)
Definition race : list Tick :=
  (create_j1 ++
   [Arrive 1 (RFetch "j1" (Some "proof-a"));
    Arrive 2 (RFetch "j1" (Some "proof-b"));
    proceed 1 20; proceed 2 20;
    proceed 1 21; proceed 2 21;
    proceed 1 22; proceed 2 22;
    proceed 1 23; proceed 2 23])%list.

(** The same two fetches when the second writes [payment_confirmed] after
    the first has written [query_in_progress] and before it hands the job
    over. *)
Definition race_late : list Tick :=
  (create_j1 ++
   [Arrive 1 (RFetch "j1" (Some "proof-a"));
    Arrive 2 (RFetch "j1" (Some "proof-b"));
    proceed 1 20; proceed 2 20;
    proceed 1 21; proceed 1 22;
    proceed 2 23;
    proceed 1 24])%list.


(** A confirmation whose call to the queue fails. *)
Definition queue_down : list Tick :=
  (create_j1 ++
   [Arrive 1 (RConfirm "j1");
    proceed 1 20; proceed 1 20; proceed 1 21;
    failing 1 22])%list.

End Runs.

(* ------------------------------------------------------------------ *)
(** * Properties *)

(** ** The [Map] *)

Section JsMapFacts.
Context {V : Type}.
Implicit Types (m : JsMap.t V) (k : string) (v : V).

Lemma get_set_same m k v : JsMap.get (JsMap.set m k v) k = Some v.
Proof.
  induction m as [|[k' v'] m IH]; simpl.
  - now rewrite String.eqb_refl.
  - destruct (String.eqb k' k) eqn:E; simpl.
    + now rewrite String.eqb_refl.
    + now rewrite E.
Qed.

Lemma get_set_other m k k' v :
  k <> k' -> JsMap.get (JsMap.set m k v) k' = JsMap.get m k'.
Proof.
  intros N. induction m as [|[k0 v0] m IH]; simpl.
  - apply String.eqb_neq in N. now rewrite N.
  - destruct (String.eqb k0 k) eqn:E; simpl.
    + apply String.eqb_eq in E. subst k0.
      apply String.eqb_neq in N. now rewrite N.
    + destruct (String.eqb k0 k'); auto.
Qed.

Lemma get_set m k k' v :
  JsMap.get (JsMap.set m k v) k' =
  if String.eqb k k' then Some v else JsMap.get m k'.
Proof.
  destruct (String.eqb_spec k k') as [->|N].
  - apply get_set_same.
  - now apply get_set_other.
Qed.

Lemma get_delete_same m k : JsMap.get (JsMap.delete m k) k = None.
Proof.
  induction m as [|[k' v'] m IH]; simpl; auto.
  destruct (String.eqb k' k) eqn:E; simpl; auto.
  now rewrite E.
Qed.

Lemma get_in_keys m k v : JsMap.get m k = Some v -> In k (JsMap.keys m).
Proof.
  induction m as [|[k' v'] m IH]; simpl; [discriminate|].
  destruct (String.eqb_spec k' k); auto.
Qed.

Lemma keys_set m k v :
  forall x, In x (JsMap.keys (JsMap.set m k v)) ->
            x = k \/ In x (JsMap.keys m).
Proof.
  induction m as [|[k' v'] m IH]; simpl; intros x H.
  - destruct H as [H|[]]; auto.
  - destruct (String.eqb k' k); simpl in H.
    + destruct H; auto.
    + destruct H as [H|H]; auto. destruct (IH _ H); auto.
Qed.
End JsMapFacts.

(** ** The job store *)

Lemma updateJob_found jobs i u now job :
  JobService.getJob jobs i = Some job ->
  JobService.updateJob jobs i u now =
  (JsMap.set jobs i (spread job u now), Some (spread job u now)).
Proof.
  unfold JobService.getJob, JobService.updateJob. now intros ->.
Qed.

Lemma updateJob_unknown jobs i u now :
  JobService.getJob jobs i = None ->
  JobService.updateJob jobs i u now = (jobs, None).
Proof.
  unfold JobService.getJob, JobService.updateJob. now intros ->.
Qed.

Lemma call_keys c jobs :
  forall x, In x (JsMap.keys (call jobs c)) ->
            In x (JsMap.keys jobs) \/ In x (returned_ids [c]).
Proof.
  intros x H. destruct c as [ty params nanoid now|i u now|i|]; simpl in *; auto.
  - apply keys_set in H. destruct H; auto.
  - unfold JobService.updateJob in H.
    destruct (JsMap.get jobs i) as [job|] eqn:G; simpl in H; auto.
    apply keys_set in H. destruct H as [->|H]; auto.
    left. eapply get_in_keys; eauto.
Qed.

Lemma returned_ids_cons c cs x :
  In x (returned_ids [c]) \/ In x (returned_ids cs) ->
  In x (returned_ids (c :: cs)).
Proof.
  destruct c; simpl; intuition.
Qed.

Lemma calls_keys cs :
  forall jobs x, In x (JsMap.keys (calls cs jobs)) ->
                 In x (JsMap.keys jobs) \/ In x (returned_ids cs).
Proof.
  induction cs as [|c cs IH]; intros jobs x H; [now left|].
  cbn [calls fold_left] in H. apply IH in H.
  destruct H as [H|H].
  - apply call_keys in H. destruct H as [H|H]; auto.
    right. apply returned_ids_cons. auto.
  - right. apply returned_ids_cons. auto.
Qed.

(** C10. For every job type and parameters, in a store reached from the
    empty one by any calls of the service, [createJob] returns a job in
    [pending_payment] whose [createdAt] equals its [updatedAt]; [getJob]
    with the returned identifier right after yields exactly that job; and
    [getJob] with an identifier that [createJob] never returned yields
    nothing. *)
Theorem createJob_getJob_roundtrip :
  forall (cs : list SvcCall) (ty : JobType) (params : list (string * JValue))
         (nanoid : string) (now : Date),
    let jobs := calls cs JsMap.empty in
    let created := JobService.createJob jobs ty params nanoid now in
    status (snd created) = pending_payment
    /\ createdAt (snd created) = updatedAt (snd created)
    /\ JobService.getJob (fst created) (id (snd created)) = Some (snd created)
    /\ (forall i, ~ In i (returned_ids cs) -> JobService.getJob jobs i = None).
Proof.
  intros cs ty params nanoid now jobs created. repeat split.
  - unfold created, JobService.createJob, JobService.getJob. simpl.
    apply get_set_same.
  - intros i N. unfold JobService.getJob.
    destruct (JsMap.get jobs i) as [job|] eqn:G; auto.
    exfalso. apply N. apply get_in_keys in G.
    apply calls_keys in G. destruct G as [[]|G]; auto.
Qed.

Lemma createJob_getJob_roundtrip_witness :
  JobService.getJob
    (calls [CallCreate random Examples.random_1_402 "j1" 10;
            CallUpdate "j1" (only_status completed) 11] JsMap.empty)
    "j9" = None.
Proof.
  apply (createJob_getJob_roundtrip
           [CallCreate random Examples.random_1_402 "j1" 10;
            CallUpdate "j1" (only_status completed) 11]
           price Examples.price_sol "j2" 12).
  simpl. intros [H|[]]. discriminate H.
Defined.

(** C2, as the program has it. [updateJob(id, partialUpdate)] takes no
    expected state and no version, and jobs carry no version: whatever its
    state, a stored job is replaced by
    [{ ...job, ...partialUpdate, updatedAt: now }], which is also what the
    call returns, and no other job changes; the only refusal is an unknown
    identifier, which returns [null] and leaves the store as it was. A call
    of the service changes a stored job in two ways only: [updateJob] with
    its identifier, by this overlay, and [createJob] when [nanoid] draws its
    identifier again, which puts a new [pending_payment] job in its place. *)
Theorem updateJob_unconditional :
  forall (jobs : JobService.Store) (i : string) (u : PartialJob) (now : Date),
    match JobService.getJob jobs i with
    | None => JobService.updateJob jobs i u now = (jobs, None)
    | Some job =>
        JobService.updateJob jobs i u now
        = (JsMap.set jobs i (spread job u now), Some (spread job u now))
        /\ JobService.getJob (fst (JobService.updateJob jobs i u now)) i
           = Some (spread job u now)
        /\ forall k, k <> i ->
             JobService.getJob (fst (JobService.updateJob jobs i u now)) k
             = JobService.getJob jobs k
    end
    /\ forall (c : SvcCall) (k : string) (stored : OracleJob),
         JobService.getJob jobs k = Some stored ->
         JobService.getJob (call jobs c) k = Some stored
         \/ (exists u' now',
               c = CallUpdate k u' now'
               /\ JobService.getJob (call jobs c) k
                  = Some (spread stored u' now'))
         \/ (exists ty params now',
               c = CallCreate ty params k now'
               /\ JobService.getJob (call jobs c) k
                  = Some (mkJob k ty params pending_payment None now' now')).
Proof.
  intros jobs i u now. split.
  - destruct (JobService.getJob jobs i) as [job|] eqn:G.
    + rewrite (updateJob_found _ _ _ _ _ G). simpl.
      unfold JobService.getJob. repeat split.
      * apply get_set_same.
      * intros k N. apply get_set_other. congruence.
    + now apply updateJob_unknown.
  - intros c k stored G.
    destruct c as [ty params nanoid now'|i' u' now'|i'|]; simpl; auto.
    + destruct (String.eqb_spec nanoid k) as [->|N].
      * right. right. exists ty, params, now'. split; auto.
        unfold JobService.getJob. apply get_set_same.
      * left. unfold JobService.getJob in *. now rewrite get_set_other.
    + destruct (String.eqb_spec i' k) as [->|N].
      * right. left. exists u', now'. split; auto.
        rewrite (updateJob_found _ _ _ _ _ G). simpl.
        unfold JobService.getJob. apply get_set_same.
      * left. destruct (JobService.getJob jobs i') as [other|] eqn:O.
        -- rewrite (updateJob_found _ _ _ _ _ O). simpl.
           unfold JobService.getJob in *. now rewrite get_set_other.
        -- now rewrite (updateJob_unknown _ _ _ _ O).
Qed.

Lemma updateJob_unconditional_witness :
  let jobs := [("j1", Examples.job1_in completed 40); ("j2", Examples.job1)] in
  JobService.updateJob jobs "j1" (only_status pending_payment) 50
  = ([("j1", Examples.job1_in pending_payment 50); ("j2", Examples.job1)],
     Some (Examples.job1_in pending_payment 50))
  /\ JobService.getJob
       (fst (JobService.updateJob jobs "j1" (only_status pending_payment) 50))
       "j2"
     = Some Examples.job1
  /\ JobService.getJob
       (call jobs (CallCreate price Examples.price_sol "j1" 60)) "j1"
     = Some (mkJob "j1" price Examples.price_sol pending_payment None 60 60).
Proof.
  intros jobs.
  pose proof (updateJob_unconditional jobs "j1" (only_status pending_payment)
                50) as [H C].
  simpl in H. destruct H as (E & _ & K).
  split; [exact E|]. split; [apply (K "j2"); discriminate|].
  destruct (C (CallCreate price Examples.price_sol "j1" 60%Z) "j1"
              (Examples.job1_in completed 40%Z) eq_refl)
    as [U|[(u' & now' & D & _)|(ty & params & now' & D & G)]].
  - discriminate U.
  - discriminate D.
  - inversion D; subst. exact G.
Defined.

(** C2 as stated fails: the job is in [query_in_progress], the caller
    expects [pending_payment] (the state it read before it suspended), and
    the update to [payment_confirmed] is applied all the same, where the
    specification's [transition] answers [Conflict] and changes nothing. *)
Lemma updateJob_ignores_expected_state :
  let jobs := [("j1", Examples.job1_in query_in_progress 21)] in
  Spec.transition jobs "j1" pending_payment (only_status payment_confirmed) 30
  = (jobs, Spec.Conflict)
  /\ JobService.updateJob jobs "j1" (only_status payment_confirmed) 30
     = ([("j1", Examples.job1_in payment_confirmed 30)],
        Some (Examples.job1_in payment_confirmed 30))
  /\ fst (JobService.updateJob jobs "j1" (only_status payment_confirmed) 30)
     <> jobs.
Proof.
  repeat split. discriminate.
Qed.

(** ** Creation *)

Lemma validateCreateJob_ok fields kind ty params :
  prop fields "type" = JString kind ->
  parse_type (JString kind) = Some ty ->
  prop fields "parameters" = JObject params ->
  validateCreateJob (JObject fields) = inr (ty, params).
Proof.
  intros T P O. unfold validateCreateJob. now rewrite T, P, O.
Qed.

Lemma createJob_rejected e fields kind ty params err nanoid now w :
  prop fields "type" = JString kind ->
  parse_type (JString kind) = Some ty ->
  prop fields "parameters" = JObject params ->
  JobController.checkParameters ty params = Some err ->
  JobController.createJob e (JObject fields) nanoid now w = (Failed err, w).
Proof.
  intros T P O C. unfold JobController.createJob.
  rewrite (validateCreateJob_ok _ _ _ _ T P O), C. reflexivity.
Qed.

Lemma createJob_accepted e fields kind ty params nanoid now w :
  prop fields "type" = JString kind ->
  parse_type (JString kind) = Some ty ->
  prop fields "parameters" = JObject params ->
  JobController.checkParameters ty params = None ->
  let job := mkJob nanoid ty params pending_payment None now now in
  JobController.createJob e (JObject fields) nanoid now w =
  (Created nanoid pending_payment (X402Service.createPaymentRequest e job),
   mkWorld (JsMap.set (jobs w) nanoid job) (cache w) (queue w)
     (Stored nanoid pending_payment :: log w)).
Proof.
  intros T P O C job. unfold JobController.createJob.
  rewrite (validateCreateJob_ok _ _ _ _ T P O), C. reflexivity.
Qed.

Lemma checkParameters_random params :
  JobController.checkParameters random params =
  match prop params "min", prop params "max" with
  | JNumber a, JNumber b => if Qle_bool b a then Some random_error else None
  | _, _ => Some random_error
  end.
Proof.
  unfold JobController.checkParameters, random_error, num_ge.
  destruct (prop params "min"), (prop params "max"); reflexivity.
Qed.

(** C8. A creation request of kind [random] is refused with a 400 error and
    leaves the world as it was whenever [min] or [max] is not a number or
    [min >= max]; for every pair of numbers with [min < max] it answers 201
    with a new job in [pending_payment], which is then stored. *)
Theorem createJob_random_validation :
  forall (e : Env) (w : World) (fields params : list (string * JValue))
         (nanoid : string) (now : Date),
    prop fields "type" = JString "random" ->
    prop fields "parameters" = JObject params ->
    let out := JobController.createJob e (JObject fields) nanoid now w in
    (typeof (prop params "min") <> TyNumber
     \/ typeof (prop params "max") <> TyNumber
     \/ (exists a b, prop params "min" = JNumber a
                     /\ prop params "max" = JNumber b /\ (b <= a)%Q) ->
     out = (Failed random_error, w)
     /\ name random_error = BadRequestError
     /\ statusCode random_error = 400%Z)
    /\ (forall a b, prop params "min" = JNumber a ->
                    prop params "max" = JNumber b -> (a < b)%Q ->
        exists job,
          fst out = Created (id job) pending_payment
                      (X402Service.createPaymentRequest e job)
          /\ id job = nanoid
          /\ status job = pending_payment
          /\ JobService.getJob (jobs (snd out)) nanoid = Some job).
Proof.
  intros e w fields params nanoid now T O out. split.
  - intros H. split; [|split; reflexivity].
    apply (createJob_rejected e fields "random" random params); auto.
    rewrite checkParameters_random.
    destruct H as [H|[H|(a & b & A & B & L)]].
    + destruct (prop params "min"); try reflexivity. now elim H.
    + destruct (prop params "min"); try reflexivity.
      destruct (prop params "max"); try reflexivity. now elim H.
    + rewrite A, B. apply Qle_bool_iff in L. now rewrite L.
  - intros a b A B L.
    exists (mkJob nanoid random params pending_payment None now now).
    unfold out.
    rewrite (createJob_accepted e fields "random" random params); auto.
    + simpl. repeat split. unfold JobService.getJob. apply get_set_same.
    + rewrite checkParameters_random, A, B.
      destruct (Qle_bool b a) eqn:Q; auto.
      apply Qle_bool_iff in Q. exfalso. eapply Qlt_not_le; eauto.
Qed.

Lemma createJob_random_validation_witness :
  JobController.createJob Examples.env_demo
    (Examples.create_body "random" Examples.random_5_5) "j1" 10 init
  = (Failed random_error, init)
  /\ exists job,
       fst (JobController.createJob Examples.env_demo
              (Examples.create_body "random" Examples.random_1_402)
              "j1" 10 init)
       = Created (id job) pending_payment
           (X402Service.createPaymentRequest Examples.env_demo job)
       /\ id job = "j1"
       /\ status job = pending_payment
       /\ JobService.getJob
            (jobs (snd (JobController.createJob Examples.env_demo
                          (Examples.create_body "random"
                             Examples.random_1_402) "j1" 10 init))) "j1"
          = Some job.
Proof.
  split.
  - apply (createJob_random_validation Examples.env_demo init
             [("type", JString "random");
              ("parameters", JObject Examples.random_5_5)]
             Examples.random_5_5 "j1" 10 eq_refl eq_refl).
    right. right. exists 5%Q, 5%Q. repeat split. apply Qle_refl.
  - apply (proj2 (createJob_random_validation Examples.env_demo init
             [("type", JString "random");
              ("parameters", JObject Examples.random_1_402)]
             Examples.random_1_402 "j1" 10 eq_refl eq_refl) 1%Q 402%Q);
      reflexivity.
Defined.

Lemma checkParameters_webhook params :
  JobController.checkParameters webhook params =
  match prop params "url" with
  | JString s => if String.eqb s "" then Some webhook_error else None
  | _ => Some webhook_error
  end.
Proof.
  unfold JobController.checkParameters, webhook_error.
  destruct (prop params "url") as [| |[]|q|s|f|a]; try reflexivity.
  - simpl. destruct (Qeq_bool q 0); reflexivity.
  - simpl. destruct (String.eqb s ""); reflexivity.
Qed.

(** C9, as the program has it. A creation request of kind [webhook] is
    refused with a 400 error, and leaves the world as it was, exactly when
    [parameters.url] is not a non-empty string; every non-empty string is
    accepted as it is, with no check of URL syntax, and the job is created
    in [pending_payment]. *)
Theorem createJob_webhook_validation :
  forall (e : Env) (w : World) (fields params : list (string * JValue))
         (nanoid : string) (now : Date),
    prop fields "type" = JString "webhook" ->
    prop fields "parameters" = JObject params ->
    let out := JobController.createJob e (JObject fields) nanoid now w in
    ((forall s, prop params "url" = JString s -> s = "") ->
     out = (Failed webhook_error, w)
     /\ statusCode webhook_error = 400%Z)
    /\ (forall s, prop params "url" = JString s -> s <> "" ->
        exists job,
          fst out = Created (id job) pending_payment
                      (X402Service.createPaymentRequest e job)
          /\ id job = nanoid
          /\ status job = pending_payment
          /\ prop (parameters job) "url" = JString s
          /\ JobService.getJob (jobs (snd out)) nanoid = Some job).
Proof.
  intros e w fields params nanoid now T O out. split.
  - intros H. split; [|reflexivity].
    apply (createJob_rejected e fields "webhook" webhook params); auto.
    rewrite checkParameters_webhook.
    destruct (prop params "url") as [| | | |s| |]; try reflexivity.
    now rewrite (H s eq_refl).
  - intros s U N.
    exists (mkJob nanoid webhook params pending_payment None now now).
    unfold out.
    rewrite (createJob_accepted e fields "webhook" webhook params); auto.
    + simpl. repeat split; auto. unfold JobService.getJob. apply get_set_same.
    + rewrite checkParameters_webhook, U.
      apply String.eqb_neq in N. now rewrite N.
Qed.

Lemma createJob_webhook_validation_witness :
  JobController.createJob Examples.env_demo
    (Examples.create_body "webhook" [("url", JString "")]) "j1" 10 init
  = (Failed webhook_error, init)
  /\ exists job,
       fst (JobController.createJob Examples.env_demo
              (Examples.create_body "webhook" Examples.webhook_no_scheme)
              "j1" 10 init)
       = Created (id job) pending_payment
           (X402Service.createPaymentRequest Examples.env_demo job)
       /\ id job = "j1"
       /\ status job = pending_payment
       /\ prop (parameters job) "url" = JString "not a url"
       /\ JobService.getJob
            (jobs (snd (JobController.createJob Examples.env_demo
                          (Examples.create_body "webhook"
                             Examples.webhook_no_scheme) "j1" 10 init))) "j1"
          = Some job.
Proof.
  split.
  - apply (createJob_webhook_validation Examples.env_demo init
             [("type", JString "webhook");
              ("parameters", JObject [("url", JString "")])]
             [("url", JString "")] "j1" 10 eq_refl eq_refl).
    simpl. intros s H. now inversion H.
  - apply (proj2 (createJob_webhook_validation Examples.env_demo init
             [("type", JString "webhook");
              ("parameters", JObject Examples.webhook_no_scheme)]
             Examples.webhook_no_scheme "j1" 10 eq_refl eq_refl)
             "not a url"); [reflexivity | discriminate].
Defined.

(** C9 as stated fails: ["not a url"] has no scheme, so it is not a URL in
    any syntax, and the request that carries it is answered 201 and its job
    is stored. *)
Lemma createJob_webhook_accepts_non_url :
  Spec.has_scheme "not a url" = false
  /\ exists job,
       JobController.createJob Examples.env_demo
         (Examples.create_body "webhook" Examples.webhook_no_scheme)
         "j1" 10 init
       = (Created "j1" pending_payment
            (X402Service.createPaymentRequest Examples.env_demo job),
          mkWorld [("j1", job)] [] [] [Stored "j1" pending_payment])
       /\ parameters job = [("url", JString "not a url")].
Proof.
  split; [reflexivity|].
  exists (mkJob "j1" webhook Examples.webhook_no_scheme pending_payment None
            10 10).
  split; reflexivity.
Qed.

(** ** Fetching an unpaid job *)

Lemma validateJobId_ok i : i <> "" -> validateJobId i = inr i.
Proof.
  intros N. unfold validateJobId. apply String.eqb_neq in N. now rewrite N.
Qed.

Lemma getJob_begin_unpaid_no_header e w i h job :
  i <> "" ->
  JobService.getJob (jobs w) i = Some job ->
  status job = pending_payment ->
  str_truthy h = false ->
  JobController.getJob_begin e i h w =
  (inl (PaymentRequired None (FacilitatorService.getPaymentInstructions e) i
          (Some "Payment required to access this resource")), w).
Proof.
  intros N G S H. unfold JobController.getJob_begin.
  rewrite (validateJobId_ok _ N). unfold bind, Jobs.getJob.
  rewrite G, S, H. reflexivity.
Qed.

Lemma getJob_begin_unpaid_header e w i h job :
  i <> "" ->
  JobService.getJob (jobs w) i = Some job ->
  status job = pending_payment ->
  str_truthy h = true ->
  JobController.getJob_begin e i h w =
  (inr (AwaitVerify i job (or_else h "")), w).
Proof.
  intros N G S H. unfold JobController.getJob_begin.
  rewrite (validateJobId_ok _ N). unfold bind, Jobs.getJob.
  rewrite G, S, H. reflexivity.
Qed.

Lemma getJob_resume_rejected e w i job h reply now1 now2 :
  FacilitatorService.verified
    (FacilitatorService.verifyPayment e h i reply) = false ->
  JobController.getJob_resume e i job h reply now1 now2 w =
  (PaymentRequired
     (Some (or_default
              (FacilitatorService.error
                 (FacilitatorService.verifyPayment e h i reply))
              "Payment verification failed"))
     (FacilitatorService.getPaymentInstructions e) i None, w).
Proof.
  intros V. unfold JobController.getJob_resume. now rewrite V.
Qed.

(** C5. A fetch of a job in [pending_payment] with no payment header, or
    with one that the facilitator does not verify (it rejects it, answers
    with an error, or the call fails), is answered 402 with the payment
    instructions and the job identifier, and with the reason of the
    rejection in the second case; neither part of the handler changes
    anything, whenever the second part runs. *)
Theorem getJob_unpaid_payment_required :
  forall (e : Env) (w : World) (i : string) (h : option string)
         (reply : FacilitatorService.FacilitatorReply) (now1 now2 : Date)
         (job : OracleJob),
    i <> "" ->
    JobService.getJob (jobs w) i = Some job ->
    status job = pending_payment ->
    let v := FacilitatorService.verifyPayment e (or_else h "") i reply in
    let instructions := FacilitatorService.getPaymentInstructions e in
    (str_truthy h = false ->
     JobController.getJob e i h reply now1 now2 w =
     (PaymentRequired None instructions i
        (Some "Payment required to access this resource"), w))
    /\ (str_truthy h = true -> FacilitatorService.verified v = false ->
        let answer402 :=
          PaymentRequired
            (Some (or_default (FacilitatorService.error v)
                     "Payment verification failed")) instructions i None in
        JobController.getJob e i h reply now1 now2 w = (answer402, w)
        /\ JobController.getJob_begin e i h w =
           (inr (AwaitVerify i job (or_else h "")), w)
        /\ forall w2,
             JobController.resume e (AwaitVerify i job (or_else h ""))
               reply now1 now2 w2 = (answer402, w2))
    /\ (forall st reason,
          env_mode e = live -> str_truthy (FACILITATOR_URL e) = true ->
          reason <> "" ->
          FacilitatorService.verifyPayment e (or_else h "") i
            (FacilitatorService.NotOk st (Some reason))
          = FacilitatorService.mkVerification false None (Some reason)).
Proof.
  intros e w i h reply now1 now2 job N G S v instructions.
  split; [|split].
  - intros H. unfold JobController.getJob, JobController.run_to_answer, bind.
    now rewrite (getJob_begin_unpaid_no_header e w i h job N G S H).
  - intros H V answer402. repeat split.
    + unfold JobController.getJob, JobController.run_to_answer, bind.
      rewrite (getJob_begin_unpaid_header e w i h job N G S H).
      simpl. now apply getJob_resume_rejected.
    + now apply getJob_begin_unpaid_header.
    + intros w2. simpl. now apply getJob_resume_rejected.
  - intros st reason L U R. unfold FacilitatorService.verifyPayment.
    rewrite L, U. unfold or_default. simpl.
    apply String.eqb_neq in R. now rewrite R.
Qed.

Lemma getJob_unpaid_payment_required_witness :
  let w := mkWorld [("j1", Examples.job1)] [] [] [Stored "j1" pending_payment] in
  JobController.getJob Examples.env_live "j1" None Examples.rejected 20 21 w
  = (PaymentRequired None
       (FacilitatorService.getPaymentInstructions Examples.env_live) "j1"
       (Some "Payment required to access this resource"), w)
  /\ JobController.getJob Examples.env_live "j1" (Some "proof-a")
       Examples.rejected 20 21 w
     = (PaymentRequired (Some "insufficient amount")
          (FacilitatorService.getPaymentInstructions Examples.env_live)
          "j1" None, w).
Proof.
  intros w.
  pose proof (getJob_unpaid_payment_required Examples.env_live w "j1" None
                Examples.rejected 20 21 Examples.job1) as A.
  pose proof (getJob_unpaid_payment_required Examples.env_live w "j1"
                (Some "proof-a") Examples.rejected 20 21 Examples.job1) as B.
  split.
  - apply A; [discriminate | reflexivity | reflexivity | reflexivity].
  - apply B; [discriminate | reflexivity | reflexivity | reflexivity
             | reflexivity].
Defined.

(** ** What each handler does to the world *)

Lemma set_set {V : Type} (m : JsMap.t V) k a b :
  JsMap.set (JsMap.set m k a) k b = JsMap.set m k b.
Proof.
  induction m as [|[k' v'] m IH]; simpl.
  - now rewrite String.eqb_refl.
  - destruct (String.eqb k' k) eqn:E; simpl.
    + now rewrite String.eqb_refl.
    + now rewrite E, IH.
Qed.

Lemma confirmAndQueue_stored i job now1 now2 w stored :
  JobService.getJob (jobs w) i = Some stored ->
  JobController.confirmAndQueue i job now1 now2 w =
  (OkJob (Some (paid_job stored now1 now2)),
   mkWorld (JsMap.set (jobs w) i (paid_job stored now1 now2))
     (JsMap.delete (cache w) (cacheKey i))
     (queue w ++ [job])%list
     (Submitted job :: Stored i query_in_progress
        :: Stored i payment_confirmed :: log w)).
Proof.
  intros G. unfold JobController.confirmAndQueue, bind, Jobs.updateJob.
  rewrite (updateJob_found _ _ _ _ _ G). cbn [jobs cache queue log].
  rewrite (updateJob_found _ i _ now2
             (spread stored (only_status payment_confirmed) now1))
    by (unfold JobService.getJob; apply get_set_same).
  cbn. unfold JobService.getJob. rewrite set_set, get_set_same.
  reflexivity.
Qed.

Lemma confirmAndQueue_unknown i job now1 now2 w :
  JobService.getJob (jobs w) i = None ->
  JobController.confirmAndQueue i job now1 now2 w =
  (OkJob None,
   mkWorld (jobs w) (JsMap.delete (cache w) (cacheKey i))
     (queue w ++ [job])%list (Submitted job :: log w)).
Proof.
  intros G. unfold JobController.confirmAndQueue, bind, Jobs.updateJob.
  rewrite (updateJob_unknown _ _ _ _ G). cbn [jobs cache queue log].
  rewrite (updateJob_unknown _ _ _ _ G).
  unfold JobService.getJob in G. cbn. now rewrite G.
Qed.

Lemma getJob_begin_frame e i h w :
  let out := JobController.getJob_begin e i h w in
  jobs (snd out) = jobs w /\ queue (snd out) = queue w
  /\ log (snd out) = log w
  /\ match fst out with
     | inl _ => True
     | inr (AwaitVerify i' job h') =>
         i' = i /\ h = Some h' /\ h' <> ""
         /\ JobService.getJob (jobs w) i = Some job
         /\ status job = pending_payment /\ snd out = w
     | inr (AwaitConfirm _ _) => False
     end.
Proof.
  unfold JobController.getJob_begin, validateJobId.
  destruct (String.eqb i ""); [simpl; auto|].
  unfold bind, Jobs.getJob.
  destruct (JobService.getJob (jobs w) i) as [job|] eqn:G; [|simpl; auto].
  destruct (JobStatus_eqb (status job) pending_payment) eqn:S;
    destruct (str_truthy h) eqn:H; simpl; auto.
  - repeat split; auto.
    + destruct h as [s|]; simpl in *; [reflexivity | discriminate].
    + destruct h as [s|]; simpl in *; [|discriminate].
      intros ->. discriminate.
    + destruct (status job); auto; discriminate.
  - unfold CacheService.get.
    destruct (JsMap.get (cache w) (cacheKey i)); simpl; auto.
    rewrite G. simpl. auto.
  - unfold CacheService.get.
    destruct (JsMap.get (cache w) (cacheKey i)); simpl; auto.
    rewrite G. simpl. auto.
Qed.

Lemma confirmPayment_begin_frame i w :
  let out := JobController.confirmPayment_begin i w in
  snd out = w
  /\ match fst out with
     | inl _ => True
     | inr (AwaitConfirm i' job) =>
         i' = i /\ JobService.getJob (jobs w) i = Some job
         /\ status job = pending_payment
     | inr (AwaitVerify _ _ _) => False
     end.
Proof.
  unfold JobController.confirmPayment_begin, validateJobId.
  destruct (String.eqb i ""); [simpl; auto|].
  unfold bind, Jobs.getJob.
  destruct (JobService.getJob (jobs w) i) as [job|] eqn:G; [|simpl; auto].
  destruct (JobStatus_eqb (status job) pending_payment) eqn:S; simpl; auto.
  repeat split; auto. destruct (status job); auto; discriminate.
Qed.

Lemma listJobs_answer q w :
  JobController.listJobs q w =
  (OkList None (JobController.int_or (q_limit q) 50)
     (JobController.int_or (q_offset q) 0) None false, w).
Proof. reflexivity. Qed.

Lemma createJob_world e body nanoid now w :
  snd (JobController.createJob e body nanoid now w) = w
  \/ exists ty params,
       snd (JobController.createJob e body nanoid now w) =
       mkWorld
         (JsMap.set (jobs w) nanoid
            (mkJob nanoid ty params pending_payment None now now))
         (cache w) (queue w) (Stored nanoid pending_payment :: log w).
Proof.
  unfold JobController.createJob.
  destruct (validateCreateJob body) as [err|[ty params]]; [now left|].
  destruct (JobController.checkParameters ty params); [now left|].
  right. exists ty, params. reflexivity.
Qed.

Lemma finish_idle k o now w :
  nth_error (queue w) k = None -> Worker.finish k o now w = (tt, w).
Proof.
  intros N. unfold Worker.finish. now rewrite N.
Qed.

Lemma finish_stored k o now w job stored :
  nth_error (queue w) k = Some job ->
  JobService.getJob (jobs w) (id job) = Some stored ->
  Worker.finish k o now w =
  (tt, mkWorld
         (JsMap.set (jobs w) (id job)
            (spread stored (Worker.outcome_update o) now))
         (JsMap.delete (cache w) (cacheKey (id job)))
         (remove_nth k (queue w))
         (Stored (id job) (status (spread stored (Worker.outcome_update o) now))
            :: log w)).
Proof.
  intros N G. unfold Worker.finish, bind, Jobs.updateJob. rewrite N.
  cbn [jobs cache queue log].
  now rewrite (updateJob_found _ _ _ _ _ G).
Qed.

Lemma finish_unknown k o now w job :
  nth_error (queue w) k = Some job ->
  JobService.getJob (jobs w) (id job) = None ->
  Worker.finish k o now w =
  (tt, mkWorld (jobs w) (JsMap.delete (cache w) (cacheKey (id job)))
         (remove_nth k (queue w)) (log w)).
Proof.
  intros N G. unfold Worker.finish, bind, Jobs.updateJob. rewrite N.
  cbn [jobs cache queue log].
  now rewrite (updateJob_unknown _ _ _ _ G).
Qed.

Lemma outcome_status stored o now :
  let done := spread stored (Worker.outcome_update o) now in
  id done = id stored /\ (status done = completed \/ status done = failed).
Proof.
  destruct o; simpl; auto.
Qed.

(** ** Counting in the queue and in the history *)

Lemma queued_app i q job :
  queued i (q ++ [job]) =
  (queued i q + (if String.eqb (id job) i then 1 else 0))%nat.
Proof.
  unfold queued. rewrite filter_app, length_app. simpl.
  destruct (String.eqb (id job) i); reflexivity.
Qed.

Lemma queued_remove_nth i :
  forall q k job,
    nth_error q k = Some job ->
    queued i q =
    (queued i (remove_nth k q) + (if String.eqb (id job) i then 1 else 0))%nat.
Proof.
  unfold queued. induction q as [|a q IH]; intros k job N.
  - destruct k; discriminate.
  - destruct k as [|k]; simpl in N.
    + inversion N; subst a. simpl.
      destruct (String.eqb (id job) i); simpl; lia.
    + simpl. specialize (IH k job N).
      destruct (String.eqb (id a) i); simpl; lia.
Qed.

Lemma remove_nth_In {A : Type} (a : A) :
  forall l k, In a (remove_nth k l) -> In a l.
Proof.
  induction l as [|b l IH]; intros k H; simpl in *.
  - destruct k; auto.
  - destruct k; simpl in H; auto. destruct H; auto. right. eauto.
Qed.

Lemma trail_stored i k s l :
  trail i (Stored k s :: l) =
  if String.eqb k i then s :: trail i l else trail i l.
Proof. reflexivity. Qed.

Lemma dispatches_submitted i job l :
  dispatches i (Submitted job :: l) =
  if String.eqb (id job) i then S (dispatches i l) else dispatches i l.
Proof. reflexivity. Qed.

(** ** Requests handled one after the other *)

Lemma settled_frame i w w' :
  JobService.getJob (jobs w') i = JobService.getJob (jobs w) i ->
  trail i (log w') = trail i (log w) ->
  queued i (queue w') = queued i (queue w) ->
  dispatches i (log w') = dispatches i (log w) ->
  settled i w -> settled i w'.
Proof.
  unfold settled. intros -> -> -> ->. auto.
Qed.

Lemma settled_init : Settled init.
Proof.
  intros i. unfold settled. simpl. auto.
Qed.

Lemma queued_waiting w k job :
  Settled w -> nth_error (queue w) k = Some job ->
  exists stored,
    JobService.getJob (jobs w) (id job) = Some stored
    /\ id stored = id job
    /\ status stored = query_in_progress
    /\ trail (id job) (log w) =
       [query_in_progress; payment_confirmed; pending_payment]
    /\ queued (id job) (remove_nth k (queue w)) = 0%nat
    /\ dispatches (id job) (log w) = 1%nat.
Proof.
  intros HS N. pose proof (HS (id job)) as H.
  pose proof (queued_remove_nth (id job) _ _ _ N) as Q.
  rewrite String.eqb_refl in Q. unfold settled in H.
  destruct (JobService.getJob (jobs w) (id job)) as [stored|].
  - exists stored. destruct H as [I H].
    destruct (status stored); try (exfalso; lia); try contradiction.
    destruct H as (T & C & D). repeat split; auto. lia.
  - exfalso. lia.
Qed.

Lemma Move_Settled w w' : Settled w -> Move w w' -> Settled w'.
Proof.
  intros HS M i'. destruct M as [J Q L|job G S J Q L|i job paid G S I P J Q L
                                |k job stored done N G I D J Q L].
  - apply (settled_frame i' w); [congruence .. | apply HS].
  - destruct (String.eqb_spec (id job) i') as [E|E].
    + pose proof (HS i') as H. unfold settled in H. subst i'.
      rewrite G in H. destruct H as (T & C & D).
      unfold settled, JobService.getJob. rewrite J, Q, L, get_set_same.
      rewrite S, trail_stored, String.eqb_refl, T. simpl. auto.
    + apply (settled_frame i' w); auto.
      * unfold JobService.getJob. rewrite J. now apply get_set_other.
      * rewrite L, trail_stored. apply String.eqb_neq in E. now rewrite E.
      * now rewrite Q.
      * now rewrite L.
  - pose proof (HS i) as H. unfold settled in H. rewrite G, S in H.
    destruct H as (Ij & T & C & D).
    destruct (String.eqb_spec i i') as [E|E].
    + subst i'. unfold settled, JobService.getJob.
      rewrite J, Q, L, get_set_same, P. split; [congruence|].
      rewrite dispatches_submitted, queued_app, Ij, String.eqb_refl.
      simpl. rewrite String.eqb_refl, T, C, D. auto.
    + assert (Ne : String.eqb i i' = false) by now apply String.eqb_neq.
      apply (settled_frame i' w); auto.
      * unfold JobService.getJob. rewrite J. now apply get_set_other.
      * rewrite L. simpl. now rewrite Ne.
      * rewrite Q, queued_app, Ij, Ne. lia.
      * rewrite L, dispatches_submitted, Ij, Ne. reflexivity.
  - destruct (queued_waiting _ _ _ HS N) as (st & G' & Is & Ss & T & C & Dn).
    rewrite G in G'. inversion G'; subst st. clear G'.
    destruct (String.eqb_spec (id job) i') as [E|E].
    + subst i'. unfold settled, JobService.getJob.
      rewrite J, Q, L, get_set_same. split; [congruence|].
      rewrite trail_stored, String.eqb_refl, T, C. simpl. rewrite Dn.
      destruct D as [-> | ->]; auto.
    + assert (Ne : String.eqb (id job) i' = false) by now apply String.eqb_neq.
      apply (settled_frame i' w); auto.
      * unfold JobService.getJob. rewrite J. now apply get_set_other.
      * rewrite L, trail_stored. now rewrite Ne.
      * rewrite Q. pose proof (queued_remove_nth i' _ _ _ N) as R.
        rewrite Ne in R. lia.
      * now rewrite L.
Qed.

Lemma Move_refl w : Move w w.
Proof. now apply MoveCache. Qed.

Lemma confirmAndQueue_Move i job now1 now2 w :
  JobService.getJob (jobs w) i = Some job ->
  status job = pending_payment ->
  Move w (snd (JobController.confirmAndQueue i job now1 now2 w)).
Proof.
  intros G S. rewrite (confirmAndQueue_stored _ _ _ _ _ _ G).
  now apply (MovePay w _ i job (paid_job job now1 now2)).
Qed.

Lemma resume_Move e s reply now1 now2 w :
  match s with
  | AwaitVerify i job _ | AwaitConfirm i job =>
      JobService.getJob (jobs w) i = Some job /\ status job = pending_payment
  end ->
  Move w (snd (JobController.resume e s reply now1 now2 w)).
Proof.
  destruct s as [i job h|i job]; intros [G S]; simpl.
  - unfold JobController.getJob_resume.
    destruct (negb (FacilitatorService.verified
                      (FacilitatorService.verifyPayment e h i reply))).
    + apply Move_refl.
    + now apply confirmAndQueue_Move.
  - unfold JobController.confirmPayment_resume.
    now apply confirmAndQueue_Move.
Qed.

Lemma exec_Move e w o :
  Settled w ->
  (forall body nanoid now,
     o = Create body nanoid now -> JsMap.get (jobs w) nanoid = None) ->
  Move w (exec e w o).
Proof.
  intros HS F.
  destruct o as [body nanoid now|i h reply now1 now2|i now1 now2|q|k o now|key];
    simpl.
  - destruct (createJob_world e body nanoid now w) as [->|(ty & params & ->)].
    + apply Move_refl.
    + apply (MoveCreate w _
               (mkJob nanoid ty params pending_payment None now now));
        try reflexivity.
      exact (F _ _ _ eq_refl).
  - unfold JobController.getJob, JobController.run_to_answer, bind.
    pose proof (getJob_begin_frame e i h w) as B.
    destruct (JobController.getJob_begin e i h w) as [[resp|s] w1];
      simpl in B |- *.
    + destruct B as (J & Q & L & _). now apply MoveCache.
    + destruct s as [i' job h'|i' job]; [|now destruct B as (_ & _ & _ & [])].
      destruct B as (_ & _ & _ & -> & _ & _ & G & S & ->).
      apply resume_Move. auto.
  - unfold JobController.confirmPayment, JobController.run_to_answer, bind.
    pose proof (confirmPayment_begin_frame i w) as B.
    destruct (JobController.confirmPayment_begin i w) as [[resp|s] w1];
      simpl in B |- *.
    + destruct B as [-> _]. apply Move_refl.
    + destruct s as [i' job h'|i' job]; [now destruct B as (_ & [])|].
      destruct B as (-> & -> & G & S).
      apply resume_Move. auto.
  - apply Move_refl.
  - destruct (nth_error (queue w) k) as [job|] eqn:N.
    + destruct (queued_waiting _ _ _ HS N) as (stored & G & I & _).
      rewrite (finish_stored _ _ _ _ _ _ N G).
      destruct (outcome_status stored o now) as [Id D].
      now apply (MoveFinish w _ k job stored
                   (spread stored (Worker.outcome_update o) now)).
    + rewrite (finish_idle _ _ _ _ N). apply Move_refl.
  - now apply MoveCache.
Qed.

Lemma exec_all_Settled e ops :
  forall w, Settled w -> fresh_draws e ops w = true ->
            Settled (exec_all e ops w).
Proof.
  induction ops as [|o ops IH]; intros w HS F; [exact HS|].
  cbn [fresh_draws] in F. apply andb_true_iff in F. destruct F as [F1 F2].
  cbn [exec_all fold_left]. apply IH; auto.
  apply (Move_Settled w); auto. apply exec_Move; auto.
  intros body nanoid now ->.
  destruct (JsMap.get (jobs w) nanoid); [discriminate|reflexivity].
Qed.

(** The scheduler, given the steps of requests that do not overlap, does
    what the handlers do when run from first line to answer. *)
Lemma run_serial e ops :
  forall n sys,
    waiting sys = [] ->
    world (run e (serial n ops) sys) = exec_all e ops (world sys)
    /\ waiting (run e (serial n ops) sys) = [].
Proof.
  induction ops as [|o ops IH]; intros n sys W; [now split|].
  cbn [serial]. unfold run in *. rewrite fold_left_app.
  cbn [exec_all fold_left].
  assert (S1 : forall sys', waiting sys' = [] ->
                world sys' = exec e (world sys) o ->
                world (fold_left (step e) (serial (S n) ops) sys')
                = fold_left (exec e) ops (exec e (world sys) o)
                /\ waiting (fold_left (step e) (serial (S n) ops) sys') = []).
  { intros sys' W' E. rewrite <- E. now apply IH. }
  destruct o as [body nanoid now|i h reply now1 now2|i now1 now2|q|k o now|key];
    cbn [fold_left step]; try (apply S1; [exact W | reflexivity]).
  - destruct (JobController.getJob_begin e i h (world sys)) as [[resp|s] w1]
      eqn:B; cbn [settle waiting world answers]; rewrite W;
      cbn [take_waiting]; rewrite ?Nat.eqb_refl;
      (apply S1; [reflexivity|]);
      unfold exec, JobController.getJob, JobController.run_to_answer, bind;
      rewrite B; reflexivity.
  - destruct (JobController.confirmPayment_begin i (world sys))
      as [[resp|s] w1] eqn:B; cbn [settle waiting world answers]; rewrite W;
      cbn [take_waiting]; rewrite ?Nat.eqb_refl;
      (apply S1; [reflexivity|]);
      unfold exec, JobController.confirmPayment, JobController.run_to_answer,
        bind;
      rewrite B; reflexivity.
Qed.

Lemma serial_Settled e ops :
  fresh_draws e ops init = true ->
  Settled (world (run e (serial 0 ops) start)).
Proof.
  intros F. rewrite (proj1 (run_serial e ops 0 start eq_refl)).
  apply exec_all_Settled; auto. apply settled_init.
Qed.

Lemma settled_bounds i w :
  settled i w ->
  (dispatches i (log w) <= 1)%nat
  /\ (entered i (log w) <= 1)%nat
  /\ chain_prefix (visited i w) = true
  /\ forall job, JobService.getJob (jobs w) i = Some job ->
       dispatches i (log w) =
       if JobStatus_eqb (status job) pending_payment then 0%nat else 1%nat.
Proof.
  unfold settled, entered, visited. intros H.
  destruct (JobService.getJob (jobs w) i) as [job|].
  - destruct H as [_ H].
    destruct (status job) eqn:S; try contradiction;
      destruct H as (-> & _ & ->); repeat split; auto;
      intros job' E; inversion E; subst job'; now rewrite S.
  - destruct H as (-> & _ & ->). repeat split; auto. discriminate.
Qed.

Lemma fetch_paid_job_frame e w i job h reply now1 now2 :
  JobService.getJob (jobs w) i = Some job ->
  status job <> pending_payment ->
  let w' := exec e w (Fetch i h reply now1 now2) in
  jobs w' = jobs w /\ queue w' = queue w /\ log w' = log w.
Proof.
  intros G S. simpl.
  unfold JobController.getJob, JobController.run_to_answer, bind.
  pose proof (getJob_begin_frame e i h w) as B.
  destruct (JobController.getJob_begin e i h w) as [[resp|s] w1];
    simpl in B |- *.
  - tauto.
  - exfalso. destruct s as [i' job' h'|i' job']; [|tauto].
    destruct B as (_ & _ & _ & _ & _ & _ & G' & S' & _).
    rewrite G in G'. inversion G'; subst job'. contradiction.
Qed.

Lemma confirm_paid_job_refused e w i job now1 now2 :
  i <> "" ->
  JobService.getJob (jobs w) i = Some job ->
  status job <> pending_payment ->
  JobController.confirmPayment e i now1 now2 w =
  (Failed (newBadRequestError
             ("Job is not in pending_payment status. Current status: "
              ++ status_name (status job))), w).
Proof.
  intros N G S.
  unfold JobController.confirmPayment, JobController.run_to_answer, bind,
    JobController.confirmPayment_begin.
  rewrite (validateJobId_ok _ N). unfold bind, Jobs.getJob. rewrite G.
  destruct (status job); try contradiction; reflexivity.
Qed.

(** The serial case, on the coarser steps. When the requests are handled
    one after the other, each to its answer, and no call fails (and [nanoid]
    draws unused identifiers), every job enters [query_in_progress] and is
    handed to the queue at most once: never while it is [pending_payment],
    exactly once when it has left that state. A later fetch of such a job
    changes neither the store, the queue nor the history, and a later
    confirmation is refused with a 400 error and changes nothing. *)
Lemma serial_dispatch_at_most_once :
  forall (e : Env) (ops : list Op),
    fresh_draws e ops init = true ->
    let w := world (run e (serial 0 ops) start) in
    (forall i,
       (dispatches i (log w) <= 1)%nat
       /\ (entered i (log w) <= 1)%nat
       /\ forall job, JobService.getJob (jobs w) i = Some job ->
            dispatches i (log w) =
            if JobStatus_eqb (status job) pending_payment
            then 0%nat else 1%nat)
    /\ (forall i job h reply now1 now2,
          i <> "" ->
          JobService.getJob (jobs w) i = Some job ->
          status job <> pending_payment ->
          (let w' := exec e w (Fetch i h reply now1 now2) in
           jobs w' = jobs w /\ queue w' = queue w /\ log w' = log w)
          /\ exists err,
               JobController.confirmPayment e i now1 now2 w = (Failed err, w)
               /\ statusCode err = 400%Z).
Proof.
  intros e ops F w. split.
  - intros i. pose proof (serial_Settled e ops F i) as H.
    apply settled_bounds in H. tauto.
  - intros i job h reply now1 now2 N G S. split.
    + now apply (fetch_paid_job_frame e w i job).
    + eexists. split.
      * now apply (confirm_paid_job_refused e w i job).
      * reflexivity.
Qed.

Lemma serial_dispatch_at_most_once_witness :
  let w := world (run Examples.env_demo (serial 0 Examples.paid_read_done)
                    start) in
  (dispatches "j1" (log w) <= 1)%nat
  /\ (entered "j1" (log w) <= 1)%nat
  /\ exists err,
       JobController.confirmPayment Examples.env_demo "j1" 50 51 w
       = (Failed err, w) /\ statusCode err = 400%Z.
Proof.
  intros w.
  pose proof (serial_dispatch_at_most_once Examples.env_demo
                Examples.paid_read_done eq_refl) as [A B].
  split; [apply (A "j1")|]. split; [apply (A "j1")|].
  apply (B "j1"
           (mkJob "j1" random Examples.random_1_402 completed
              (Some (JObject [("value", JNumber 7)])) 10%Z 40%Z)
           None Examples.no_reply 50%Z 51%Z);
    [discriminate | reflexivity | discriminate].
Defined.


(** The serial case, on the coarser steps. When the requests are handled
    one after the other, each to its answer (and [nanoid] draws unused
    identifiers), the states that a job visits are, in order, a prefix of
    [pending_payment], [payment_confirmed], [query_in_progress], then
    [completed] or [failed]. *)
Lemma serial_states_follow_chain :
  forall (e : Env) (ops : list Op) (i : string),
    fresh_draws e ops init = true ->
    chain_prefix (visited i (world (run e (serial 0 ops) start))) = true.
Proof.
  intros e ops i F. pose proof (serial_Settled e ops F i) as H.
  apply settled_bounds in H. tauto.
Qed.

Lemma serial_states_follow_chain_witness :
  chain_prefix
    (visited "j1"
       (world (run Examples.env_demo (serial 0 Examples.paid_read_done)
                 start))) = true
  /\ visited "j1"
       (world (run Examples.env_demo (serial 0 Examples.paid_read_done)
                 start))
     = [pending_payment; payment_confirmed; query_in_progress; completed].
Proof.
  split.
  - apply (serial_states_follow_chain Examples.env_demo
             Examples.paid_read_done "j1"). reflexivity.
  - reflexivity.
Defined.


(** ** Every interleaving of the coarser steps *)

Lemma take_waiting_In r :
  forall l s rest,
    take_waiting r l = Some (s, rest) ->
    In (r, s) l /\ forall x, In x rest -> In x l.
Proof.
  induction l as [|[r' s'] l IH]; intros s rest H; simpl in H.
  - discriminate.
  - destruct (Nat.eqb_spec r' r) as [->|N].
    + inversion H; subst. split; simpl; auto.
    + destruct (take_waiting r l) as [[s0 rest0]|]; [|discriminate].
      inversion H; subst. destruct (IH _ _ eq_refl) as [I R].
      split; simpl; auto. intros x [X|X]; auto.
Qed.

Lemma stored_after_set (m : JobService.Store) k v i :
  JobService.getJob m i <> None ->
  JobService.getJob (JsMap.set m k v) i <> None.
Proof.
  unfold JobService.getJob. rewrite get_set.
  destruct (String.eqb k i); auto. discriminate.
Qed.

Lemma pending_at_set m k v s :
  pending_at m s -> pending_at (JsMap.set m k v) s.
Proof.
  destruct s; simpl; intros (S & I & G); repeat split; auto;
    now apply stored_after_set.
Qed.

(** Writing, under a stored key, a job that carries the key as identifier
    keeps the invariant on the store and on the suspended handlers. *)
Lemma Coherent_write sys k v waiting' queue' log' cache' answers' :
  Coherent sys ->
  id v = k ->
  (forall x, In x waiting' -> In x (waiting sys)) ->
  Forall (fun job => status job = pending_payment) queue' ->
  handed_over_stale log' = true ->
  Coherent (mkSystem
              (mkWorld (JsMap.set (jobs (world sys)) k v) cache' queue' log')
              waiting' answers').
Proof.
  intros (A & B & C & D) I W Q L. repeat split; simpl; auto.
  - intros i job. unfold JobService.getJob. rewrite get_set.
    destruct (String.eqb_spec k i) as [->|N].
    + intros E. inversion E. now subst.
    + apply A.
  - intros r s H. apply pending_at_set. eapply B; eauto.
Qed.

Lemma Coherent_same_jobs sys w' waiting' answers' :
  Coherent sys ->
  jobs w' = jobs (world sys) ->
  (forall r s, In (r, s) waiting' ->
               In (r, s) (waiting sys) \/ pending_at (jobs (world sys)) s) ->
  Forall (fun job => status job = pending_payment) (queue w') ->
  handed_over_stale (log w') = true ->
  Coherent (mkSystem w' waiting' answers').
Proof.
  intros (A & B & C & D) J W Q L. repeat split; simpl; auto.
  - intros i job. rewrite J. apply A.
  - intros r s H. rewrite J. destruct (W _ _ H); eauto.
Qed.

Lemma Forall_remove_nth {A : Type} (P : A -> Prop) l k :
  Forall P l -> Forall P (remove_nth k l).
Proof.
  rewrite !Forall_forall. intros H x I. apply H.
  eapply remove_nth_In; eauto.
Qed.

Lemma resume_Coherent e sys s rest r reply now1 now2 :
  Coherent sys ->
  pending_at (jobs (world sys)) s ->
  (forall x, In x rest -> In x (waiting sys)) ->
  Coherent (answer r (mkSystem (world sys) rest (answers sys))
              (JobController.resume e s reply now1 now2 (world sys))).
Proof.
  intros HC P R. pose proof HC as (A & B & C & D).
  assert (Paid : forall i job,
             status job = pending_payment -> id job = i ->
             JobService.getJob (jobs (world sys)) i <> None ->
             Coherent (answer r (mkSystem (world sys) rest (answers sys))
                         (JobController.confirmAndQueue i job now1 now2
                            (world sys)))).
  { intros i job S I G.
    destruct (JobService.getJob (jobs (world sys)) i) as [stored|] eqn:E;
      [|contradiction].
    rewrite (confirmAndQueue_stored _ _ _ _ _ _ E). unfold answer. simpl.
    apply Coherent_write; auto.
    - simpl. now apply A.
    - apply Forall_app. split; auto.
    - simpl. rewrite S, I, String.eqb_refl. simpl. exact D. }
  destruct s as [i job h|i job]; destruct P as (S & I & G); simpl.
  - unfold JobController.getJob_resume.
    destruct (negb (FacilitatorService.verified
                      (FacilitatorService.verifyPayment e h i reply))).
    + unfold answer. simpl.
      apply (Coherent_same_jobs sys); auto.
    + now apply Paid.
  - unfold JobController.confirmPayment_resume. now apply Paid.
Qed.

Lemma step_Coherent e sys st : Coherent sys -> Coherent (step e sys st).
Proof.
  intros HC. pose proof HC as (A & B & C & D).
  destruct st as [r body nanoid now|r i h|r i|r q|r reply now1 now2|k o now
                 |key]; simpl.
  - unfold answer.
    destruct (createJob_world e body nanoid now (world sys))
      as [->|(ty & params & ->)].
    + apply (Coherent_same_jobs sys); auto.
    + apply Coherent_write; auto.
  - pose proof (getJob_begin_frame e i h (world sys)) as F.
    destruct (JobController.getJob_begin e i h (world sys)) as [[resp|s] w1];
      simpl in F |- *; destruct F as (J & Q & L & F).
    + apply (Coherent_same_jobs sys); auto; congruence.
    + destruct s as [i' job h'|]; [|contradiction].
      destruct F as (-> & _ & _ & G & S & ->).
      apply (Coherent_same_jobs sys); auto.
      intros r0 s0 [H|H]; auto. inversion H; subst. right. simpl.
      repeat split; auto. congruence.
  - pose proof (confirmPayment_begin_frame i (world sys)) as F.
    destruct (JobController.confirmPayment_begin i (world sys))
      as [[resp|s] w1]; simpl in F |- *; destruct F as (-> & F).
    + apply (Coherent_same_jobs sys); auto.
    + destruct s as [|i' job]; [contradiction|].
      destruct F as (-> & G & S).
      apply (Coherent_same_jobs sys); auto.
      intros r0 s0 [H|H]; auto. inversion H; subst. right. simpl.
      repeat split; auto. congruence.
  - unfold answer. simpl. apply (Coherent_same_jobs sys); auto.
  - destruct (take_waiting r (waiting sys)) as [[s rest]|] eqn:T; auto.
    apply take_waiting_In in T. destruct T as [I R].
    apply resume_Coherent; eauto.
  - destruct (nth_error (queue (world sys)) k) as [job|] eqn:N.
    + destruct (JobService.getJob (jobs (world sys)) (id job))
        as [stored|] eqn:G.
      * rewrite (finish_stored _ _ _ _ _ _ N G). simpl.
        apply Coherent_write; auto.
        -- destruct (outcome_status stored o now) as [-> _]. now apply A.
        -- now apply Forall_remove_nth.
      * rewrite (finish_unknown _ _ _ _ _ N G). simpl.
        apply (Coherent_same_jobs sys); auto.
        simpl. now apply Forall_remove_nth.
    + rewrite (finish_idle _ _ _ _ N). simpl.
      destruct sys; exact HC.
  - apply (Coherent_same_jobs sys); auto.
Qed.

Lemma run_Coherent e steps :
  forall sys, Coherent sys -> Coherent (run e steps sys).
Proof.
  induction steps as [|st steps IH]; intros sys HC; [exact HC|].
  cbn [run fold_left]. apply IH. now apply step_Coherent.
Qed.

Lemma Coherent_start : Coherent start.
Proof.
  repeat split; simpl; auto; try discriminate. intros r s [].
Qed.

(** On the coarser steps, where the part of a handler after the payment
    check runs without a break, the job value handed to the queue is the
    one the handler read before it suspended, whose status field is
    [pending_payment], and it is handed over right after the stored job of
    that identifier was written [query_in_progress]. When handlers take
    turns at every await this last part fails
    ([race_hands_over_after_rewrite]). *)
Lemma submitted_job_is_the_unpaid_snapshot :
  forall (e : Env) (steps : list Step),
    let w := world (run e steps start) in
    handed_over_stale (log w) = true
    /\ Forall (fun job => status job = pending_payment) (queue w).
Proof.
  intros e steps w.
  destruct (run_Coherent e steps start Coherent_start) as (_ & _ & C & D).
  auto.
Qed.

(** C6 as stated fails: after one paid fetch the queue holds the job with
    status [pending_payment], while the store has it in
    [query_in_progress]. *)
Lemma queue_receives_pending_payment :
  let w := world (run Examples.env_demo (serial 0 Examples.paid_once) start) in
  queue w = [Examples.job1]
  /\ status Examples.job1 = pending_payment
  /\ option_map status (JobService.getJob (jobs w) "j1")
     = Some query_in_progress.
Proof.
  repeat split.
Qed.

(** ** The cache *)






(** ** Listing *)

(** C7 fails on the program. [getAllJobs] takes no argument and returns the
    array of all jobs in creation order; [listJobs] passes it the limit, the
    offset and the filters all the same and reads [jobs] and [total] off the
    array. With three jobs stored and a page of one, the answer carries no
    jobs, no total and [hasMore = false], where the specification asks for
    the first job, a total of 3 and [hasMore = true]. *)
Theorem listJobs_reads_page_off_an_array :
  let w := exec_all Examples.env_demo Examples.three_jobs init in
  JobController.listJobs Examples.first_page w
  = (OkList None 1 0 None false, w)
  /\ map id (JobService.getAllJobs (jobs w)) = ["j1"; "j2"; "j3"]
  /\ map id (fst (Spec.list (jobs w) 1 0 None None)) = ["j1"]
  /\ snd (Spec.list (jobs w) 1 0 None None) = 3%nat
  /\ Spec.hasMore 1 0 3 = true.
Proof.
  repeat split.
Qed.

(* ------------------------------------------------------------------ *)
(** * Further properties of the code *)

(** ** The job store: order and keys *)

Lemma keys_set_present {V : Type} (m : JsMap.t V) k v :
  JsMap.get m k <> None -> JsMap.keys (JsMap.set m k v) = JsMap.keys m.
Proof.
  induction m as [|[k' v'] m IH]; simpl; intros H.
  - now elim H.
  - destruct (String.eqb_spec k' k) as [->|N]; simpl; auto.
    now rewrite IH.
Qed.

Lemma set_absent {V : Type} (m : JsMap.t V) k v :
  JsMap.get m k = None -> JsMap.set m k v = (m ++ [(k, v)])%list.
Proof.
  induction m as [|[k' v'] m IH]; simpl; intros H; auto.
  destruct (String.eqb k' k); [discriminate|]. now rewrite IH.
Qed.

Lemma get_not_in_keys {V : Type} (m : JsMap.t V) k :
  ~ In k (JsMap.keys m) -> JsMap.get m k = None.
Proof.
  intros N. destruct (JsMap.get m k) eqn:G; auto.
  elim N. eapply get_in_keys; eauto.
Qed.

Lemma keys_nth_values {V : Type} (m : JsMap.t V) :
  NoDup (JsMap.keys m) ->
  forall n k, nth_error (JsMap.keys m) n = Some k ->
  exists v, nth_error (JsMap.values m) n = Some v /\ JsMap.get m k = Some v.
Proof.
  induction m as [|[k' v'] m IH]; intros D n k H.
  - destruct n; discriminate.
  - simpl in D. inversion D as [|? ? Nin D']; subst.
    destruct n as [|n]; simpl in H |- *.
    + inversion H; subst. exists v'. now rewrite String.eqb_refl.
    + destruct (IH D' n k H) as (v & Hv & G). exists v. split; auto.
      destruct (String.eqb_spec k' k) as [->|_]; auto.
      exfalso. apply Nin. eapply nth_error_In; eauto.
Qed.

(** X1. [createJob] touches the one key of the identifier it is given:
    every other job stays as it was.  With an identifier that is not in use
    the new job comes last in [getAllJobs]; with one that is in use the job
    stored under it is replaced where it stands, and the number of jobs does
    not change. *)
Theorem createJob_adds_one_key :
  forall (jobs : JobService.Store) (ty : JobType)
         (params : list (string * JValue)) (nanoid : string) (now : Date),
    let created := JobService.createJob jobs ty params nanoid now in
    (forall k, k <> nanoid ->
       JobService.getJob (fst created) k = JobService.getJob jobs k)
    /\ (JobService.getJob jobs nanoid = None ->
        JobService.getAllJobs (fst created)
        = (JobService.getAllJobs jobs ++ [snd created])%list)
    /\ (JobService.getJob jobs nanoid <> None ->
        JsMap.keys (fst created) = JsMap.keys jobs
        /\ length (JobService.getAllJobs (fst created))
           = length (JobService.getAllJobs jobs)).
Proof.
  intros jobs ty params nanoid now created.
  unfold created, JobService.createJob, JobService.getJob,
    JobService.getAllJobs, JsMap.values. simpl. repeat split.
  - intros k N. apply get_set_other. congruence.
  - intros G. rewrite (set_absent _ _ _ G), map_app. reflexivity.
  - now apply keys_set_present.
  - rewrite !length_map.
    rewrite <- (length_map fst (JsMap.set jobs nanoid _)).
    rewrite <- (length_map fst jobs).
    change (map fst (JsMap.set jobs nanoid ?v))
      with (JsMap.keys (JsMap.set jobs nanoid v)).
    change (map fst jobs) with (JsMap.keys jobs).
    now rewrite keys_set_present.
Qed.

Lemma createJob_adds_one_key_witness :
  JobService.getAllJobs
    (fst (JobService.createJob [("j1", Examples.job1)] price
            Examples.price_sol "j2" 11))
  = [Examples.job1;
     mkJob "j2" price Examples.price_sol pending_payment None 11 11]
  /\ length (JobService.getAllJobs
               (fst (JobService.createJob [("j1", Examples.job1_in completed 40)]
                       price Examples.price_sol "j1" 50)))
     = 1%nat.
Proof.
  split.
  - apply (createJob_adds_one_key [("j1", Examples.job1)] price
             Examples.price_sol "j2" 11). reflexivity.
  - apply (createJob_adds_one_key [("j1", Examples.job1_in completed 40)]
             price Examples.price_sol "j1" 50). simpl. discriminate.
Defined.

(** X2. [updateJob] never adds, drops or moves a job: the keys of the store
    and their order are the same after it, whether the identifier is known
    or not and whatever the update carries. *)
Theorem updateJob_keeps_keys :
  forall (jobs : JobService.Store) (i : string) (u : PartialJob) (now : Date),
    JsMap.keys (fst (JobService.updateJob jobs i u now)) = JsMap.keys jobs.
Proof.
  intros jobs i u now. unfold JobService.updateJob.
  destruct (JsMap.get jobs i) as [job|] eqn:G; simpl; auto.
  apply keys_set_present. congruence.
Qed.

Lemma calls_keys_in_order cs :
  forall jobs,
    NoDup (JsMap.keys jobs ++ returned_ids cs) ->
    JsMap.keys (calls cs jobs) = (JsMap.keys jobs ++ returned_ids cs)%list.
Proof.
  induction cs as [|c cs IH]; intros jobs D; simpl.
  - now rewrite app_nil_r.
  - destruct c as [ty params nanoid now|i u now|i|]; simpl in *.
    + assert (G : JsMap.get jobs nanoid = None).
      { apply get_not_in_keys. intros I.
        apply NoDup_remove_2 in D. apply D. apply in_or_app. auto. }
      assert (K : JsMap.keys (JsMap.set jobs nanoid
                    (mkJob nanoid ty params pending_payment None now now))
                  = (JsMap.keys jobs ++ [nanoid])%list).
      { rewrite (set_absent _ _ _ G). unfold JsMap.keys.
        now rewrite map_app. }
      unfold calls in IH. rewrite IH; rewrite K, <- app_assoc; auto.
    + unfold calls in IH. rewrite IH; rewrite updateJob_keeps_keys; auto.
    + now apply IH.
    + now apply IH.
Qed.

(** X3. [getAllJobs] lists the jobs in the order of their creation: in a
    store built from the empty one by any calls of the service in which
    [createJob] drew distinct identifiers, the n-th job listed is the job
    stored under the n-th identifier drawn, and there are as many jobs as
    identifiers. *)
Theorem getAllJobs_in_creation_order :
  forall (cs : list SvcCall),
    NoDup (returned_ids cs) ->
    let jobs := calls cs JsMap.empty in
    length (JobService.getAllJobs jobs) = length (returned_ids cs)
    /\ forall n k, nth_error (returned_ids cs) n = Some k ->
         exists job, nth_error (JobService.getAllJobs jobs) n = Some job
                     /\ JobService.getJob jobs k = Some job.
Proof.
  intros cs D jobs.
  assert (K : JsMap.keys jobs = returned_ids cs)
    by (apply (calls_keys_in_order cs JsMap.empty); exact D).
  split.
  - unfold JobService.getAllJobs, JsMap.values. rewrite length_map.
    rewrite <- K. unfold JsMap.keys. now rewrite length_map.
  - intros n k H. rewrite <- K in H.
    apply keys_nth_values; auto. now rewrite K.
Qed.

Lemma getAllJobs_in_creation_order_witness :
  exists job,
    nth_error
      (JobService.getAllJobs
         (calls [CallCreate random Examples.random_1_402 "j1" 10;
                 CallCreate price Examples.price_sol "j2" 11;
                 CallUpdate "j1" (only_status completed) 12] JsMap.empty))
      1 = Some job
    /\ JobService.getJob
         (calls [CallCreate random Examples.random_1_402 "j1" 10;
                 CallCreate price Examples.price_sol "j2" 11;
                 CallUpdate "j1" (only_status completed) 12] JsMap.empty)
         "j2" = Some job.
Proof.
  apply (getAllJobs_in_creation_order
           [CallCreate random Examples.random_1_402 "j1" 10;
            CallCreate price Examples.price_sol "j2" 11;
            CallUpdate "j1" (only_status completed) 12]).
  - simpl. repeat constructor; simpl; intuition discriminate.
  - reflexivity.
Defined.

(** ** Creation requests *)

Lemma parse_type_names s :
  parse_type (JString s) <> None <->
  s = "random" \/ s = "price" \/ s = "webhook".
Proof.
  unfold parse_type.
  destruct (String.eqb_spec s "random") as [->|N1].
  { split; [auto | discriminate]. }
  destruct (String.eqb_spec s "price") as [->|N2].
  { split; [auto | discriminate]. }
  destruct (String.eqb_spec s "webhook") as [->|N3].
  { split; [auto | discriminate]. }
  split; [intros H; now elim H | intros [H|[H|H]]; contradiction].
Qed.

(** X4. A creation request whose body is not an object, whose [type] is not
    one of the strings [random], [price] and [webhook], or whose
    [parameters] is not an object (an array and [null] included) is refused
    with the 400 error "Invalid request data", before any check of the
    parameters, and nothing is created. *)
Theorem createJob_malformed_body :
  forall (e : Env) (body : JValue) (nanoid : string) (now : Date) (w : World),
    (forall fields, body = JObject fields ->
       (forall s, prop fields "type" = JString s ->
                  s <> "random" /\ s <> "price" /\ s <> "webhook")
       \/ (forall params, prop fields "parameters" <> JObject params)) ->
    JobController.createJob e body nanoid now w = (Failed invalid_request, w)
    /\ name invalid_request = ValidationError
    /\ statusCode invalid_request = 400%Z.
Proof.
  intros e body nanoid now w H. split; [|split; reflexivity].
  unfold JobController.createJob.
  assert (V : validateCreateJob body = inl invalid_request).
  { unfold validateCreateJob.
    destruct body as [| | | | |fields|]; try reflexivity.
    destruct (H fields eq_refl) as [T|P].
    - destruct (prop fields "type") as [| | | |s| |] eqn:E; try reflexivity.
      assert (N : parse_type (JString s) = None).
      { destruct (parse_type (JString s)) eqn:Q; auto.
        assert (Q' : parse_type (JString s) <> None) by congruence.
        apply parse_type_names in Q'. destruct (T s eq_refl) as (A & B & C).
        destruct Q' as [?|[?|?]]; contradiction. }
      now rewrite N.
    - destruct (parse_type (prop fields "type")); try reflexivity.
      destruct (prop fields "parameters") as [| | | | |params|] eqn:E;
        try reflexivity.
      now elim (P params). }
  now rewrite V.
Qed.

Lemma createJob_malformed_body_witness :
  JobController.createJob Examples.env_demo
    (JObject [("type", JString "random"); ("parameters", JArray [])])
    "j1" 10 init
  = (Failed invalid_request, init).
Proof.
  apply (createJob_malformed_body Examples.env_demo
           (JObject [("type", JString "random"); ("parameters", JArray [])])
           "j1" 10 init).
  intros fields E. inversion E; subst. right. simpl. discriminate.
Defined.

Lemma checkParameters_price params :
  JobController.checkParameters price params =
  match prop params "pair" with
  | JString s => if String.eqb s "" then Some price_error else None
  | _ => Some price_error
  end.
Proof.
  unfold JobController.checkParameters, price_error.
  destruct (prop params "pair") as [| |[]|q|s|f|a]; try reflexivity.
  - simpl. destruct (Qeq_bool q 0); reflexivity.
  - simpl. destruct (String.eqb s ""); reflexivity.
Qed.

(** X5. A creation request of kind [price] is refused with a 400 error, and
    nothing is created, exactly when [parameters.pair] is not a non-empty
    string; any non-empty string is accepted as the pair, known or not, and
    the job is created in [pending_payment] with the parameters as sent. *)
Theorem createJob_price_validation :
  forall (e : Env) (w : World) (fields params : list (string * JValue))
         (nanoid : string) (now : Date),
    prop fields "type" = JString "price" ->
    prop fields "parameters" = JObject params ->
    let out := JobController.createJob e (JObject fields) nanoid now w in
    ((forall s, prop params "pair" = JString s -> s = "") ->
     out = (Failed price_error, w) /\ statusCode price_error = 400%Z)
    /\ (forall s, prop params "pair" = JString s -> s <> "" ->
        exists job,
          fst out = Created nanoid pending_payment
                      (X402Service.createPaymentRequest e job)
          /\ parameters job = params
          /\ type job = price
          /\ JobService.getJob (jobs (snd out)) nanoid = Some job).
Proof.
  intros e w fields params nanoid now T O out. split.
  - intros H. split; [|reflexivity].
    apply (createJob_rejected e fields "price" price params); auto.
    rewrite checkParameters_price.
    destruct (prop params "pair") as [| | | |s| |]; try reflexivity.
    now rewrite (H s eq_refl).
  - intros s U N.
    exists (mkJob nanoid price params pending_payment None now now).
    unfold out.
    rewrite (createJob_accepted e fields "price" price params); auto.
    + simpl. repeat split; auto. unfold JobService.getJob. apply get_set_same.
    + rewrite checkParameters_price, U.
      apply String.eqb_neq in N. now rewrite N.
Qed.

Lemma createJob_price_validation_witness :
  JobController.createJob Examples.env_demo
    (Examples.create_body "price" [("pair", JNumber 7)]) "j1" 10 init
  = (Failed price_error, init)
  /\ exists job,
       fst (JobController.createJob Examples.env_demo
              (Examples.create_body "price" [("pair", JString "DOGE/XYZ")])
              "j1" 10 init)
       = Created "j1" pending_payment
           (X402Service.createPaymentRequest Examples.env_demo job)
       /\ parameters job = [("pair", JString "DOGE/XYZ")]
       /\ type job = price
       /\ JobService.getJob
            (jobs (snd (JobController.createJob Examples.env_demo
                          (Examples.create_body "price"
                             [("pair", JString "DOGE/XYZ")]) "j1" 10 init)))
            "j1" = Some job.
Proof.
  split.
  - apply (createJob_price_validation Examples.env_demo init
             [("type", JString "price");
              ("parameters", JObject [("pair", JNumber 7)])]
             [("pair", JNumber 7)] "j1" 10 eq_refl eq_refl).
    simpl. intros s H. discriminate H.
  - apply (proj2 (createJob_price_validation Examples.env_demo init
             [("type", JString "price");
              ("parameters", JObject [("pair", JString "DOGE/XYZ")])]
             [("pair", JString "DOGE/XYZ")] "j1" 10 eq_refl eq_refl)
             "DOGE/XYZ"); [reflexivity | discriminate].
Defined.

(** X6. Whenever a creation request is answered 201, the answer names the
    identifier drawn and the status [pending_payment], and asks for 0.003
    SOL at a payment URL that ends with the identifier, in demo mode and in
    live mode alike; the job is stored under the identifier, no other job
    changes, and neither the cache nor the queue is touched. *)
Theorem createJob_created_effect :
  forall (e : Env) (body : JValue) (nanoid : string) (now : Date) (w : World)
         (jobId : string) (st : JobStatus) (pr : PaymentRequest),
    let out := JobController.createJob e body nanoid now w in
    fst out = Created jobId st pr ->
    jobId = nanoid /\ st = pending_payment
    /\ pr_amount pr = (3 # 1000)%Q /\ pr_currency pr = "SOL"
    /\ (paymentUrl pr = "https://x402-demo.payment.example.com/pay/" ++ nanoid
        \/ paymentUrl pr = "https://x402.payment.example.com/pay/" ++ nanoid)
    /\ (exists job, JobService.getJob (jobs (snd out)) nanoid = Some job
                    /\ id job = nanoid /\ status job = pending_payment
                    /\ result job = None
                    /\ createdAt job = now /\ updatedAt job = now)
    /\ (forall k, k <> nanoid ->
          JobService.getJob (jobs (snd out)) k = JobService.getJob (jobs w) k)
    /\ cache (snd out) = cache w /\ queue (snd out) = queue w.
Proof.
  intros e body nanoid now w jobId st pr out. unfold out.
  unfold JobController.createJob.
  destruct (validateCreateJob body) as [err|[ty params]]; [discriminate|].
  destruct (JobController.checkParameters ty params); [discriminate|].
  unfold bind, Jobs.createJob, JobService.createJob, ret. simpl.
  intros E. inversion E; subst. clear E. repeat split.
  - unfold X402Service.createPaymentRequest.
    destruct (String.eqb (or_default (ORAXEL_MODE e) "demo") "demo");
      reflexivity.
  - unfold X402Service.createPaymentRequest.
    destruct (String.eqb (or_default (ORAXEL_MODE e) "demo") "demo");
      reflexivity.
  - unfold X402Service.createPaymentRequest.
    destruct (String.eqb (or_default (ORAXEL_MODE e) "demo") "demo");
      simpl; auto.
  - eexists. unfold JobService.getJob. rewrite get_set_same.
    repeat split.
  - intros k N. unfold JobService.getJob. apply get_set_other. congruence.
Qed.

Lemma createJob_created_effect_witness :
  exists job,
    JobService.getJob
      (jobs (snd (JobController.createJob Examples.env_live
                    (Examples.create_body "random" Examples.random_1_402)
                    "j1" 10 init))) "j1" = Some job
    /\ id job = "j1" /\ status job = pending_payment /\ result job = None
    /\ createdAt job = 10%Z /\ updatedAt job = 10%Z.
Proof.
  apply (createJob_created_effect Examples.env_live
           (Examples.create_body "random" Examples.random_1_402) "j1" 10 init
           "j1" pending_payment
           (mkPaymentRequest "https://x402.payment.example.com/pay/j1"
              (3 # 1000) "SOL")).
  reflexivity.
Defined.

(** X8. A fetch or a confirmation with an identifier that is not stored is
    answered with the 404 error "Job not found", and with the empty
    identifier with the 400 error "Invalid job ID"; the payment header plays
    no part and nothing changes. *)
Theorem unknown_job_not_found :
  forall (e : Env) (w : World) (i : string) (h : option string)
         (reply : FacilitatorService.FacilitatorReply) (now1 now2 : Date),
    (i <> "" -> JobService.getJob (jobs w) i = None ->
     JobController.getJob e i h reply now1 now2 w = (Failed job_not_found, w)
     /\ JobController.confirmPayment e i now1 now2 w
        = (Failed job_not_found, w)
     /\ message job_not_found = "Job not found"
     /\ http_status (Failed job_not_found) = 404%Z)
    /\ (JobController.getJob e "" h reply now1 now2 w
        = (Failed invalid_job_id, w)
        /\ JobController.confirmPayment e "" now1 now2 w
           = (Failed invalid_job_id, w)
        /\ http_status (Failed invalid_job_id) = 400%Z).
Proof.
  intros e w i h reply now1 now2. split.
  - intros N G. repeat split.
    + unfold JobController.getJob, JobController.run_to_answer, bind,
        JobController.getJob_begin.
      rewrite (validateJobId_ok _ N). unfold bind, Jobs.getJob.
      now rewrite G.
    + unfold JobController.confirmPayment, JobController.run_to_answer, bind,
        JobController.confirmPayment_begin.
      rewrite (validateJobId_ok _ N). unfold bind, Jobs.getJob.
      now rewrite G.
  - repeat split.
Qed.

Lemma unknown_job_not_found_witness :
  JobController.getJob Examples.env_demo "nope" (Some "proof-a")
    Examples.no_reply 20 21 init
  = (Failed job_not_found, init).
Proof.
  apply (unknown_job_not_found Examples.env_demo init "nope" (Some "proof-a")
           Examples.no_reply 20 21); [discriminate | reflexivity].
Defined.

(** ** Fetching a job that is paid *)

Lemma getJob_of_paid_job e w i h reply now1 now2 job :
  i <> "" ->
  JobService.getJob (jobs w) i = Some job ->
  status job <> pending_payment ->
  JobController.getJob e i h reply now1 now2 w =
  match JsMap.get (cache w) (cacheKey i) with
  | Some c => (OkJob (Some c), w)
  | None =>
      (OkJob (Some job),
       mkWorld (jobs w) (JsMap.set (cache w) (cacheKey i) job)
         (queue w) (log w))
  end.
Proof.
  intros N G S.
  unfold JobController.getJob, JobController.run_to_answer, bind,
    JobController.getJob_begin.
  rewrite (validateJobId_ok _ N). unfold bind, Jobs.getJob. rewrite G.
  assert (P : JobStatus_eqb (status job) pending_payment = false)
    by (destruct (status job); auto; contradiction).
  rewrite P, andb_false_r. cbn [andb].
  unfold CacheService.get.
  destruct (JsMap.get (cache w) (cacheKey i)); [reflexivity|].
  rewrite G. reflexivity.
Qed.

(** X9. Fetching a job that is no longer [pending_payment] is idempotent:
    the first fetch answers 200 with a snapshot, and a fetch that follows
    it, with or without a payment header, gives the same answer and leaves
    the world as the first one left it; neither touches the store, the
    queue or the history. *)
Theorem fetch_paid_job_idempotent :
  forall (e : Env) (w : World) (i : string) (h1 h2 : option string)
         (reply1 reply2 : FacilitatorService.FacilitatorReply)
         (a1 a2 b1 b2 : Date) (job : OracleJob),
    i <> "" ->
    JobService.getJob (jobs w) i = Some job ->
    status job <> pending_payment ->
    let first := JobController.getJob e i h1 reply1 a1 a2 w in
    let second := JobController.getJob e i h2 reply2 b1 b2 (snd first) in
    (exists snapshot, fst first = OkJob (Some snapshot))
    /\ second = (fst first, snd first)
    /\ jobs (snd first) = jobs w /\ queue (snd first) = queue w
    /\ log (snd first) = log w.
Proof.
  intros e w i h1 h2 reply1 reply2 a1 a2 b1 b2 job N G S first second.
  unfold second, first.
  rewrite (getJob_of_paid_job e w i h1 reply1 a1 a2 job N G S).
  destruct (JsMap.get (cache w) (cacheKey i)) as [c|] eqn:C.
  - cbn [fst snd].
    rewrite (getJob_of_paid_job e w i h2 reply2 b1 b2 job N G S), C.
    repeat split; eauto.
  - cbn [fst snd].
    match goal with
    | |- context [JobController.getJob e i h2 reply2 b1 b2 ?w1] =>
        rewrite (getJob_of_paid_job e w1 i h2 reply2 b1 b2 job N G S)
    end.
    cbn [cache]. rewrite get_set_same. repeat split; eauto.
Qed.

Lemma fetch_paid_job_idempotent_witness :
  let w := world Examples.cached_in_progress in
  JobController.getJob Examples.env_demo "j1" (Some "proof-b")
    Examples.no_reply 60 61
    (snd (JobController.getJob Examples.env_demo "j1" None
            Examples.no_reply 50 51 w))
  = (fst (JobController.getJob Examples.env_demo "j1" None
            Examples.no_reply 50 51 w),
     snd (JobController.getJob Examples.env_demo "j1" None
            Examples.no_reply 50 51 w)).
Proof.
  intros w.
  apply (fetch_paid_job_idempotent Examples.env_demo w "j1" None
           (Some "proof-b") Examples.no_reply Examples.no_reply 50 51 60 61
           (Examples.job1_in query_in_progress 21));
    [discriminate | reflexivity | discriminate].
Defined.

(** X10. For a job that is no longer [pending_payment], the cache is
    believed over the store: when an entry is cached under the key of the
    job, a fetch answers with that entry, whatever the stored job has
    become, and changes nothing. *)
Theorem fetch_answers_from_cache :
  forall (e : Env) (w : World) (i : string) (h : option string)
         (reply : FacilitatorService.FacilitatorReply) (now1 now2 : Date)
         (job cached : OracleJob),
    i <> "" ->
    JobService.getJob (jobs w) i = Some job ->
    status job <> pending_payment ->
    JsMap.get (cache w) (cacheKey i) = Some cached ->
    JobController.getJob e i h reply now1 now2 w = (OkJob (Some cached), w).
Proof.
  intros e w i h reply now1 now2 job cached N G S C.
  now rewrite (getJob_of_paid_job e w i h reply now1 now2 job N G S), C.
Qed.

Lemma fetch_answers_from_cache_witness :
  let w := mkWorld [("j1", Examples.job1_in completed 40)]
             [("job:j1", Examples.job1_in query_in_progress 21)] [] [] in
  JobController.getJob Examples.env_demo "j1" None Examples.no_reply 50 51 w
  = (OkJob (Some (Examples.job1_in query_in_progress 21)), w).
Proof.
  intros w.
  apply (fetch_answers_from_cache Examples.env_demo w "j1" None
           Examples.no_reply 50 51 (Examples.job1_in completed 40));
    [discriminate | reflexivity | discriminate | reflexivity].
Defined.

(** ** Paying *)

Lemma getJob_verified e w i h reply now1 now2 job :
  i <> "" ->
  JobService.getJob (jobs w) i = Some job ->
  status job = pending_payment ->
  str_truthy h = true ->
  FacilitatorService.verified
    (FacilitatorService.verifyPayment e (or_else h "") i reply) = true ->
  JobController.getJob e i h reply now1 now2 w =
  JobController.confirmAndQueue i job now1 now2 w.
Proof.
  intros N G S H V.
  unfold JobController.getJob, JobController.run_to_answer, bind.
  rewrite (getJob_begin_unpaid_header e w i h job N G S H). simpl.
  unfold JobController.getJob_resume. now rewrite V.
Qed.

Lemma confirmPayment_unpaid e w i now1 now2 job :
  i <> "" ->
  JobService.getJob (jobs w) i = Some job ->
  status job = pending_payment ->
  JobController.confirmPayment e i now1 now2 w =
  JobController.confirmAndQueue i job now1 now2 w.
Proof.
  intros N G S.
  unfold JobController.confirmPayment, JobController.run_to_answer, bind,
    JobController.confirmPayment_begin.
  rewrite (validateJobId_ok _ N). unfold bind, Jobs.getJob.
  rewrite G, S. reflexivity.
Qed.

(** X11. The two payment paths do the same thing: for a job in
    [pending_payment], a fetch whose payment header the facilitator
    verifies and a legacy confirmation give the same answer and leave the
    same world, when each runs with no other request in between. *)
Theorem payment_paths_agree :
  forall (e : Env) (w : World) (i : string) (h : option string)
         (reply : FacilitatorService.FacilitatorReply) (now1 now2 : Date)
         (job : OracleJob),
    i <> "" ->
    JobService.getJob (jobs w) i = Some job ->
    status job = pending_payment ->
    str_truthy h = true ->
    FacilitatorService.verified
      (FacilitatorService.verifyPayment e (or_else h "") i reply) = true ->
    JobController.getJob e i h reply now1 now2 w
    = JobController.confirmPayment e i now1 now2 w.
Proof.
  intros e w i h reply now1 now2 job N G S H V.
  rewrite (getJob_verified e w i h reply now1 now2 job N G S H V).
  now rewrite (confirmPayment_unpaid e w i now1 now2 job N G S).
Qed.

Lemma payment_paths_agree_witness :
  let w := mkWorld [("j1", Examples.job1)] [] [] [Stored "j1" pending_payment] in
  JobController.getJob Examples.env_demo "j1" (Some "proof-a")
    Examples.no_reply 20 21 w
  = JobController.confirmPayment Examples.env_demo "j1" 20 21 w.
Proof.
  intros w.
  apply (payment_paths_agree Examples.env_demo w "j1" (Some "proof-a")
           Examples.no_reply 20 21 Examples.job1);
    [discriminate | reflexivity | reflexivity | reflexivity | reflexivity].
Defined.

Lemma get_delete_other {V : Type} (m : JsMap.t V) k k' :
  k <> k' -> JsMap.get (JsMap.delete m k) k' = JsMap.get m k'.
Proof.
  intros N. induction m as [|[k0 v0] m IH]; simpl; auto.
  destruct (String.eqb_spec k0 k) as [->|N0]; simpl.
  - apply String.eqb_neq in N. now rewrite N.
  - now rewrite IH.
Qed.

(** X12. A confirmation of a job in [pending_payment], run with no other
    request in between, answers 200 with the job as it is stored
    afterwards: in [query_in_progress], with [updatedAt] the time of the
    second update, and with its identifier, type, parameters, result and
    [createdAt] untouched.  One entry is added at the end of the queue, the
    cache entry of the job is gone, and no other job and no other cache
    entry changes. *)
Theorem confirmPayment_effect :
  forall (e : Env) (w : World) (i : string) (now1 now2 : Date)
         (job : OracleJob),
    i <> "" ->
    JobService.getJob (jobs w) i = Some job ->
    status job = pending_payment ->
    let out := JobController.confirmPayment e i now1 now2 w in
    exists paid,
      fst out = OkJob (Some paid)
      /\ JobService.getJob (jobs (snd out)) i = Some paid
      /\ status paid = query_in_progress /\ updatedAt paid = now2
      /\ id paid = id job /\ type paid = type job
      /\ parameters paid = parameters job /\ result paid = result job
      /\ createdAt paid = createdAt job
      /\ queue (snd out) = (queue w ++ [job])%list
      /\ JsMap.get (cache (snd out)) (cacheKey i) = None
      /\ (forall k, k <> i ->
            JobService.getJob (jobs (snd out)) k = JobService.getJob (jobs w) k)
      /\ (forall key, key <> cacheKey i ->
            JsMap.get (cache (snd out)) key = JsMap.get (cache w) key).
Proof.
  intros e w i now1 now2 job N G S out. unfold out.
  rewrite (confirmPayment_unpaid e w i now1 now2 job N G S).
  rewrite (confirmAndQueue_stored _ _ _ _ _ _ G).
  exists (paid_job job now1 now2). cbn [fst snd jobs cache queue].
  unfold JobService.getJob. repeat split.
  - apply get_set_same.
  - apply get_delete_same.
  - intros k K. apply get_set_other. congruence.
  - intros key K. apply get_delete_other. congruence.
Qed.

Lemma confirmPayment_effect_witness :
  let w := mkWorld [("j1", Examples.job1)] [] [] [Stored "j1" pending_payment] in
  exists paid,
    fst (JobController.confirmPayment Examples.env_demo "j1" 20 21 w)
    = OkJob (Some paid)
    /\ status paid = query_in_progress /\ updatedAt paid = 21%Z.
Proof.
  intros w.
  destruct (confirmPayment_effect Examples.env_demo w "j1" 20 21 Examples.job1)
    as (paid & A & _ & B & C & _);
    [discriminate | reflexivity | reflexivity |].
  exists paid. auto.
Defined.

(** ** The facilitator *)

(** X13. [verifyPayment] accepts a payment exactly in three cases: the
    mode is demo, no facilitator URL is configured, or the facilitator
    answers ok with [verified] being [true] itself.  In the first two cases
    any header is accepted without a call and the transaction is named
    after the job; a refusal that comes from a non-ok answer or a failed
    call always carries a reason. *)
Theorem verifyPayment_accepts_iff :
  forall (e : Env) (h i : string) (reply : FacilitatorService.FacilitatorReply),
    let v := FacilitatorService.verifyPayment e h i reply in
    (FacilitatorService.verified v = true <->
     env_mode e = demo \/ str_truthy (FACILITATOR_URL e) = false
     \/ exists tx, reply = FacilitatorService.Ok (JBool true) tx)
    /\ (env_mode e = demo \/ str_truthy (FACILITATOR_URL e) = false ->
        v = FacilitatorService.mkVerification true
              (Some ("demo-tx-" ++ i)) None)
    /\ (FacilitatorService.verified v = false ->
        (forall r tx, reply <> FacilitatorService.Ok r tx) ->
        exists reason, FacilitatorService.error v = Some reason).
Proof.
  intros e h i reply v. unfold v, FacilitatorService.verifyPayment.
  destruct (env_mode e) eqn:M;
    destruct (str_truthy (FACILITATOR_URL e)) eqn:U; simpl.
  1,2,4: (split; [split; auto|split; [auto|discriminate]]).
  split; [|split].
  - split.
    + destruct reply as [st msg|r tx|msg]; simpl; try discriminate.
      destruct r as [| |[]| | | |]; simpl; try discriminate.
      intros _. right. right. eauto.
    + intros [D|[D|(tx & ->)]]; try discriminate. reflexivity.
  - intros [D|D]; discriminate.
  - intros _ N. destruct reply as [st msg|r tx|msg]; simpl; eauto.
    now elim (N r tx).
Qed.

Lemma verifyPayment_accepts_iff_witness :
  FacilitatorService.verifyPayment
    (mkEnv (Some "live") None None) "anything" "j1" Examples.rejected
  = FacilitatorService.mkVerification true (Some "demo-tx-j1") None
  /\ exists reason,
       FacilitatorService.error
         (FacilitatorService.verifyPayment Examples.env_live "proof-a" "j1"
            (FacilitatorService.Throws None)) = Some reason.
Proof.
  split.
  - apply (verifyPayment_accepts_iff (mkEnv (Some "live") None None)
             "anything" "j1" Examples.rejected). right. reflexivity.
  - apply (verifyPayment_accepts_iff Examples.env_live "proof-a" "j1"
             (FacilitatorService.Throws None));
      [reflexivity | discriminate].
Defined.

(** ** The client of the 402 protocol *)

Lemma no_url_verifies e h i reply :
  str_truthy (FACILITATOR_URL e) = false ->
  FacilitatorService.verifyPayment e h i reply
  = FacilitatorService.mkVerification true (Some ("demo-tx-" ++ i)) None.
Proof.
  intros U. unfold FacilitatorService.verifyPayment. rewrite U.
  destruct (env_mode e); reflexivity.
Qed.

(** X14. The challenge and the retry fit together when no facilitator URL
    is configured, in demo mode and in live mode alike: a fetch of an
    unpaid job without a header is answered 402 with instructions that name
    no facilitator; from those the client builds a proof, whatever its
    NODE_ENV; and the fetch that carries this proof is answered 200 with the
    job in [query_in_progress].  When a facilitator URL is configured, the
    client builds a proof in development only and throws otherwise. *)
Theorem challenge_then_retry :
  forall (e : Env) (w : World) (i : string) (job : OracleJob)
         (nodeEnv : option string) (stamp : string)
         (reply : FacilitatorService.FacilitatorReply) (now1 now2 : Date),
    i <> "" ->
    JobService.getJob (jobs w) i = Some job ->
    status job = pending_payment ->
    let instructions := FacilitatorService.getPaymentInstructions e in
    let challenge := JobController.getJob e i None reply now1 now2 w in
    let proof := "demo-payment-proof-" ++ i ++ "-" ++ stamp in
    snd challenge = w
    /\ X402Client.is402Response (http_status (fst challenge)) = true
    /\ (exists msg, fst challenge = PaymentRequired None instructions i msg)
    /\ (str_truthy (FACILITATOR_URL e) = false ->
        X402Client.processPaymentWithFacilitator nodeEnv instructions i stamp
        = inr proof
        /\ exists paid,
             fst (JobController.getJob e i (Some proof) reply now1 now2 w)
             = OkJob (Some paid)
             /\ status paid = query_in_progress
             /\ http_status (OkJob (Some paid)) = 200%Z)
    /\ (str_truthy (FACILITATOR_URL e) = true ->
        nodeEnv <> Some "development" ->
        X402Client.processPaymentWithFacilitator nodeEnv instructions i stamp
        = inl "Facilitator payment processing not yet implemented").
Proof.
  intros e w i job nodeEnv stamp reply now1 now2 N G S instructions challenge
    proof.
  assert (C : challenge =
              (PaymentRequired None instructions i
                 (Some "Payment required to access this resource"), w)).
  { unfold challenge, JobController.getJob, JobController.run_to_answer, bind.
    now rewrite (getJob_begin_unpaid_no_header e w i None job N G S eq_refl). }
  rewrite C. cbn [fst snd].
  split; [reflexivity|]. split; [reflexivity|]. split; [eauto|]. split.
  - intros U. split.
    + unfold X402Client.processPaymentWithFacilitator, instructions,
        FacilitatorService.getPaymentInstructions. rewrite U.
      cbn [facilitator]. now rewrite orb_true_r.
    + exists (paid_job job now1 now2).
      rewrite (getJob_verified e w i (Some proof) reply now1 now2 job N G S).
      * rewrite (confirmAndQueue_stored _ _ _ _ _ _ G). repeat split.
      * reflexivity.
      * cbn [or_else]. now rewrite (no_url_verifies e proof i reply U).
  - intros U D. unfold X402Client.processPaymentWithFacilitator, instructions,
      FacilitatorService.getPaymentInstructions. rewrite U. cbn [facilitator].
    rewrite orb_false_r. destruct nodeEnv as [v|]; auto.
    destruct (String.eqb_spec v "development") as [->|_]; auto.
    now elim D.
Qed.

Lemma challenge_then_retry_witness :
  let w := mkWorld [("j1", Examples.job1)] [] [] [Stored "j1" pending_payment] in
  X402Client.processPaymentWithFacilitator (Some "production")
    (FacilitatorService.getPaymentInstructions
       (mkEnv (Some "live") None None)) "j1" "1700000000000"
  = inr "demo-payment-proof-j1-1700000000000"
  /\ exists paid,
       fst (JobController.getJob (mkEnv (Some "live") None None) "j1"
              (Some "demo-payment-proof-j1-1700000000000")
              Examples.rejected 20 21 w)
       = OkJob (Some paid)
       /\ status paid = query_in_progress
       /\ http_status (OkJob (Some paid)) = 200%Z.
Proof.
  intros w.
  apply (challenge_then_retry (mkEnv (Some "live") None None) w "j1"
           Examples.job1 (Some "production") "1700000000000"
           Examples.rejected 20 21);
    [discriminate | reflexivity | reflexivity | reflexivity].
Defined.

(** ** The environment *)

Lemma or_default_nonempty o d : d <> "" -> or_default o d <> "".
Proof.
  intros D. unfold or_default, str_truthy.
  destruct o as [s|]; auto.
  destruct (String.eqb_spec s ""); simpl; auto.
Qed.

(** X15. Whatever the process environment holds and whatever [parseInt]
    makes of it, the configuration that [validateEnv] returns has a port
    between 1 and 65535 (3001 when PORT is unset, empty, not a number or out
    of range), a mode that is ["demo"] or ["live"], and non-empty NODE_ENV
    and CORS origin.  The mode is ["live"] exactly when ORAXEL_MODE is set
    to ["live"], which is also when the services run live; missing X402
    credentials in live mode only add a warning. *)
Theorem validateEnv_is_well_formed :
  forall (parseInt : string -> option Z) (p : EnvTs.ProcessEnv),
    let cfg := fst (EnvTs.validateEnv parseInt p) in
    (1 <= EnvTs.cfg_PORT cfg <= 65535)%Z
    /\ (str_truthy (EnvTs.PORT p) = false -> EnvTs.cfg_PORT cfg = 3001%Z)
    /\ (EnvTs.cfg_ORAXEL_MODE cfg = "demo"
        \/ EnvTs.cfg_ORAXEL_MODE cfg = "live")
    /\ (EnvTs.cfg_ORAXEL_MODE cfg = "live" <->
        EnvTs.ORAXEL_MODE p = Some "live")
    /\ (EnvTs.cfg_ORAXEL_MODE cfg = "live" <->
        env_mode (EnvTs.services_env p) = live)
    /\ EnvTs.cfg_NODE_ENV cfg <> ""
    /\ EnvTs.cfg_CORS_ORIGIN cfg <> "".
Proof.
  intros parseInt p cfg. unfold cfg, EnvTs.validateEnv. cbn [fst].
  cbn [EnvTs.cfg_PORT EnvTs.cfg_ORAXEL_MODE EnvTs.cfg_NODE_ENV
       EnvTs.cfg_CORS_ORIGIN].
  assert (Mode :
    forall o : option string,
      let m := or_default o "demo" in
      let m' := if EnvTs.invalid_mode m then "demo" else m in
      (m' = "demo" \/ m' = "live")
      /\ (m' = "live" <-> o = Some "live")
      /\ (m' = "live" <->
          match o with
          | Some s => if String.eqb s "live" then live else demo
          | None => demo
          end = live)).
  { intros o. unfold or_default, str_truthy, EnvTs.invalid_mode.
    destruct o as [s|]; simpl.
    - destruct (String.eqb_spec s "") as [->|Ne]; simpl.
      + repeat split; auto; discriminate.
      + destruct (String.eqb_spec s "demo") as [->|Nd]; simpl.
        * repeat split; auto; discriminate.
        * destruct (String.eqb_spec s "live") as [->|Nl]; simpl.
          -- repeat split; auto.
          -- repeat split; auto; try discriminate.
             intros E. inversion E. contradiction.
    - repeat split; auto; discriminate. }
  destruct (Mode (EnvTs.ORAXEL_MODE p)) as (M1 & M2 & M3).
  assert (Port : (1 <= (if EnvTs.invalid_port (EnvTs.required_PORT parseInt p)
                        then 3001
                        else or_else (EnvTs.required_PORT parseInt p) 3001)
                  <= 65535)%Z).
  { unfold EnvTs.invalid_port.
    destruct (EnvTs.required_PORT parseInt p) as [v|]; simpl; [|lia].
    destruct (Z.ltb_spec v 1); simpl; [lia|].
    destruct (Z.ltb_spec 65535 v); simpl; lia. }
  split; [exact Port|]. split.
  { intros U. unfold EnvTs.required_PORT. rewrite U. reflexivity. }
  split; [exact M1|]. split; [exact M2|]. split; [exact M3|].
  split; apply or_default_nonempty; discriminate.
Qed.

Lemma validateEnv_is_well_formed_witness :
  EnvTs.cfg_PORT
    (fst (EnvTs.validateEnv (fun _ => Some 70000%Z)
            (EnvTs.mkProcessEnv None None None (Some "LIVE") None None None
               None None)))
  = 3001%Z.
Proof.
  apply (validateEnv_is_well_formed (fun _ => Some 70000%Z)
           (EnvTs.mkProcessEnv None None None (Some "LIVE") None None None
              None None)).
  reflexivity.
Defined.

(** ** The oracle *)

(** X16. For a job whose parameters passed the checks of [createJob], the
    demo oracle never falls back on its defaults: a random result carries
    the [min] and [max] of the job, a price result its [pair], a webhook
    result its [url] and the identifier of the job.  In live mode the
    oracle fails for every job, with a message that names the type. *)
Theorem executeJob_echoes_parameters :
  forall (computed : JValue) (timestamp : string) (job : OracleJob),
    (JobController.checkParameters (type job) (parameters job) = None ->
     exists fields,
       OracleService.executeJob demo computed timestamp job
       = Succeeded (JObject fields)
       /\ prop fields "timestamp" = JString timestamp
       /\ match type job with
          | random =>
              prop fields "value" = computed
              /\ prop fields "min" = prop (parameters job) "min"
              /\ prop fields "max" = prop (parameters job) "max"
          | price =>
              prop fields "price" = computed
              /\ prop fields "pair" = prop (parameters job) "pair"
          | webhook =>
              prop fields "url" = prop (parameters job) "url"
              /\ prop fields "jobId" = JString (id job)
              /\ prop fields "status" = JString "queued"
          end)
    /\ OracleService.executeJob live computed timestamp job
       = Crashed ("Live mode not yet implemented for "
                  ++ type_name (type job) ++ " oracle").
Proof.
  intros computed timestamp job. split.
  - unfold OracleService.executeJob. destruct (type job).
    + rewrite checkParameters_random.
      unfold OracleService.executeRandomJob.
      destruct (prop (parameters job) "min") as [| | |a| | |]; try discriminate.
      destruct (prop (parameters job) "max") as [| | |b| | |]; try discriminate.
      intros _. eexists. split; [reflexivity|]. repeat split.
    + rewrite checkParameters_price.
      unfold OracleService.executePriceJob.
      destruct (prop (parameters job) "pair") as [| | | |s| |];
        try discriminate.
      intros _. eexists. split; [reflexivity|]. repeat split.
    + rewrite checkParameters_webhook.
      unfold OracleService.executeWebhookJob.
      destruct (prop (parameters job) "url") as [| | | |s| |] eqn:U;
        try discriminate.
      destruct (String.eqb s "") eqn:E; [discriminate|].
      intros _. eexists. split; [reflexivity|].
      unfold OracleService.or_value. simpl. rewrite E. simpl.
      repeat split.
  - unfold OracleService.executeJob. destruct (type job); reflexivity.
Qed.

Lemma executeJob_echoes_parameters_witness :
  exists fields,
    OracleService.executeJob demo (JNumber 18243) "2024-01-01T00:00:00.000Z"
      (mkJob "j2" price Examples.price_sol pending_payment None 11 11)
    = Succeeded (JObject fields)
    /\ prop fields "timestamp" = JString "2024-01-01T00:00:00.000Z"
    /\ prop fields "price" = JNumber 18243
    /\ prop fields "pair" = JString "SOL/USDC".
Proof.
  apply (proj1 (executeJob_echoes_parameters (JNumber 18243)
                  "2024-01-01T00:00:00.000Z"
                  (mkJob "j2" price Examples.price_sol pending_payment None
                     11 11))).
  reflexivity.
Defined.

(** ** The controller that runs the oracle inline *)

Lemma executeJob_outcome m computed timestamp job :
  match OracleService.executeJob m computed timestamp job with
  | Succeeded r => m = demo /\ exists fields, r = JObject fields
  | Crashed reason =>
      m = live
      /\ reason = "Live mode not yet implemented for "
                  ++ type_name (type job) ++ " oracle"
  end.
Proof.
  unfold OracleService.executeJob, OracleService.executeRandomJob,
    OracleService.executePriceJob, OracleService.executeWebhookJob.
  destruct (type job), m; simpl; eauto.
Qed.

Lemma inline_confirmPayment_unpaid e w i job now1 now2 now3 computed timestamp :
  i <> "" ->
  JobService.getJob (jobs w) i = Some job ->
  status job = pending_payment ->
  let o := OracleService.executeJob (env_mode e) computed timestamp job in
  let done := finished_job job o now1 now2 now3 in
  InlineController.confirmPayment e i now1 now2 now3 computed timestamp w =
  (OkJob (Some done),
   mkWorld (JsMap.set (jobs w) i done) (cache w) (queue w)
     (Stored i (status done) :: Stored i query_in_progress
        :: Stored i payment_confirmed :: log w)).
Proof.
  intros N G S o done.
  unfold InlineController.confirmPayment.
  rewrite (validateJobId_ok _ N). unfold bind, Jobs.getJob. rewrite G, S.
  cbn [JobStatus_eqb negb]. unfold Jobs.updateJob.
  rewrite (updateJob_found _ _ _ _ _ G). cbn [jobs cache queue log].
  rewrite (updateJob_found _ i _ now2
             (spread job (only_status payment_confirmed) now1))
    by (unfold JobService.getJob; apply get_set_same).
  cbn [jobs cache queue log]. rewrite set_set.
  fold (paid_job job now1 now2).
  assert (P : JobService.getJob (JsMap.set (jobs w) i (paid_job job now1 now2))
                i = Some (paid_job job now1 now2))
    by (unfold JobService.getJob; apply get_set_same).
  unfold done, finished_job, o.
  destruct (OracleService.executeJob (env_mode e) computed timestamp job)
    as [r|reason]; rewrite (updateJob_found _ _ _ _ _ P);
    cbn [jobs cache queue log]; rewrite set_set;
    unfold JobService.getJob; cbn [jobs]; rewrite get_set_same; reflexivity.
Qed.

(** X17. In the controller that runs the oracle inline, a confirmation of a
    job in [pending_payment] takes the job through [payment_confirmed] and
    [query_in_progress] to its end before it answers: the answer is the job
    as stored, [completed] with the result of the oracle in demo mode, and
    [failed] in live mode with the reason that the oracle for its type is
    not implemented.  The job is then returned by [getJob], and a second
    confirmation is refused with a 400 error that names its status. *)
Theorem inline_confirmPayment_runs_to_the_end :
  forall (e : Env) (w : World) (i : string) (job : OracleJob)
         (now1 now2 now3 : Date) (computed : JValue) (timestamp : string),
    i <> "" ->
    JobService.getJob (jobs w) i = Some job ->
    status job = pending_payment ->
    let out :=
      InlineController.confirmPayment e i now1 now2 now3 computed timestamp w in
    exists done,
      fst out = OkJob (Some done)
      /\ JobService.getJob (jobs (snd out)) i = Some done
      /\ trail i (log (snd out))
         = status done :: query_in_progress :: payment_confirmed
             :: trail i (log w)
      /\ (env_mode e = demo ->
          status done = completed
          /\ exists fields, result done = Some (JObject fields))
      /\ (env_mode e = live ->
          status done = failed
          /\ result done
             = Some (JObject
                       [("error",
                         JString ("Live mode not yet implemented for "
                                  ++ type_name (type job) ++ " oracle"))]))
      /\ InlineController.getJob i (snd out) = (OkJob (Some done), snd out)
      /\ InlineController.confirmPayment e i now1 now2 now3 computed
           timestamp (snd out)
         = (Failed (newBadRequestError
                      ("Job is not in pending_payment status. Current status: "
                       ++ status_name (status done))), snd out).
Proof.
  intros e w i job now1 now2 now3 computed timestamp N G S out.
  unfold out.
  rewrite (inline_confirmPayment_unpaid e w i job now1 now2 now3 computed
             timestamp N G S).
  cbn [fst snd].
  pose proof (executeJob_outcome (env_mode e) computed timestamp job) as O.
  set (o := OracleService.executeJob (env_mode e) computed timestamp job) in *.
  set (done := finished_job job o now1 now2 now3).
  assert (Gd : JobService.getJob (JsMap.set (jobs w) i done) i = Some done)
    by (unfold JobService.getJob; apply get_set_same).
  assert (Sd : status done <> pending_payment)
    by (unfold done, finished_job; destruct o; simpl; discriminate).
  exists done. split; [reflexivity|]. split; [exact Gd|]. split.
  { cbn [log trail]. now rewrite String.eqb_refl. }
  split; [|split; [|split]].
  - intros D. unfold done, finished_job.
    destruct o as [r|reason].
    + destruct O as (_ & fields & ->). simpl. eauto.
    + destruct O as [L _]. rewrite D in L. discriminate.
  - intros L. unfold done, finished_job.
    destruct o as [r|reason].
    + destruct O as [D _]. rewrite D in L. discriminate.
    + destruct O as [_ ->]. simpl. auto.
  - unfold InlineController.getJob. rewrite (validateJobId_ok _ N).
    unfold bind, Jobs.getJob. cbn [jobs]. now rewrite Gd.
  - unfold InlineController.confirmPayment. rewrite (validateJobId_ok _ N).
    unfold bind, Jobs.getJob. cbn [jobs]. rewrite Gd.
    destruct (status done); try contradiction; reflexivity.
Qed.

Lemma inline_confirmPayment_runs_to_the_end_witness :
  let w := mkWorld [("j1", Examples.job1)] [] [] [Stored "j1" pending_payment] in
  exists done,
    fst (InlineController.confirmPayment Examples.env_live "j1" 20 21 22
           (JNumber 7) "2024-01-01T00:00:00.000Z" w) = OkJob (Some done)
    /\ status done = failed
    /\ result done
       = Some (JObject
                 [("error",
                   JString "Live mode not yet implemented for random oracle")]).
Proof.
  intros w.
  destruct (inline_confirmPayment_runs_to_the_end Examples.env_live w "j1"
              Examples.job1 20 21 22 (JNumber 7) "2024-01-01T00:00:00.000Z")
    as (done & A & _ & _ & _ & L & _);
    [discriminate | reflexivity | reflexivity |].
  exists done. destruct (L eq_refl) as [B C]. auto.
Defined.

(** ** What holds of a job under every interleaving *)

Lemma same_identity_refl a : same_identity a a.
Proof. repeat split. Qed.

Lemma same_identity_trans a b c :
  same_identity a b -> same_identity b c -> same_identity a c.
Proof.
  unfold same_identity. intros (A1 & A2 & A3 & A4) (B1 & B2 & B3 & B4).
  repeat split; congruence.
Qed.

(** A write under key [k] of the stored job overlaid with a status and
    possibly a result keeps every job in place with its identity. *)
Lemma overlay_keeps_identity (m : JobService.Store) k stored v i job :
  JobService.getJob m k = Some stored ->
  same_identity stored v ->
  JobService.getJob m i = Some job ->
  exists job', JobService.getJob (JsMap.set m k v) i = Some job'
               /\ same_identity job job'.
Proof.
  unfold JobService.getJob. intros K I G. rewrite get_set.
  destruct (String.eqb_spec k i) as [->|N].
  - rewrite K in G. inversion G; subst. eauto.
  - exists job. split; auto. apply same_identity_refl.
Qed.

Lemma confirmAndQueue_keeps_identity i0 job0 now1 now2 w i job :
  JobService.getJob (jobs w) i = Some job ->
  exists job',
    JobService.getJob
      (jobs (snd (JobController.confirmAndQueue i0 job0 now1 now2 w))) i
    = Some job'
    /\ same_identity job job'.
Proof.
  intros G.
  destruct (JobService.getJob (jobs w) i0) as [stored|] eqn:K.
  - rewrite (confirmAndQueue_stored _ _ _ _ _ _ K). cbn [snd jobs].
    apply (overlay_keeps_identity _ _ stored); auto. repeat split.
  - rewrite (confirmAndQueue_unknown _ _ _ _ _ K). cbn [snd jobs].
    exists job. split; auto. apply same_identity_refl.
Qed.

Lemma step_keeps_identity e sys st i job :
  JobService.getJob (jobs (world sys)) i = Some job ->
  ~ In i (drawn [st]) ->
  exists job',
    JobService.getJob (jobs (world (step e sys st))) i = Some job'
    /\ same_identity job job'.
Proof.
  intros G D.
  assert (Same : forall w', jobs w' = jobs (world sys) ->
            exists job', JobService.getJob (jobs w') i = Some job'
                         /\ same_identity job job').
  { intros w' ->. exists job. split; auto. apply same_identity_refl. }
  destruct st as [r body nanoid now|r i0 h|r i0|r q|r reply now1 now2|k o now
                 |key]; simpl.
  - destruct (createJob_world e body nanoid now (world sys))
      as [->|(ty & params & ->)]; [now apply Same|].
    cbn [jobs]. exists job. split; [|apply same_identity_refl].
    unfold JobService.getJob. rewrite get_set_other; auto.
    intros ->. apply D. simpl. auto.
  - pose proof (getJob_begin_frame e i0 h (world sys)) as F.
    destruct (JobController.getJob_begin e i0 h (world sys))
      as [[resp|s] w1]; simpl in F |- *; destruct F as (J & _);
      now apply Same.
  - pose proof (confirmPayment_begin_frame i0 (world sys)) as F.
    destruct (JobController.confirmPayment_begin i0 (world sys))
      as [[resp|s] w1]; simpl in F |- *; destruct F as (-> & _);
      now apply Same.
  - now apply Same.
  - destruct (take_waiting r (waiting sys)) as [[s rest]|]; [|now apply Same].
    simpl. destruct s as [i0 job0 h|i0 job0]; simpl.
    + unfold JobController.getJob_resume.
      destruct (negb (FacilitatorService.verified
                        (FacilitatorService.verifyPayment e h i0 reply))).
      * now apply Same.
      * now apply confirmAndQueue_keeps_identity.
    + unfold JobController.confirmPayment_resume.
      now apply confirmAndQueue_keeps_identity.
  - destruct (nth_error (queue (world sys)) k) as [job0|] eqn:N.
    + destruct (JobService.getJob (jobs (world sys)) (id job0))
        as [stored|] eqn:K.
      * rewrite (finish_stored _ _ _ _ _ _ N K). cbn [snd jobs].
        apply (overlay_keeps_identity _ _ stored); auto.
        destruct o; repeat split.
      * rewrite (finish_unknown _ _ _ _ _ N K). now apply Same.
    + rewrite (finish_idle _ _ _ _ N). now apply Same.
  - now apply Same.
Qed.

(** X18. Under every interleaving of requests, workers and expiries, a
    stored job is never removed and never changes its identifier, type,
    parameters or time of creation, as long as [nanoid] does not draw its
    identifier again; only a creation request that draws an identifier in
    use replaces the job stored under it. *)
Theorem job_identity_is_stable :
  forall (e : Env) (steps : list Step) (sys : System) (i : string)
         (job : OracleJob),
    JobService.getJob (jobs (world sys)) i = Some job ->
    ~ In i (drawn steps) ->
    exists job',
      JobService.getJob (jobs (world (run e steps sys))) i = Some job'
      /\ same_identity job job'.
Proof.
  intros e steps. induction steps as [|st steps IH]; intros sys i job G D.
  - exists job. split; auto. apply same_identity_refl.
  - cbn [run fold_left].
    destruct (step_keeps_identity e sys st i job G) as (job1 & G1 & I1).
    { intros H. apply D. destruct st; simpl in *; tauto. }
    destruct (IH (step e sys st) i job1 G1) as (job2 & G2 & I2).
    { intros H. apply D. destruct st; simpl; auto. }
    exists job2. split; auto. eapply same_identity_trans; eauto.
Qed.

Lemma job_identity_is_stable_witness :
  exists job',
    JobService.getJob
      (jobs (world (run Examples.env_demo
                      [ReqFetch 1 "j1" (Some "proof-a");
                       ReqConfirm 2 "j1";
                       Resume 1 Examples.no_reply 20 21;
                       Resume 2 Examples.no_reply 30 31;
                       WorkerFinish 0 (Crashed "boom") 40;
                       ReqCreate 3 (Examples.create_body "price"
                                      Examples.price_sol) "j2" 41]
                      (mkSystem
                         (mkWorld [("j1", Examples.job1)] [] [] [])
                         [] [])))) "j1" = Some job'
    /\ same_identity Examples.job1 job'.
Proof.
  apply (job_identity_is_stable Examples.env_demo
           [ReqFetch 1 "j1" (Some "proof-a");
            ReqConfirm 2 "j1";
            Resume 1 Examples.no_reply 20 21;
            Resume 2 Examples.no_reply 30 31;
            WorkerFinish 0 (Crashed "boom") 40;
            ReqCreate 3 (Examples.create_body "price" Examples.price_sol)
              "j2" 41]
           (mkSystem (mkWorld [("j1", Examples.job1)] [] [] []) [] [])
           "j1" Examples.job1).
  - reflexivity.
  - simpl. intros [H|[]]. discriminate H.
Defined.

(** ** What the cache holds *)










(* ------------------------------------------------------------------ *)
(** * The handlers at the grain of their awaits *)

(** ** Handlers in flight *)

Lemma take_proc_In r :
  forall l p rest,
    take_proc r l = Some (p, rest) ->
    In (r, p) l /\ (forall x, In x rest -> In x l).
Proof.
  induction l as [|[r' p'] l IH]; intros p rest H; simpl in H.
  - discriminate.
  - destruct (Nat.eqb_spec r' r) as [->|N].
    + inversion H; subst. split; simpl; auto.
    + destruct (take_proc r l) as [[p0 rest0]|]; [|discriminate].
      inversion H; subst. destruct (IH _ _ eq_refl) as [I R].
      split; simpl; auto. intros x [X|X]; auto.
Qed.

Lemma at_stage_counts i st p :
  (if at_stage i st p then 1 else 0)%nat = counts i st (stage p).
Proof.
  unfold at_stage, counts. destruct (stage p) as [[k s']|]; reflexivity.
Qed.

Lemma holding_cons i st r p l :
  holding i st ((r, p) :: l) = (counts i st (stage p) + holding i st l)%nat.
Proof.
  unfold holding. simpl. rewrite <- at_stage_counts.
  destruct (at_stage i st p); reflexivity.
Qed.

Lemma holding_taken i st r :
  forall l p rest,
    take_proc r l = Some (p, rest) ->
    holding i st l = (counts i st (stage p) + holding i st rest)%nat.
Proof.
  induction l as [|[r' p'] l IH]; intros p rest H; simpl in H.
  - discriminate.
  - destruct (Nat.eqb r' r).
    + inversion H; subst. apply holding_cons.
    + destruct (take_proc r l) as [[p0 rest0]|]; [|discriminate].
      inversion H; subst. rewrite !holding_cons, (IH _ _ eq_refl). lia.
Qed.

Lemma holding_landed i st r rest rep out w :
  holding i st (procs (landed r rest rep (out, w)))
  = (counts i st (stage_after out) + holding i st rest)%nat.
Proof.
  destruct out as [a|p]; simpl; [reflexivity|]. apply holding_cons.
Qed.

Lemma sworld_landed r rest rep out w :
  sworld (landed r rest rep (out, w)) = w.
Proof. destruct out; reflexivity. Qed.

Lemma counts_same i st k :
  counts i st (Some (k, st)) = if String.eqb k i then 1%nat else 0%nat.
Proof.
  unfold counts. destruct (String.eqb k i); destruct st; reflexivity.
Qed.

Lemma counts_other_stage i st k s' :
  s' <> st -> counts i st (Some (k, s')) = 0%nat.
Proof.
  intros N. unfold counts. destruct (String.eqb k i); simpl; auto.
  destruct s', st; simpl; auto; contradiction.
Qed.

Lemma counts_other_key i st k s' :
  k <> i -> counts i st (Some (k, s')) = 0%nat.
Proof.
  intros N. unfold counts. apply String.eqb_neq in N. now rewrite N.
Qed.

Lemma holding_positive i st l :
  (1 <= holding i st l)%nat ->
  exists r p, In (r, p) l /\ stage p = Some (i, st).
Proof.
  unfold holding. induction l as [|[r p] l IH]; simpl; [lia|].
  destruct (at_stage i st p) eqn:A.
  - intros _. exists r, p. split; auto.
    unfold at_stage in A. destruct (stage p) as [[k s']|]; [|discriminate].
    apply andb_true_iff in A. destruct A as [K S].
    apply String.eqb_eq in K. subst k.
    destruct s', st; try discriminate; reflexivity.
  - intros H. destruct (IH H) as (r0 & p0 & I & S). eauto.
Qed.

Lemma calm_now_bound l i :
  calm_now l = true -> (holding i Armed l <= 1)%nat.
Proof.
  intros C.
  destruct (Nat.le_gt_cases (holding i Armed l) 0) as [Z|P]; [lia|].
  destruct (holding_positive i Armed l P) as (r & p & I & S).
  unfold calm_now in C. rewrite forallb_forall in C.
  specialize (C (r, p) I). simpl in C. rewrite S in C.
  now apply Nat.leb_le in C.
Qed.

(** ** A timely run keeps every job on the chain *)

Lemma poised_frame i s s' :
  JobService.getJob (jobs (sworld s')) i
  = JobService.getJob (jobs (sworld s)) i ->
  trail i (log (sworld s')) = trail i (log (sworld s)) ->
  queued i (queue (sworld s')) = queued i (queue (sworld s)) ->
  dispatches i (log (sworld s')) = dispatches i (log (sworld s)) ->
  (forall st, holding i st (procs s') = holding i st (procs s)) ->
  poised i s -> poised i s'.
Proof.
  unfold poised. cbv zeta. intros -> -> -> -> H.
  now rewrite !H.
Qed.

Lemma poised_boot : forall i, poised i boot.
Proof.
  intros i. unfold poised. simpl. repeat split.
Qed.

Lemma poised_quiet i s s' :
  jobs (sworld s') = jobs (sworld s) ->
  queue (sworld s') = queue (sworld s) ->
  log (sworld s') = log (sworld s) ->
  holding i WroteConfirmed (procs s') = holding i WroteConfirmed (procs s) ->
  (holding i WroteInProgress (procs s')
   <= holding i WroteInProgress (procs s))%nat ->
  poised i s -> poised i s'.
Proof.
  unfold poised. cbv zeta. intros -> -> -> -> R.
  destruct (JobService.getJob (jobs (sworld s)) i) as [job|] eqn:G.
  - intros [I H]. split; auto.
    destruct (status job) eqn:S.
    + destruct H as (T & Q & D & C & Y). repeat split; auto. lia.
    + destruct H as (T & Q & D & C & Y). repeat split; auto; lia.
    + destruct H as (T & Q & Y & C). repeat split; auto; lia.
    + destruct H as (T & Q & D & C & Y). repeat split; auto; lia.
    + destruct H as (T & Q & D & C & Y). repeat split; auto; lia.
  - intros (T & Q & D & C & Y). repeat split; auto; lia.
Qed.

Lemma queued_at_work s k job :
  (forall i, poised i s) ->
  nth_error (queue (sworld s)) k = Some job ->
  exists stored,
    JobService.getJob (jobs (sworld s)) (id job) = Some stored
    /\ id stored = id job
    /\ status stored = query_in_progress
    /\ trail (id job) (log (sworld s)) =
       [query_in_progress; payment_confirmed; pending_payment]
    /\ queued (id job) (remove_nth k (queue (sworld s))) = 0%nat
    /\ dispatches (id job) (log (sworld s)) = 1%nat
    /\ holding (id job) WroteConfirmed (procs s) = 0%nat
    /\ holding (id job) WroteInProgress (procs s) = 0%nat.
Proof.
  intros HS N. pose proof (HS (id job)) as H.
  pose proof (queued_remove_nth (id job) _ _ _ N) as Q.
  rewrite String.eqb_refl in Q. unfold poised in H. cbv zeta in H.
  destruct (JobService.getJob (jobs (sworld s)) (id job)) as [stored|].
  - exists stored. destruct H as [I H].
    destruct (status stored); try (exfalso; destruct H as (_ & Z & _); lia).
    destruct H as (T & E & Y & C). repeat split; auto; lia.
  - exfalso. destruct H as (_ & Z & _). lia.
Qed.

Lemma Beat_poised s s' :
  (forall i, poised i s) ->
  Beat s s' ->
  forall i, poised i s'.
Proof.
  intros HS B i'.
  destruct B as [J Q L H
                |job G S J Q L H
                |i v Pd Ar S I J Q L HA HC HR HO
                |i v Cf S I J Q L HA HC HR HO
                |i job Rd I J Q L HA HC HR HO
                |k job stored done N G I D J Q L H].
  - destruct (H i') as (C & R & A). now apply (poised_quiet i' s).
  - destruct (String.eqb_spec (id job) i') as [E|E].
    + pose proof (HS i') as P. unfold poised in P |- *. cbv zeta in *.
      subst i'. rewrite G in P. destruct P as (T & Qd & D & C & R).
      unfold JobService.getJob. rewrite J, Q, L, get_set_same.
      rewrite S, trail_stored, String.eqb_refl, T, !H. simpl.
      repeat split; auto.
    + apply (poised_frame i' s);
        [ unfold JobService.getJob; rewrite J; now apply get_set_other
        | rewrite L, trail_stored; apply String.eqb_neq in E; now rewrite E
        | now rewrite Q
        | now rewrite L
        | intros st; apply H
        | apply HS ].
  - destruct (String.eqb_spec i i') as [E|E].
    + subst i'. pose proof (HS i) as P. unfold poised in P |- *.
      cbv zeta in *. unfold is_pending in Pd.
      unfold JobService.getJob in *.
      rewrite J, Q, L, get_set_same, S.
      destruct (JsMap.get (jobs (sworld s)) i) as [stored|];
        [|discriminate].
      destruct P as [Is P]. split; auto.
      destruct (status stored); try discriminate.
      destruct P as (T & Qd & D & C & R).
      rewrite trail_stored, String.eqb_refl, T. simpl.
      repeat split; auto; lia.
    + assert (Ne : String.eqb i i' = false) by now apply String.eqb_neq.
      apply (poised_frame i' s);
        [ unfold JobService.getJob; rewrite J; now apply get_set_other
        | rewrite L, trail_stored; now rewrite Ne
        | now rewrite Q
        | now rewrite L
        | intros st; apply HO; congruence
        | apply HS ].
  - destruct (String.eqb_spec i i') as [E|E].
    + subst i'. pose proof (HS i) as P. unfold poised in P |- *.
      cbv zeta in *. unfold JobService.getJob in *.
      rewrite J, Q, L, get_set_same, S.
      destruct (JsMap.get (jobs (sworld s)) i) as [stored|].
      * destruct P as [Is P]. split; auto.
        destruct (status stored);
          try (exfalso; destruct P as (_ & _ & _ & Z & _); lia);
          try (exfalso; destruct P as (_ & _ & _ & Z); lia).
        destruct P as (T & Qd & D & C & R).
        rewrite trail_stored, String.eqb_refl, T. simpl.
        repeat split; auto; lia.
      * exfalso. destruct P as (_ & _ & _ & Z & _). lia.
    + assert (Ne : String.eqb i i' = false) by now apply String.eqb_neq.
      apply (poised_frame i' s);
        [ unfold JobService.getJob; rewrite J; now apply get_set_other
        | rewrite L, trail_stored; now rewrite Ne
        | now rewrite Q
        | now rewrite L
        | intros st; apply HO; congruence
        | apply HS ].
  - destruct (String.eqb_spec i i') as [E|E].
    + subst i'. pose proof (HS i) as P. unfold poised in P |- *.
      cbv zeta in *. rewrite J, Q, L.
      destruct (JobService.getJob (jobs (sworld s)) i) as [stored|].
      * destruct P as [Is P]. split; auto.
        destruct (status stored);
          try (exfalso; destruct P as (_ & _ & _ & _ & Z); lia).
        destruct P as (T & Qd & Y & C).
        rewrite dispatches_submitted, queued_app, I, String.eqb_refl.
        simpl. repeat split; auto; lia.
      * exfalso. destruct P as (_ & _ & _ & _ & Z). lia.
    + assert (Ne : String.eqb i i' = false) by now apply String.eqb_neq.
      apply (poised_frame i' s);
        [ now rewrite J
        | now rewrite L
        | rewrite Q, queued_app, I, Ne; lia
        | rewrite L, dispatches_submitted, I, Ne; reflexivity
        | intros st; apply HO; congruence
        | apply HS ].
  - destruct (queued_at_work _ _ _ HS N)
      as (st0 & G' & Is & Ss & T & C & Dn & C0 & R0).
    rewrite G in G'. inversion G'; subst st0. clear G'.
    destruct (String.eqb_spec (id job) i') as [E|E].
    + subst i'. unfold poised. cbv zeta. unfold JobService.getJob.
      rewrite J, Q, L, get_set_same, !H. split; [congruence|].
      rewrite trail_stored, String.eqb_refl, T, C. simpl. rewrite Dn.
      destruct D as [-> | ->]; repeat split; auto.
    + assert (Ne : String.eqb (id job) i' = false)
        by now apply String.eqb_neq.
      pose proof (queued_remove_nth i' _ _ _ N) as R. rewrite Ne in R.
      apply (poised_frame i' s);
        [ unfold JobService.getJob; rewrite J; now apply get_set_other
        | rewrite L, trail_stored; now rewrite Ne
        | rewrite Q; lia
        | now rewrite L
        | intros st; apply H
        | apply HS ].
Qed.

(** ** What one tick does *)

Lemma Beat_answered s rep :
  Beat s (mkServer (sworld s) (procs s) rep).
Proof.
  apply BeatQuiet; simpl; try reflexivity. intros i. repeat split; auto.
Qed.

Lemma Beat_landed_quiet s r p rest out w' :
  take_proc r (procs s) = Some (p, rest) ->
  jobs w' = jobs (sworld s) ->
  queue w' = queue (sworld s) ->
  log w' = log (sworld s) ->
  (stage_after out = stage p
   \/ (stage_after out = None
       /\ forall i, stage p <> Some (i, WroteConfirmed))) ->
  Beat s (landed r rest (replies s) (out, w')).
Proof.
  intros T J Q L E. apply BeatQuiet; rewrite ?sworld_landed; try assumption.
  intros i. rewrite !holding_landed, !(holding_taken i _ r _ _ _ T).
  destruct E as [-> | [-> N]]; simpl.
  - repeat split; auto.
  - split; [|split; [lia|left; lia]].
    destruct (stage p) as [[k st]|]; [|reflexivity].
    rewrite counts_other_stage; [reflexivity|].
    intros ->. now apply (N k).
Qed.

Lemma Beat_arrived s r p rep :
  (forall i st, stage p = Some (i, st) ->
     st = Armed
     /\ exists job, JobService.getJob (jobs (sworld s)) i = Some job
                    /\ status job = pending_payment) ->
  Beat s (mkServer (sworld s) ((r, p) :: procs s) rep).
Proof.
  intros H. apply BeatQuiet; simpl; try reflexivity.
  intros i. rewrite !holding_cons.
  destruct (stage p) as [[k st]|] eqn:S; simpl.
  - destruct (H k st eq_refl) as [-> (job & G & P)].
    destruct (String.eqb_spec k i) as [->|N]; simpl.
    + repeat split; auto. right. eauto.
    + repeat split; auto.
  - repeat split; auto.
Qed.

Lemma poised_stored i s job :
  poised i s ->
  JobService.getJob (jobs (sworld s)) i = Some job ->
  id job = i.
Proof.
  unfold poised. cbv zeta. intros P G. rewrite G in P. tauto.
Qed.

Lemma poised_held i st s :
  st <> Armed ->
  poised i s ->
  (1 <= holding i st (procs s))%nat ->
  exists job, JobService.getJob (jobs (sworld s)) i = Some job /\ id job = i.
Proof.
  unfold poised. cbv zeta. intros N P H.
  destruct (JobService.getJob (jobs (sworld s)) i) as [job|].
  - exists job. tauto.
  - exfalso. destruct st; try lia. contradiction.
Qed.

Lemma holding_split s r p rest :
  take_proc r (procs s) = Some (p, rest) ->
  forall i st k st',
    stage p = Some (i, st) ->
    holding k st' (procs s)
    = (counts k st' (Some (i, st)) + holding k st' rest)%nat.
Proof.
  intros T i st k st' S. rewrite <- S. now apply (holding_taken k st' r).
Qed.

Ltac count_stages :=
  unfold stage_after, stage;
  rewrite ?counts_same, ?String.eqb_refl;
  rewrite ?counts_other_stage by discriminate;
  simpl; lia.

Ltac beat_write A :=
  rewrite ?sworld_landed, ?holding_landed, ?A;
  try reflexivity; try assumption;
  try (intros ? ? ?; rewrite holding_landed, A; unfold stage_after, stage;
       rewrite !counts_other_key by congruence; reflexivity);
  try count_stages.

Lemma Beat_confirmed s r p rest i job now :
  take_proc r (procs s) = Some (p, rest) ->
  stage p = Some (i, Armed) ->
  poised i s ->
  is_pending (jobs (sworld s)) i = true ->
  Beat s (landed r rest (replies s)
            (bind (Jobs.updateJob i (only_status payment_confirmed) now)
               (fun _ => Segments.continue (PaidUpdate2 i job)) (sworld s))).
Proof.
  intros T S P Pd.
  pose proof (fun k st' => holding_split s r p rest T i Armed k st' S) as A.
  assert (H1 : (1 <= holding i Armed (procs s))%nat).
  { rewrite A, counts_same, String.eqb_refl. lia. }
  pose proof Pd as Pd'. unfold is_pending in Pd'.
  destruct (JobService.getJob (jobs (sworld s)) i) as [stored|] eqn:G;
    [|discriminate].
  pose proof (poised_stored _ _ _ P G) as I.
  unfold bind, Jobs.updateJob. rewrite (updateJob_found _ _ _ _ _ G).
  unfold Segments.continue, ret.
  apply (BeatConfirm _ _ i (spread stored (only_status payment_confirmed) now));
    beat_write A.
Qed.

Lemma Beat_progressed s r rest i job now :
  take_proc r (procs s) = Some (PaidUpdate2 i job, rest) ->
  poised i s ->
  Beat s (landed r rest (replies s)
            (bind (Jobs.updateJob i (only_status query_in_progress) now)
               (fun _ => Segments.continue (PaidSubmit i job)) (sworld s))).
Proof.
  intros T P.
  pose proof (fun k st' =>
                holding_split s r _ rest T i WroteConfirmed k st' eq_refl) as A.
  assert (H1 : (1 <= holding i WroteConfirmed (procs s))%nat).
  { rewrite A, counts_same, String.eqb_refl. lia. }
  destruct (poised_held i WroteConfirmed s) as (stored & G & I);
    [discriminate|exact P|exact H1|].
  unfold bind, Jobs.updateJob. rewrite (updateJob_found _ _ _ _ _ G).
  unfold Segments.continue, ret.
  apply (BeatProgress _ _ i (spread stored (only_status query_in_progress) now));
    beat_write A.
Qed.

Lemma Beat_submitted s r rest i job :
  take_proc r (procs s) = Some (PaidSubmit i job, rest) ->
  id job = i ->
  Beat s (landed r rest (replies s)
            (bind (QueueService.addJob job)
               (fun _ => Segments.continue (PaidInvalidate i)) (sworld s))).
Proof.
  intros T I.
  pose proof (fun k st' =>
                holding_split s r _ rest T i WroteInProgress k st' eq_refl)
    as A.
  unfold bind, QueueService.addJob, Segments.continue, ret.
  apply (BeatSubmit _ _ i job); beat_write A.
Qed.

Lemma JobStatus_eqb_eq a b : JobStatus_eqb a b = true <-> a = b.
Proof. destruct a, b; simpl; split; intros H; congruence. Qed.

Ltac quiet_beat T :=
  unfold Segments.calling, Segments.replied, Segments.continue, bind, ret,
    Jobs.getJob, CacheService.get, CacheService.set, CacheService.del;
  cbv beta iota zeta;
  apply (Beat_landed_quiet _ _ _ _ _ _ T); try reflexivity.

Lemma tick_Beat e s t :
  Poised s ->
  match t with
  | Arrive _ (RCreate _ nanoid _) => JsMap.get (jobs (sworld s)) nanoid = None
  | _ => True
  end ->
  check_holds e s t = true ->
  Beat s (tick e s t).
Proof.
  intros [HP HK] F Ck. destruct t as [r req|r inp|k o now|key];
    simpl in Ck |- *.
  - destruct req as [body nanoid now|reqId h|reqId|q]; simpl.
    + unfold Segments.replied, ret, bind.
      destruct (validateCreateJob body) as [err|[ty params]];
        [apply Beat_answered|].
      destruct (JobController.checkParameters ty params);
        [apply Beat_answered|].
      apply (BeatCreate _ _ (mkJob nanoid ty params pending_payment None now now));
        simpl; auto.
    + unfold Segments.replied, ret, bind.
      destruct (validateJobId reqId) as [err|i]; [apply Beat_answered|].
      simpl. apply Beat_arrived. intros k st S. simpl in S.
      destruct (JobService.getJob (jobs (sworld s)) i) as [job|] eqn:G;
        [|discriminate].
      destruct (JobStatus_eqb (status job) pending_payment) eqn:E;
        [|discriminate].
      destruct (str_truthy h); [|discriminate]. simpl in S.
      inversion S; subst. split; auto. exists job. split; auto.
      now apply JobStatus_eqb_eq.
    + unfold Segments.replied, ret, bind.
      destruct (validateJobId reqId) as [err|i]; [apply Beat_answered|].
      simpl. apply Beat_arrived. intros k st S. simpl in S.
      destruct (JobService.getJob (jobs (sworld s)) i) as [job|] eqn:G;
        [|discriminate].
      destruct (JobStatus_eqb (status job) pending_payment) eqn:E;
        [|discriminate].
      inversion S; subst. split; auto. exists job. split; auto.
      now apply JobStatus_eqb_eq.
    + apply Beat_arrived. intros k st S. discriminate.
  - destruct (take_proc r (procs s)) as [[p rest]|] eqn:T;
      [|destruct s; apply Beat_answered].
    destruct (take_proc_In _ _ _ _ T) as [I _].
    pose proof (HK _ _ I) as K.
    destruct p; unfold Segments.advance; cbv beta iota zeta in Ck |- *.
    + quiet_beat T. auto.
    + quiet_beat T. auto.
    + destruct job as [job|]; [|quiet_beat T; auto].
      destruct (JobStatus_eqb (status job) pending_payment) eqn:E;
        destruct (str_truthy paymentHeader) eqn:H;
        cbn [andb negb]; cbv beta iota; try destruct (in_fault inp);
        quiet_beat T; simpl; rewrite E, ?H; simpl; auto;
        right; split; auto; discriminate.
    + destruct (FacilitatorService.verified
                  (FacilitatorService.verifyPayment e paymentHeader i
                     (in_reply inp))); cbn [negb]; cbv beta iota.
      * apply (Beat_confirmed s r _ rest i job _ T); auto.
      * quiet_beat T. right. split; auto. discriminate.
    + destruct job as [job|]; [|quiet_beat T; auto].
      destruct (JobStatus_eqb (status job) pending_payment) eqn:E;
        cbn [negb]; cbv beta iota;
        quiet_beat T; simpl; rewrite E; auto;
        right; split; auto; discriminate.
    + apply (Beat_confirmed s r _ rest i job _ T); auto.
    + apply (Beat_progressed s r rest i job _ T); auto.
    + unfold Segments.calling. destruct (in_fault inp).
      * quiet_beat T. right. split; auto. discriminate.
      * apply (Beat_submitted s r rest i job T); auto.
    + destruct (in_fault inp); quiet_beat T; auto.
    + quiet_beat T. auto.
    + quiet_beat T. auto.
    + destruct cached; quiet_beat T; auto.
    + destruct currentJob as [c|]; [|quiet_beat T; auto].
      destruct (in_fault inp); quiet_beat T; auto.
    + quiet_beat T. auto.
  - destruct (nth_error (queue (sworld s)) k) as [job|] eqn:N.
    + destruct (queued_at_work _ _ _ HP N)
        as (stored & G & Is & Ss & _).
      rewrite (finish_stored _ _ _ _ _ _ N G).
      destruct (outcome_status stored o now) as [Id St].
      apply (BeatFinish _ _ k job stored
               (spread stored (Worker.outcome_update o) now)); auto.
    + rewrite (finish_idle _ _ _ _ N). simpl. destruct s; apply Beat_answered.
  - apply BeatQuiet; simpl; try reflexivity. intros i. repeat split; auto.
Qed.

Ltac run_segment :=
  unfold Segments.advance, Segments.start, Segments.calling,
    Segments.replied, Segments.continue, bind, ret, Jobs.getJob,
    Jobs.updateJob, Jobs.createJob, Jobs.getAllJobs,
    JobController.call_with_surplus, QueueService.addJob,
    CacheService.get, CacheService.set, CacheService.del;
  cbv beta iota zeta.

Lemma advance_carries e p inp w p' w' :
  Segments.advance e p inp w = (inr p', w') ->
  carries_key p -> carries_key p'.
Proof.
  destruct p; run_segment;
    repeat match goal with
           | |- context [match ?x with _ => _ end] => destruct x
           end;
    intros H; inversion H; subst; simpl; auto.
Qed.

Lemma landed_In r rest rep out w r' p' :
  In (r', p') (procs (landed r rest rep (out, w))) ->
  out = inr p' \/ In (r', p') rest.
Proof.
  destruct out as [a|p]; simpl; auto.
  intros [E|I]; auto. inversion E. auto.
Qed.

Lemma tick_carries e s t :
  Poised s ->
  forall r p, In (r, p) (procs (tick e s t)) -> carries_key p.
Proof.
  intros [HP HK] r' p'. destruct t as [r req|r inp|k o now|key]; simpl;
    try apply HK.
  - destruct (Segments.start req (sworld s)) as [out w'] eqn:S.
    intros I. apply landed_In in I. destruct I as [->|I]; [|eauto].
    destruct req; revert S; run_segment;
      repeat match goal with
             | |- context [match ?x with _ => _ end] => destruct x eqn:?
             end;
      intros H; inversion H; subst; simpl; auto;
      match goal with
      | |- match JobService.getJob ?js ?i with _ => _ end =>
          destruct (JobService.getJob js i) eqn:G; auto;
          eapply poised_stored; eauto
      end.
  - destruct (take_proc r (procs s)) as [[p rest]|] eqn:T; [|apply HK].
    destruct (take_proc_In _ _ _ _ T) as [I R].
    destruct (Segments.advance e p inp (sworld s)) as [out w'] eqn:A.
    intros I'. apply landed_In in I'. destruct I' as [->|I'].
    + eapply advance_carries; eauto.
    + apply (HK r'). auto.
Qed.

Lemma fresh_id_unused e t ts s :
  fresh_ids e (t :: ts) s = true ->
  match t with
  | Arrive _ (RCreate _ nanoid _) => JsMap.get (jobs (sworld s)) nanoid = None
  | _ => True
  end.
Proof.
  simpl. intros F. apply andb_true_iff in F. destruct F as [F _].
  destruct t as [r [body nanoid now| | |]| | |]; auto.
  destruct (JsMap.get (jobs (sworld s)) nanoid); [discriminate|reflexivity].
Qed.

Lemma tick_Poised e s t :
  Poised s ->
  match t with
  | Arrive _ (RCreate _ nanoid _) => JsMap.get (jobs (sworld s)) nanoid = None
  | _ => True
  end ->
  check_holds e s t = true ->
  Poised (tick e s t).
Proof.
  intros P F C. split.
  - apply (Beat_poised s); [apply P|now apply tick_Beat].
  - now apply tick_carries.
Qed.

Lemma Poised_boot : Poised boot.
Proof.
  split; [apply poised_boot|]. intros r p [].
Qed.



(** ** What holds under every interleaving *)

Lemma has_stored_cons i st ev l :
  has_stored i st l = true -> has_stored i st (ev :: l) = true.
Proof.
  intros H. destruct ev; simpl; rewrite H; auto using orb_true_r.
Qed.

Lemma written_cons i ev l :
  written i l = true -> written i (ev :: l) = true.
Proof.
  intros H. destruct ev; simpl; rewrite H; auto using orb_true_r.
Qed.

Lemma behind_mono w w' p :
  (forall i, JobService.getJob (jobs w) i <> None ->
             JobService.getJob (jobs w') i <> None) ->
  (forall i st, has_stored i st (log w) = true ->
                has_stored i st (log w') = true) ->
  (forall i, written i (log w) = true -> written i (log w') = true) ->
  behind w p -> behind w' p.
Proof.
  intros J H W. destruct p; simpl; auto;
    try (destruct job; auto);
    intros B; decompose [and] B; repeat split; auto.
Qed.

Lemma Sound_next s s' :
  Sound s ->
  (forall i,
     JobService.getJob (jobs (sworld s')) i
     = JobService.getJob (jobs (sworld s)) i
     \/ exists v, JobService.getJob (jobs (sworld s')) i = Some v
                  /\ id v = i) ->
  Forall (fun job => status job = pending_payment) (queue (sworld s')) ->
  (log (sworld s') = log (sworld s)
   \/ (exists i st, log (sworld s') = Stored i st :: log (sworld s))
   \/ (exists job, log (sworld s') = Submitted job :: log (sworld s)
                   /\ status job = pending_payment
                   /\ written (id job) (log (sworld s)) = true)) ->
  (forall r p, In (r, p) (procs s') ->
               In (r, p) (procs s) \/ behind (sworld s') p) ->
  Sound s'.
Proof.
  intros (I & B & Q & H) J Q' L P. repeat split; auto.
  - intros i job G. destruct (J i) as [E|(v & E & V)].
    + apply I. congruence.
    + congruence.
  - intros r p In'. destruct (P r p In') as [Old|New]; auto.
    apply (behind_mono (sworld s)); auto.
    + intros i N. destruct (J i) as [E|(v & E & V)]; congruence.
    + intros i st. destruct L as [->|[(k & st' & ->)|(job & -> & _)]];
        auto using has_stored_cons.
    + intros i. destruct L as [->|[(k & st' & ->)|(job & -> & _)]];
        auto using written_cons.
    + eauto.
  - destruct L as [->|[(k & st' & ->)|(job & -> & S & W)]]; simpl; auto.
    rewrite W, H. apply JobStatus_eqb_eq in S. now rewrite S.
Qed.

Lemma Sound_boot : Sound boot.
Proof.
  split; [|split; [|split]]; simpl; auto.
  - intros i job G. discriminate.
  - intros r p [].
Qed.

Lemma set_stored jobs i v k :
  id v = i ->
  JobService.getJob (JsMap.set jobs i v) k = JobService.getJob jobs k
  \/ exists v', JobService.getJob (JsMap.set jobs i v) k = Some v'
                /\ id v' = k.
Proof.
  intros I. unfold JobService.getJob.
  destruct (String.eqb_spec i k) as [<-|N].
  - right. exists v. split; auto using get_set_same.
  - left. now apply get_set_other.
Qed.

Ltac sound_quiet HS R :=
  apply (Sound_next _ _ HS); rewrite ?sworld_landed;
  [ intros; left; reflexivity
  | simpl; apply HS
  | left; reflexivity
  | let r0 := fresh "r" in
    let p0 := fresh "p" in
    let X := fresh "X" in
    intros r0 p0 X; apply landed_In in X; destruct X as [X|X];
    [right; inversion X; subst; simpl; auto | left; apply R; exact X] ].

Ltac sound_stored HS R G Is :=
  unfold bind, Jobs.updateJob; rewrite (updateJob_found _ _ _ _ _ G);
  unfold Segments.continue, ret;
  apply (Sound_next _ _ HS); rewrite ?sworld_landed;
  [ intros; simpl; apply set_stored; simpl; exact Is
  | simpl; apply HS
  | right; left; simpl; eauto
  | let r0 := fresh "r" in
    let p0 := fresh "p" in
    let X := fresh "X" in
    intros r0 p0 X; apply landed_In in X; destruct X as [X|X];
    [right; inversion X; subst; simpl | left; apply R; exact X] ].

Lemma tick_Sound e s t : Sound s -> Sound (tick e s t).
Proof.
  intros HS. pose proof HS as (I & B & Q & H).
  destruct t as [r req|r inp|k o now|key]; simpl.
  - assert (R : forall x, In x (procs s) -> In x (procs s)) by auto.
    destruct req as [body nanoid now|reqId h|reqId|q];
      unfold Segments.start, Segments.replied, Segments.continue, bind, ret.
    + destruct (validateCreateJob body) as [err|[ty params]];
        [sound_quiet HS R|].
      destruct (JobController.checkParameters ty params);
        [sound_quiet HS R|].
      apply (Sound_next _ _ HS); simpl;
        [ intros i; now apply set_stored
        | exact Q
        | right; left; eauto
        | intros r0 p0 [X|X]; [inversion X; right; exact Logic.I|now left] ].
    + destruct (validateJobId reqId) as [err|i]; [sound_quiet HS R|].
      unfold Jobs.getJob. sound_quiet HS R.
      destruct (JobService.getJob (jobs (sworld s)) i) as [job|] eqn:G; auto.
      split; [now apply I|discriminate].
    + destruct (validateJobId reqId) as [err|i]; [sound_quiet HS R|].
      unfold Jobs.getJob. sound_quiet HS R.
      destruct (JobService.getJob (jobs (sworld s)) i) as [job|] eqn:G; auto.
      split; [now apply I|discriminate].
    + unfold JobController.call_with_surplus, Jobs.getAllJobs.
      sound_quiet HS R.
  - destruct (take_proc r (procs s)) as [[p rest]|] eqn:T; [|exact HS].
    destruct (take_proc_In _ _ _ _ T) as [In0 R].
    pose proof (B _ _ In0) as Bp.
    destruct p; unfold Segments.advance; cbv beta iota zeta;
      unfold Segments.calling, Segments.replied.
    + unfold ret. sound_quiet HS R.
    + unfold ret. sound_quiet HS R.
    + destruct job as [job|]; [|unfold ret; sound_quiet HS R].
      simpl in Bp. destruct Bp as [Ij Ex].
      destruct (JobStatus_eqb (status job) pending_payment) eqn:E;
        destruct (str_truthy paymentHeader) eqn:Hd;
        cbn [andb negb]; cbv beta iota; try destruct (in_fault inp);
        unfold Segments.continue, bind, ret, CacheService.get;
        sound_quiet HS R.
      all: apply JobStatus_eqb_eq in E; repeat split; auto.
    + simpl in Bp. destruct Bp as (St & Ij & Ex).
      destruct (negb (FacilitatorService.verified
                        (FacilitatorService.verifyPayment e paymentHeader i
                           (in_reply inp))));
        [unfold ret; sound_quiet HS R|].
      destruct (JobService.getJob (jobs (sworld s)) i) as [stored|] eqn:G;
        [|contradiction].
      sound_stored HS R G (I _ _ G).
      repeat split; auto.
      * unfold JobService.getJob. rewrite get_set_same. discriminate.
      * now rewrite String.eqb_refl.
    + destruct job as [job|]; [|unfold ret; sound_quiet HS R].
      simpl in Bp. destruct Bp as [Ij Ex].
      destruct (JobStatus_eqb (status job) pending_payment) eqn:E;
        cbn [negb]; cbv beta iota;
        unfold Segments.continue, bind, ret; sound_quiet HS R.
      apply JobStatus_eqb_eq in E. repeat split; auto.
    + simpl in Bp. destruct Bp as (St & Ij & Ex).
      destruct (JobService.getJob (jobs (sworld s)) i) as [stored|] eqn:G;
        [|contradiction].
      sound_stored HS R G (I _ _ G).
      repeat split; auto.
      * unfold JobService.getJob. rewrite get_set_same. discriminate.
      * now rewrite String.eqb_refl.
    + simpl in Bp. destruct Bp as (St & Ij & Ex & Hs).
      destruct (JobService.getJob (jobs (sworld s)) i) as [stored|] eqn:G;
        [|contradiction].
      sound_stored HS R G (I _ _ G).
      repeat split; auto.
      now rewrite String.eqb_refl, Hs.
    + simpl in Bp. destruct Bp as (St & Ij & Wr).
      destruct (in_fault inp); [unfold ret; sound_quiet HS R|].
      unfold bind, QueueService.addJob, Segments.continue, ret.
      apply (Sound_next _ _ HS); rewrite ?sworld_landed.
      * intros. now left.
      * simpl. apply Forall_app. split; auto.
      * right. right. exists job. simpl. rewrite Ij. auto.
      * intros r0 p0 X. apply landed_In in X. destruct X as [X|X].
        -- right. inversion X. exact Logic.I.
        -- left. now apply R.
    + destruct (in_fault inp);
        unfold bind, CacheService.del, Segments.continue, ret;
        sound_quiet HS R.
    + unfold bind, Jobs.getJob, Segments.continue, ret. sound_quiet HS R.
    + unfold ret. sound_quiet HS R.
    + destruct cached;
        unfold bind, Jobs.getJob, Segments.continue, ret; sound_quiet HS R.
    + destruct currentJob as [c|]; [|unfold ret; sound_quiet HS R].
      destruct (in_fault inp);
        unfold bind, CacheService.set, Segments.continue, ret;
        sound_quiet HS R.
    + unfold ret. sound_quiet HS R.
  - destruct (nth_error (queue (sworld s)) k) as [job|] eqn:N.
    + destruct (JobService.getJob (jobs (sworld s)) (id job))
        as [stored|] eqn:G.
      * rewrite (finish_stored _ _ _ _ _ _ N G).
        destruct (outcome_status stored o now) as [Id St].
        apply (Sound_next _ _ HS); simpl;
          [ intros i; apply set_stored; rewrite Id; now apply I
          | now apply Forall_remove_nth
          | right; left; eauto
          | intros r0 p0 X; now left ].
      * rewrite (finish_unknown _ _ _ _ _ N G).
        apply (Sound_next _ _ HS); simpl;
          [ intros i; now left
          | now apply Forall_remove_nth
          | now left
          | intros r0 p0 X; now left ].
    + rewrite (finish_idle _ _ _ _ N). simpl. destruct s; exact HS.
  - apply (Sound_next _ _ HS); simpl;
      [ intros i; now left | exact Q | now left | intros r0 p0 X; now left ].
Qed.

Lemma ticks_Sound e : forall ts s, Sound s -> Sound (ticks e ts s).
Proof.
  induction ts as [|t ts IH]; intros s HS; simpl; auto.
  apply IH. now apply tick_Sound.
Qed.

(** ** A timely run hands a job over while it is in progress *)

Lemma poised_ready i s :
  poised i s ->
  (1 <= holding i WroteInProgress (procs s))%nat ->
  trail i (log (sworld s))
  = [query_in_progress; payment_confirmed; pending_payment].
Proof.
  unfold poised. cbv zeta. intros P H.
  destruct (JobService.getJob (jobs (sworld s)) i) as [job|].
  - destruct P as [_ P]. destruct (status job); try (exfalso; lia); tauto.
  - exfalso. lia.
Qed.

Lemma Beat_in_progress s s' :
  (forall i, poised i s) ->
  Beat s s' ->
  submitted_in_progress (log (sworld s)) = true ->
  submitted_in_progress (log (sworld s')) = true.
Proof.
  intros HP B H.
  destruct B as [J Q L _
                |job G S J Q L _
                |i v Pd Ar S I J Q L _ _ _ _
                |i v Cf S I J Q L _ _ _ _
                |i job Rd I J Q L _ _ _ _
                |k job stored done N G I D J Q L _];
    rewrite L; simpl; auto.
  rewrite I, (poised_ready i s (HP i) Rd). exact H.
Qed.

Lemma ticks_in_progress e :
  forall ts s,
    Poised s ->
    submitted_in_progress (log (sworld s)) = true ->
    fresh_ids e ts s = true ->
    timely e ts s = true ->
    submitted_in_progress (log (sworld (ticks e ts s))) = true.
Proof.
  induction ts as [|t ts IH]; intros s P H F C; simpl; auto.
  pose proof (fresh_id_unused _ _ _ _ F) as Fr.
  simpl in F, C.
  apply andb_true_iff in F. destruct F as [F1 F2].
  apply andb_true_iff in C. destruct C as [C1 C2].
  apply IH; auto.
  - now apply tick_Poised.
  - apply (Beat_in_progress s); [apply P|now apply tick_Beat|exact H].
Qed.



(** ** Handlers that do not overlap are timely *)

Lemma is_pending_set jobs i v k :
  is_pending (JsMap.set jobs i v) k
  = if String.eqb i k then JobStatus_eqb (status v) pending_payment
    else is_pending jobs k.
Proof.
  unfold is_pending, JobService.getJob.
  destruct (String.eqb_spec i k) as [->|N].
  - now rewrite get_set_same.
  - now rewrite get_set_other.
Qed.

Lemma Beat_tidy s s' :
  (forall i, poised i s) ->
  (forall i, tidy i s) ->
  calm_now (procs s) = true ->
  Beat s s' ->
  forall i, tidy i s'.
Proof.
  intros HP HT Calm B i'.
  destruct B as [J Q L H
                |job G S J Q L H
                |i v Pd Ar S I J Q L HA HC HR HO
                |i v Cf S I J Q L HA HC HR HO
                |i job Rd I J Q L HA HC HR HO
                |k job stored done N G I D J Q L H].
  - destruct (H i') as (_ & _ & A). unfold tidy. rewrite J. intros Pd.
    destruct A as [A|(job & G & P)].
    + pose proof (HT i' Pd). lia.
    + unfold is_pending in Pd. rewrite G, P in Pd. discriminate.
  - unfold tidy. rewrite J, is_pending_set, S, H.
    destruct (String.eqb (id job) i'); [discriminate|apply HT].
  - unfold tidy. rewrite J, is_pending_set.
    destruct (String.eqb_spec i i') as [<-|N].
    + intros _. pose proof (calm_now_bound _ i Calm). lia.
    + rewrite HO by congruence. apply HT.
  - assert (Z : holding i Armed (procs s) = 0%nat).
    { destruct (poised_held i WroteConfirmed s) as (stored & G & _);
        [discriminate|apply HP|exact Cf|].
      apply HT. pose proof (HP i) as P. unfold poised in P. cbv zeta in P.
      rewrite G in P. destruct P as [_ P]. unfold is_pending. rewrite G.
      destruct (status stored); try reflexivity.
      destruct P as (_ & _ & _ & C & _). lia. }
    unfold tidy. rewrite J, is_pending_set.
    destruct (String.eqb_spec i i') as [<-|N].
    + intros _. now rewrite HA.
    + rewrite HO by congruence. apply HT.
  - unfold tidy. rewrite J.
    destruct (String.eqb_spec i i') as [<-|N].
    + rewrite HA. apply HT.
    + rewrite HO by congruence. apply HT.
  - destruct (queued_at_work _ _ _ HP N)
      as (st0 & G' & Is & Ss & _).
    rewrite G in G'. inversion G'; subst st0. clear G'.
    unfold tidy. rewrite J, is_pending_set, H.
    destruct (String.eqb_spec (id job) i') as [<-|Ne]; [|apply HT].
    intros _. apply HT. unfold is_pending. now rewrite G, Ss.
Qed.

Lemma tidy_check_holds e s t :
  (forall i, tidy i s) -> check_holds e s t = true.
Proof.
  intros HT.
  assert (A : forall r p rest i,
             take_proc r (procs s) = Some (p, rest) ->
             stage p = Some (i, Armed) ->
             is_pending (jobs (sworld s)) i = true).
  { intros r p rest i T S.
    destruct (is_pending (jobs (sworld s)) i) eqn:Pd; [reflexivity|].
    pose proof (HT i Pd) as Z.
    rewrite (holding_split s r p rest T i Armed i Armed S) in Z.
    rewrite counts_same, String.eqb_refl in Z. lia. }
  destruct t as [r req|r inp|k o now|key]; simpl; auto.
  destruct (take_proc r (procs s)) as [[p rest]|] eqn:T; auto.
  destruct p; auto.
  - destruct (FacilitatorService.verified
                (FacilitatorService.verifyPayment e paymentHeader i
                   (in_reply inp))); auto.
    now apply (A r _ rest i T).
  - now apply (A r _ rest i T).
Qed.

Lemma calm_runs_are_timely_from e :
  forall ts s,
    Poised s ->
    (forall i, tidy i s) ->
    fresh_ids e ts s = true ->
    calm e ts s = true ->
    timely e ts s = true.
Proof.
  induction ts as [|t ts IH]; intros s P HT F C; simpl; auto.
  pose proof (fresh_id_unused _ _ _ _ F) as Fr.
  pose proof (tidy_check_holds e s t HT) as Ck.
  simpl in F, C.
  apply andb_true_iff in F. destruct F as [F1 F2].
  apply andb_true_iff in C. destruct C as [C1 C2].
  rewrite Ck. simpl. apply IH; auto.
  - now apply tick_Poised.
  - apply (Beat_tidy s); auto; [apply P|now apply tick_Beat].
Qed.

(** When [nanoid] draws unused identifiers, a run in which no two payment
    handlers hold the same job unpaid at the same time is a run in which
    every handler that writes [payment_confirmed] finds the job in
    [pending_payment]. *)
Lemma calm_runs_are_timely e ts :
  fresh_ids e ts boot = true ->
  calm e ts boot = true ->
  timely e ts boot = true.
Proof.
  apply calm_runs_are_timely_from; [apply Poised_boot|].
  intros i _. reflexivity.
Qed.

(** ** What one segment writes *)

Ltac split_segment :=
  repeat match goal with
         | |- context [match ?x with _ => _ end] => destruct x eqn:?
         end.


(** A request takes a stage only when it reads the job in
    [pending_payment], and its first segment writes nothing. *)
Lemma arrival_reads req w :
  match req with RCreate _ _ _ => False | _ => True end ->
  snd (Segments.start req w) = w
  /\ forall i st,
       stage_after (fst (Segments.start req w)) = Some (i, st) ->
       st = Armed
       /\ exists job, JobService.getJob (jobs w) i = Some job
                      /\ status job = pending_payment.
Proof.
  destruct req as [body nanoid now|reqId h|reqId|q]; intros C;
    [contradiction| | |]; run_segment.
  - destruct (validateJobId reqId) as [err|i]; simpl;
      [split; [auto|discriminate]|].
    split; auto. intros k st.
    destruct (JobService.getJob (jobs w) i) as [job|] eqn:G;
      [|discriminate].
    destruct (JobStatus_eqb (status job) pending_payment) eqn:E;
      [|discriminate].
    destruct (str_truthy h); [|discriminate]. simpl.
    intros S. inversion S; subst. split; auto. exists job.
    split; auto. now apply JobStatus_eqb_eq.
  - destruct (validateJobId reqId) as [err|i]; simpl;
      [split; [auto|discriminate]|].
    split; auto. intros k st.
    destruct (JobService.getJob (jobs w) i) as [job|] eqn:G;
      [|discriminate].
    destruct (JobStatus_eqb (status job) pending_payment) eqn:E;
      [|discriminate].
    intros S. inversion S; subst. split; auto. exists job.
    split; auto. now apply JobStatus_eqb_eq.
  - simpl. split; [auto|discriminate].
Qed.



(** ** What is handed to the queue, and when *)

(** A call to the queue that fails leaves the job written
    [query_in_progress] and handed to no one; the request is answered
    500. *)
Lemma failed_submission_leaves_job_in_progress :
  let s := ticks Examples.env_demo Runs.queue_down boot in
  timely Examples.env_demo Runs.queue_down boot = true
  /\ map (fun ra => (fst ra, answer_status (snd ra))) (replies s)
     = [(1%nat, 500%Z); (0%nat, 201%Z)]
  /\ visited "j1" (sworld s)
     = [pending_payment; payment_confirmed; query_in_progress]
  /\ dispatches "j1" (log (sworld s)) = 0%nat
  /\ queue (sworld s) = [].
Proof.
  repeat split.
Qed.

(** C6, as the program has it. Under every interleaving of the handlers at
    their awaits, a job is handed to the queue only after the job of its
    identifier has been written [payment_confirmed] and then
    [query_in_progress], and the value handed over, as every value waiting
    in the queue, carries the status [pending_payment]. When moreover
    [nanoid] draws unused identifiers and every payment handler that writes
    [payment_confirmed] finds the job still in [pending_payment], the status
    last written for the job at each submission is [query_in_progress]. *)
Theorem submitted_after_both_writes :
  forall (e : Env) (ts : list Tick),
    let w := sworld (ticks e ts boot) in
    handed_over_after_writes (log w) = true
    /\ Forall (fun job => status job = pending_payment) (queue w)
    /\ (fresh_ids e ts boot = true ->
        timely e ts boot = true ->
        submitted_in_progress (log w) = true).
Proof.
  intros e ts w.
  destruct (ticks_Sound e ts boot Sound_boot) as (_ & _ & Q & H).
  split; [exact H|]. split; [exact Q|].
  intros F C.
  now apply (ticks_in_progress e ts boot Poised_boot eq_refl F C).
Qed.

Lemma submitted_after_both_writes_witness :
  let w := sworld (ticks Examples.env_demo Runs.paid_in_company boot) in
  dispatches "j1" (log w) = 1%nat
  /\ handed_over_after_writes (log w) = true
  /\ submitted_in_progress (log w) = true.
Proof.
  intros w.
  pose proof (submitted_after_both_writes Examples.env_demo
                Runs.paid_in_company) as (A & _ & B).
  split; [reflexivity|]. split; [exact A|].
  apply B; reflexivity.
Defined.

(** At this grain and without the condition, a handler that writes late
    puts the job back in [payment_confirmed] before another hands it over,
    and two handlers that take turns write [query_in_progress] twice before
    either hands the job over. *)
Lemma race_hands_over_after_rewrite :
  let late := sworld (ticks Examples.env_demo Runs.race_late boot) in
  let even := sworld (ticks Examples.env_demo Runs.race boot) in
  timely Examples.env_demo Runs.race_late boot = false
  /\ timely Examples.env_demo Runs.race boot = false
  /\ submitted_in_progress (log late) = false
  /\ handed_over_after_writes (log late) = true
  /\ visited "j1" even
     = [pending_payment; payment_confirmed; payment_confirmed;
        query_in_progress; query_in_progress]
  /\ dispatches "j1" (log even) = 2%nat
  /\ handed_over_stale (log even) = false
  /\ handed_over_after_writes (log even) = true.
Proof.
  repeat split.
Qed.

(** ** Requests that are refused *)

Lemma validateCreateJob_status body err :
  validateCreateJob body = inl err -> statusCode err = 400%Z.
Proof.
  unfold validateCreateJob. intros V.
  destruct body as [| | | | |fields|]; try (inversion V; reflexivity).
  destruct (parse_type (prop fields "type"));
    try (inversion V; reflexivity).
  destruct (prop fields "parameters"); inversion V; reflexivity.
Qed.

Lemma checkParameters_status ty params err :
  JobController.checkParameters ty params = Some err ->
  statusCode err = 400%Z.
Proof.
  unfold JobController.checkParameters. intros C. destruct ty.
  - destruct (prop params "min"); try (inversion C; reflexivity).
    destruct (prop params "max"); try (inversion C; reflexivity).
    destruct (num_ge q q0); inversion C; reflexivity.
  - destruct (negb (truthy (prop params "pair"))
              || negb (is_string (prop params "pair")));
      inversion C; reflexivity.
  - destruct (negb (truthy (prop params "url"))
              || negb (is_string (prop params "url")));
      inversion C; reflexivity.
Qed.

Lemma validateJobId_status i err :
  validateJobId i = inl err -> statusCode err = 400%Z.
Proof.
  unfold validateJobId. destruct (String.eqb i ""); intros V;
    inversion V; reflexivity.
Qed.

Lemma start_answer req w a w' :
  Segments.start req w = (inl a, w') ->
  w' = w
  /\ exists err, a = Replied (Failed err) /\ statusCode err = 400%Z.
Proof.
  destruct req as [body nanoid now|reqId h|reqId|q]; run_segment.
  - destruct (validateCreateJob body) as [err|[ty params]] eqn:V.
    + intros E. inversion E; subst. split; auto. exists err.
      split; auto. now apply (validateCreateJob_status body).
    + destruct (JobController.checkParameters ty params) as [err|] eqn:C.
      * intros E. inversion E; subst. split; auto. exists err.
        split; auto. now apply (checkParameters_status ty params).
      * simpl. discriminate.
  - destruct (validateJobId reqId) as [err|i] eqn:V; [|discriminate].
    intros E. inversion E; subst. split; auto. exists err.
    split; auto. now apply (validateJobId_status reqId).
  - destruct (validateJobId reqId) as [err|i] eqn:V; [|discriminate].
    intros E. inversion E; subst. split; auto. exists err.
    split; auto. now apply (validateJobId_status reqId).
  - discriminate.
Qed.

Lemma start_unwritten req w p w' :
  Segments.start req w = (inr p, w') -> unwritten p = true -> w' = w.
Proof.
  destruct req as [body nanoid now|reqId h|reqId|q]; run_segment.
  - destruct (validateCreateJob body) as [err|[ty params]]; [discriminate|].
    destruct (JobController.checkParameters ty params); [discriminate|].
    simpl. intros E. inversion E; subst. discriminate.
  - destruct (validateJobId reqId) as [err|i]; [discriminate|].
    intros E. now inversion E.
  - destruct (validateJobId reqId) as [err|i]; [discriminate|].
    intros E. now inversion E.
  - intros E. now inversion E.
Qed.

Lemma advance_refuses e p inp w err w' :
  Segments.advance e p inp w = (inl (Replied (Failed err)), w') ->
  w' = w /\ unwritten p = true
  /\ (statusCode err = 400%Z \/ statusCode err = 404%Z).
Proof.
  destruct p; run_segment; split_segment;
    intros E; inversion E; subst; simpl; auto.
Qed.

Lemma advance_unwritten e p inp w p' w' :
  Segments.advance e p inp w = (inr p', w') ->
  unwritten p' = true ->
  unwritten p = true /\ w' = w.
Proof.
  destruct p; run_segment; split_segment;
    intros E; inversion E; subst; simpl; auto; discriminate.
Qed.

Lemma advance_server_error e p inp w w' :
  Segments.advance e p inp w = (inl ServerError, w') ->
  in_fault inp = true /\ w' = w.
Proof.
  destruct p; run_segment; split_segment;
    intros E; inversion E; subst; simpl; auto.
Qed.

Lemma advance_descends e p inp w p' w' :
  Segments.advance e p inp w = (inr p', w') ->
  (segments_left p' < segments_left p)%nat.
Proof.
  destruct p; run_segment; split_segment;
    intros E; inversion E; subst; simpl; lia.
Qed.

Lemma finish_answers e :
  forall inputs p w,
    (segments_left p <= length inputs)%nat ->
    exists a w', Segments.finish e p inputs w = Some (a, w').
Proof.
  induction inputs as [|inp rest IH]; intros p w L; simpl in L.
  - destruct p; simpl in L; lia.
  - simpl. destruct (Segments.advance e p inp w) as [[a|p'] w1] eqn:A.
    + eauto.
    + apply IH. apply advance_descends in A. lia.
Qed.

Lemma finish_refuses e :
  forall inputs p w err w',
    Segments.finish e p inputs w = Some (Replied (Failed err), w') ->
    w' = w /\ unwritten p = true
    /\ (statusCode err = 400%Z \/ statusCode err = 404%Z).
Proof.
  induction inputs as [|inp rest IH]; intros p w err w' F; simpl in F.
  - discriminate.
  - destruct (Segments.advance e p inp w) as [[a|p'] w1] eqn:A.
    + inversion F; subst. now apply (advance_refuses e p inp).
    + destruct (IH _ _ _ _ F) as (-> & U & S).
      destruct (advance_unwritten _ _ _ _ _ _ A U) as [Up ->]. auto.
Qed.

Lemma finish_server_error e :
  forall inputs p w w',
    Segments.finish e p inputs w = Some (ServerError, w') ->
    exists inp, In inp inputs /\ in_fault inp = true.
Proof.
  induction inputs as [|inp rest IH]; intros p w w' F; simpl in F.
  - discriminate.
  - destruct (Segments.advance e p inp w) as [[a|p'] w1] eqn:A.
    + inversion F; subst. exists inp. split; [now left|].
      now apply (advance_server_error e p inp w w').
    + destruct (IH _ _ _ F) as (x & I & Fx). exists x. split; auto.
      now right.
Qed.

(** X7. A request that a handler refuses with an application error has
    changed nothing. Run on its own to its answer, which seven segments
    always reach, [createJob], [getJob] or [confirmPayment] answers an
    error of status 400 or 404 only with the store, the cache, the queue
    and the history as they were when it began; it answers 500 only when
    one of its calls to the cache or the queue fails. The same holds
    segment by segment, whatever runs in between: a segment that refuses
    writes nothing and belongs to a handler that has not written, and a
    handler that has not written has left the world as it was at each of
    its earlier segments. *)
Theorem refused_requests_wrote_nothing :
  forall (e : Env) (req : Request) (inputs : list Input) (w : World),
    (7 <= length inputs)%nat ->
    (exists a w',
       Segments.alone e req inputs w = Some (a, w')
       /\ match a with
          | Replied (Failed err) =>
              w' = w /\ (statusCode err = 400%Z \/ statusCode err = 404%Z)
          | Replied _ => True
          | ServerError =>
              exists inp, In inp inputs /\ in_fault inp = true
          end)
    /\ (forall p inp w1 err w2,
          Segments.advance e p inp w1 = (inl (Replied (Failed err)), w2) ->
          w2 = w1 /\ unwritten p = true)
    /\ (forall p inp w1 p' w2,
          Segments.advance e p inp w1 = (inr p', w2) ->
          unwritten p' = true ->
          unwritten p = true /\ w2 = w1)
    /\ (forall p w2,
          Segments.start req w = (inr p, w2) ->
          unwritten p = true -> w2 = w).
Proof.
  intros e req inputs w L. split; [|split; [|split]].
  - unfold Segments.alone.
    destruct (Segments.start req w) as [[a|p] w1] eqn:S.
    + exists a, w1. split; auto.
      destruct (start_answer _ _ _ _ S) as (-> & err & -> & E). auto.
    + destruct (finish_answers e inputs p w1) as (a & w' & F).
      { destruct p; simpl; lia. }
      exists a, w'. split; auto.
      destruct a as [[]|]; auto.
      * destruct (finish_refuses e _ _ _ _ _ F) as (-> & U & St).
        split; auto. now apply (start_unwritten req w p).
      * now apply (finish_server_error e inputs p w1 w').
  - intros p inp w1 err w2 A.
    destruct (advance_refuses _ _ _ _ _ _ A) as (-> & U & _). auto.
  - intros p inp w1 p' w2 A U. now apply (advance_unwritten e p inp w1 p').
  - intros p w2 S U. now apply (start_unwritten req w p).
Qed.

Lemma refused_requests_wrote_nothing_witness :
  let w := mkWorld [("j1", Examples.job1_in completed 40)] [] [] [] in
  let inputs := repeat (mkInput Examples.no_reply 50 false) 7 in
  exists err w',
    Segments.alone Examples.env_demo (RConfirm "j1") inputs w
    = Some (Replied (Failed err), w')
    /\ w' = w
    /\ (statusCode err = 400%Z \/ statusCode err = 404%Z).
Proof.
  intros w inputs.
  destruct (refused_requests_wrote_nothing Examples.env_demo (RConfirm "j1")
              inputs w) as [(a & w' & A & M) _].
  { simpl. lia. }
  assert (E : a = Replied
                    (Failed (newBadRequestError
                       "Job is not in pending_payment status. Current status: completed"))).
  { cbv in A. inversion A. reflexivity. }
  subst a. destruct M as [W S].
  eexists. exists w'. split; [exact A|]. split; [exact W|exact S].
Defined.

(** ** The coarser steps are runs at this grain *)

Lemma take_proc_as_proc r :
  forall l,
    take_proc r (map (fun rs => (fst rs, as_proc (snd rs))) l)
    = match take_waiting r l with
      | Some (s, rest) =>
          Some (as_proc s, map (fun rs => (fst rs, as_proc (snd rs))) rest)
      | None => None
      end.
Proof.
  induction l as [|[r' s'] l IH]; simpl; [reflexivity|].
  destruct (Nat.eqb r' r); [reflexivity|].
  rewrite IH. destruct (take_waiting r l) as [[s rest]|]; reflexivity.
Qed.

Lemma ticks_app e a b s : ticks e (a ++ b) s = ticks e b (ticks e a s).
Proof. apply fold_left_app. Qed.

Lemma faultless_app a b :
  faultless (a ++ b) = faultless a && faultless b.
Proof. apply forallb_app. Qed.

Lemma ticks_cons e t ts s : ticks e (t :: ts) s = ticks e ts (tick e s t).
Proof. reflexivity. Qed.

Lemma tick_head e r p rest rep w inp :
  tick e (mkServer w ((r, p) :: rest) rep) (Proceed r inp)
  = landed r rest rep (Segments.advance e p inp w).
Proof. simpl. now rewrite Nat.eqb_refl. Qed.

Lemma tick_taken e s r p rest inp :
  take_proc r (procs s) = Some (p, rest) ->
  tick e s (Proceed r inp)
  = landed r rest (replies s) (Segments.advance e p inp (sworld s)).
Proof. intros T. simpl. now rewrite T. Qed.

Lemma paid_tail_is_ticks e s r i job p rest reply now1 now2 :
  take_proc r (procs s) = Some (p, rest) ->
  Segments.advance e p (mkInput reply now1 false) (sworld s)
  = (bind (Jobs.updateJob i (only_status payment_confirmed) now1)
       (fun _ => Segments.continue (PaidUpdate2 i job))) (sworld s) ->
  ticks e
    [Proceed r (mkInput reply now1 false);
     Proceed r (mkInput reply now2 false);
     Proceed r (mkInput reply now2 false);
     Proceed r (mkInput reply now2 false);
     Proceed r (mkInput reply now2 false);
     Proceed r (mkInput reply now2 false)] s
  = mkServer (snd (JobController.confirmAndQueue i job now1 now2 (sworld s)))
      rest
      ((r, Replied
             (fst (JobController.confirmAndQueue i job now1 now2 (sworld s))))
       :: replies s).
Proof.
  intros T A. rewrite ticks_cons, (tick_taken e s r p rest _ T), A.
  unfold JobController.confirmAndQueue, bind, Segments.continue, ret.
  destruct (Jobs.updateJob i (only_status payment_confirmed) now1 (sworld s))
    as [u1 w1].
  cbn [landed]. rewrite ticks_cons, tick_head.
  cbn [Segments.advance in_now]. unfold bind, Segments.continue, ret.
  destruct (Jobs.updateJob i (only_status query_in_progress) now2 w1)
    as [u2 w2].
  cbn [landed]. rewrite ticks_cons, tick_head.
  cbn [Segments.advance in_fault].
  unfold Segments.calling, bind, Segments.continue, ret, QueueService.addJob.
  cbn [landed]. rewrite ticks_cons, tick_head.
  cbn [Segments.advance in_fault].
  unfold Segments.calling, bind, Segments.continue, ret, CacheService.del.
  cbn [landed]. rewrite ticks_cons, tick_head.
  cbn [Segments.advance].
  unfold bind, Segments.continue, ret, Jobs.getJob.
  cbn [landed]. rewrite ticks_cons, tick_head.
  reflexivity.
Qed.

Lemma tick_arrive e s r req :
  tick e s (Arrive r req)
  = landed r (procs s) (replies s) (Segments.start req (sworld s)).
Proof. reflexivity. Qed.

Ltac arrive :=
  rewrite ticks_cons, tick_arrive;
  unfold Segments.start, Segments.replied, Segments.continue, bind, ret,
    Jobs.getJob, Jobs.getAllJobs, JobController.call_with_surplus;
  cbn [as_server sworld procs replies].

Ltac proceed :=
  cbn [landed]; unfold Runs.proceed; rewrite ticks_cons, tick_head;
  cbn [Segments.advance in_fault in_now in_reply];
  unfold Segments.calling, Segments.replied, Segments.continue, bind, ret,
    Jobs.getJob, CacheService.get, CacheService.set.

Lemma step_is_ticks e sys st :
  exists ts,
    faultless ts = true
    /\ ticks e ts (as_server sys) = as_server (step e sys st).
Proof.
  destruct st as [r body nanoid now|r i h|r i|r q|r reply now1 now2|k o now
                 |key].
  - cbn [step]. unfold JobController.createJob.
    destruct (validateCreateJob body) as [err|[ty params]] eqn:V.
    + exists [Arrive r (RCreate body nanoid now)]. split; auto.
      arrive. now rewrite V.
    + destruct (JobController.checkParameters ty params) as [err|] eqn:C.
      * exists [Arrive r (RCreate body nanoid now)]. split; auto.
        arrive. now rewrite V, C.
      * exists [Arrive r (RCreate body nanoid now); Runs.proceed r now].
        split; auto. arrive. rewrite V, C.
        unfold bind, Jobs.createJob. cbn [JobService.createJob].
        proceed. reflexivity.
  - cbn [step]. unfold JobController.getJob_begin.
    destruct (validateJobId i) as [err|i'] eqn:V.
    + exists [Arrive r (RFetch i h)]. split; auto. arrive. now rewrite V.
    + unfold bind, Jobs.getJob.
      destruct (JobService.getJob (jobs (world sys)) i') as [job|] eqn:G.
      * destruct (JobStatus_eqb (status job) pending_payment) eqn:S;
          destruct (str_truthy h) eqn:H; cbn [andb negb].
        -- exists [Arrive r (RFetch i h); Runs.proceed r 0]. split; auto.
           arrive. rewrite V, G. proceed. rewrite S, H. reflexivity.
        -- exists [Arrive r (RFetch i h); Runs.proceed r 0]. split; auto.
           arrive. rewrite V, G. proceed. rewrite S, H. reflexivity.
        -- unfold CacheService.get.
           destruct (JsMap.get (cache (world sys)) (cacheKey i'))
             as [c|] eqn:Ca.
           ++ exists [Arrive r (RFetch i h); Runs.proceed r 0; Runs.proceed r 0].
              split; auto.
              arrive. rewrite V, G. proceed. rewrite S, H.
              cbn [andb negb]. rewrite Ca. proceed. reflexivity.
           ++ exists [Arrive r (RFetch i h); Runs.proceed r 0; Runs.proceed r 0;
                      Runs.proceed r 0; Runs.proceed r 0].
              split; auto.
              arrive. rewrite V, G. proceed. rewrite S, H.
              cbn [andb negb]. rewrite Ca. proceed. rewrite G.
              proceed. proceed. reflexivity.
        -- unfold CacheService.get.
           destruct (JsMap.get (cache (world sys)) (cacheKey i'))
             as [c|] eqn:Ca.
           ++ exists [Arrive r (RFetch i h); Runs.proceed r 0; Runs.proceed r 0].
              split; auto.
              arrive. rewrite V, G. proceed. rewrite S, H.
              cbn [andb negb]. rewrite Ca. proceed. reflexivity.
           ++ exists [Arrive r (RFetch i h); Runs.proceed r 0; Runs.proceed r 0;
                      Runs.proceed r 0; Runs.proceed r 0].
              split; auto.
              arrive. rewrite V, G. proceed. rewrite S, H.
              cbn [andb negb]. rewrite Ca. proceed. rewrite G.
              proceed. proceed. reflexivity.
      * exists [Arrive r (RFetch i h); Runs.proceed r 0]. split; auto.
        arrive. rewrite V, G. proceed. reflexivity.
  - cbn [step]. unfold JobController.confirmPayment_begin.
    destruct (validateJobId i) as [err|i'] eqn:V.
    + exists [Arrive r (RConfirm i)]. split; auto. arrive. now rewrite V.
    + unfold bind, Jobs.getJob.
      exists [Arrive r (RConfirm i); Runs.proceed r 0]. split; auto.
      arrive. rewrite V.
      destruct (JobService.getJob (jobs (world sys)) i') as [job|];
        proceed; [|reflexivity].
      destruct (JobStatus_eqb (status job) pending_payment); reflexivity.
  - exists [Arrive r (RList q); Runs.proceed r 0]. split; auto.
    arrive. proceed. reflexivity.
  - cbn [step].
    pose proof (take_proc_as_proc r (waiting sys)) as T.
    destruct (take_waiting r (waiting sys)) as [[s rest]|].
    + assert (E : as_server sys
                  = mkServer (world sys)
                      (map (fun rs => (fst rs, as_proc (snd rs)))
                         (waiting sys))
                      (map (fun ra => (fst ra, Replied (snd ra)))
                         (answers sys))) by reflexivity.
      destruct s as [i job h|i job].
      * cbn [JobController.resume]. unfold JobController.getJob_resume.
        destruct (negb (FacilitatorService.verified
                          (FacilitatorService.verifyPayment e h i reply)))
          eqn:Vf.
        -- exists [Proceed r (mkInput reply now1 false)]. split; auto.
           rewrite ticks_cons. unfold tick. cbn [as_server procs].
           rewrite T. cbn [as_proc Segments.advance in_reply sworld replies].
           rewrite Vf. reflexivity.
        -- eexists. split.
           2:{ rewrite (paid_tail_is_ticks e (as_server sys) r i job
                          (FetchVerify i job h) _ reply now1 now2 T).
               - reflexivity.
               - cbn [Segments.advance in_reply in_now]. now rewrite Vf. }
           reflexivity.
      * eexists. split.
        2:{ rewrite (paid_tail_is_ticks e (as_server sys) r i job
                       (ConfirmSimulate i job) _
                       (FacilitatorService.Throws None) now1 now2 T).
            - reflexivity.
            - reflexivity. }
        reflexivity.
    + exists []. split; auto.
  - exists [WorkerDone k o now]. split; auto.
  - exists [EntryExpires key]. split; auto.
Qed.

Lemma run_is_ticks e :
  forall steps sys,
    exists ts,
      faultless ts = true
      /\ ticks e ts (as_server sys) = as_server (run e steps sys).
Proof.
  induction steps as [|st steps IH]; intros sys.
  - exists []. split; reflexivity.
  - destruct (step_is_ticks e sys st) as (t1 & F1 & E1).
    destruct (IH (step e sys st)) as (t2 & F2 & E2).
    exists (t1 ++ t2)%list. split.
    + now rewrite faultless_app, F1, F2.
    + rewrite ticks_app, E1, E2. reflexivity.
Qed.

(** Every run of the coarser steps is a run at the grain of the awaits, one
    in which no call to the cache or the queue fails, with the same world,
    the same handlers waiting and the same answers. *)
Lemma coarse_runs_are_runs e steps :
  exists ts,
    faultless ts = true
    /\ ticks e ts boot = as_server (run e steps start).
Proof.
  apply (run_is_ticks e steps start).
Qed.

(** ** A write that comes too late takes the job off the chain *)











(** ** The order of states *)



(** ** Every confirmation leads to one entry *)















(** ** Dispatch at most once *)


